(** * BMP converter: quantisation and encoding pipeline

    A shallow embedding of [bmp-convert/encoder.js] and
    [bmp-convert/preview.js]: the colour distance, the median-cut palette
    builder, the nearest-colour matcher, the Floyd-Steinberg disperser, the
    requantiser and the three BMP encoders, together with the decoders of
    [bmp-convert/spec/preview.test.js].

    Conventions.  JavaScript numbers that are integers in the source
    (channel values, counts, box bounds, offsets) are modelled in [Z] or
    [nat]; the only genuinely fractional computations are the weighted
    distance, modelled bit-exactly in IEEE binary64, and the error
    diffusion, whose operands are multiples of 1/16 and are modelled
    exactly in sixteenths. *)

From Stdlib Require Import ZArith SpecFloat.
From stdpp Require Import base list sorting gmap.

Local Open Scope Z_scope.

(** ** Completions

    A call either returns a value or throws; bounded loops that are written
    with fuel can also run out of it. *)

Inductive error := TypeError | RangeError.

Inductive completion (A : Type) :=
| Normal (a : A)
| Throw (e : error)
| OutOfFuel.
Arguments Normal {A} a.
Arguments Throw {A} e.
Arguments OutOfFuel {A}.

Definition cbind {A B} (c : completion A) (k : A -> completion B) : completion B :=
  match c with
  | Normal a => k a
  | Throw e => Throw e
  | OutOfFuel => OutOfFuel
  end.

Notation "'let*' x := c 'in' k" := (cbind c (fun x => k))
  (at level 10, x name, c at level 100, k at level 200).
Notation "'let*' ( x , y ) := c 'in' k" := (cbind c (fun '(x, y) => k))
  (at level 10, x name, y name, c at level 100, k at level 200).

(** [forM xs body s]: a [for] loop whose body may throw. *)
Fixpoint forM {A S} (xs : list A) (body : A -> S -> completion S) (s : S) : completion S :=
  match xs with
  | [] => Normal s
  | x :: xs' => let* s' := body x s in forM xs' body s'
  end.

(** ** IEEE binary64 arithmetic (JavaScript numbers) *)

Module Float64.

Definition prec : Z := 53.
Definition emax : Z := 1024.

Definition of_Z (z : Z) : spec_float := binary_normalize prec emax z 0 false.
Definition mul : spec_float -> spec_float -> spec_float := SFmul prec emax.
Definition add : spec_float -> spec_float -> spec_float := SFadd prec emax.
Definition div : spec_float -> spec_float -> spec_float := SFdiv prec emax.
Definition sqrt : spec_float -> spec_float := SFsqrt prec emax.
Definition ltb : spec_float -> spec_float -> bool := SFltb.
Definition leb : spec_float -> spec_float -> bool := SFleb.
Definition infinity : spec_float := S754_infinity false.

(** The literals [0.3], [0.59] and [0.11]: the doubles nearest to the
    decimal fractions. *)
Definition lit_0_3 : spec_float := S754_finite false 5404319552844595 (-54).
Definition lit_0_59 : spec_float := S754_finite false 5314247560297185 (-53).
Definition lit_0_11 : spec_float := S754_finite false 7926335344172073 (-56).

(** Not a NaN, and not negative (either zero counts). *)
Definition nonneg (x : spec_float) : Prop :=
  match x with
  | S754_nan => False
  | S754_zero _ => True
  | S754_infinity s => s = false
  | S754_finite s _ _ => s = false
  end.

(** Not a NaN, with sign [s]. *)
Definition signed (s : bool) (x : spec_float) : Prop :=
  match x with
  | S754_nan => False
  | S754_zero s' | S754_infinity s' | S754_finite s' _ _ => s' = s
  end.

(** On values that are not NaN and not negative the comparison is the
    lexicographic comparison of (class, exponent, mantissa). *)
Definition ord (x : spec_float) : Z * Z * Z :=
  match x with
  | S754_zero _ => (0, 0, 0)
  | S754_finite _ m e => (1, e, Z.pos m)
  | S754_infinity _ => (2, 0, 0)
  | S754_nan => (3, 0, 0)
  end.

Definition lex_lt (p q : Z * Z * Z) : Prop :=
  let '(a, b, c) := p in
  let '(a', b', c') := q in
  a < a' \/ (a = a' /\ (b < b' \/ (b = b' /\ c < c'))).

End Float64.

(** ** Colours *)

Record RGB := mkRGB { r : Z; g : Z; b : Z }.

Definition black : RGB := mkRGB 0 0 0.

Global Instance RGB_eq_dec : EqDecision RGB.
Proof. solve_decision. Defined.

(** [perceptualDistance], evaluated left to right in binary64. *)
Definition perceptualDistance (r1 g1 b1 r2 g2 b2 : Z) : spec_float :=
  let dr := Float64.of_Z (r1 - r2) in
  let dg := Float64.of_Z (g1 - g2) in
  let db := Float64.of_Z (b1 - b2) in
  Float64.sqrt
    (Float64.add
       (Float64.add
          (Float64.mul (Float64.mul Float64.lit_0_3 dr) dr)
          (Float64.mul (Float64.mul Float64.lit_0_59 dg) dg))
       (Float64.mul (Float64.mul Float64.lit_0_11 db) db)).

(** The scan of [findClosestColor]: [i] is the loop index, [rest] the
    entries from [i] on. *)
Fixpoint closestFrom (r0 g0 b0 : Z) (rest : list RGB) (i : nat)
    (minDist : spec_float) (bestIndex : nat) : nat :=
  match rest with
  | [] => bestIndex
  | c :: rest' =>
      let dist := perceptualDistance r0 g0 b0 (r c) (g c) (b c) in
      if Float64.ltb dist minDist
      then closestFrom r0 g0 b0 rest' (S i) dist i
      else closestFrom r0 g0 b0 rest' (S i) minDist bestIndex
  end.

Definition findClosestColor (colorArray : list RGB) (r0 g0 b0 : Z) : nat :=
  closestFrom r0 g0 b0 colorArray 0 Float64.infinity 0.

(** Following the specification's words: the weighted squared distance
    0.3·Δr² + 0.59·Δg² + 0.11·Δb² as an exact number, scaled by 100. *)
Definition exactWeight100 (r1 g1 b1 r2 g2 b2 : Z) : Z :=
  30 * (r1 - r2) * (r1 - r2) + 59 * (g1 - g2) * (g1 - g2) + 11 * (b1 - b2) * (b1 - b2).

(** State of the scan of [findClosestColor] for the colour (r0,g0,b0) once
    the entries [pre] have been visited. *)
Definition scanned (r0 g0 b0 : Z) (pre : list RGB) (minDist : spec_float)
    (bestIndex : nat) : Prop :=
  let dist c := perceptualDistance r0 g0 b0 (r c) (g c) (b c) in
  Float64.nonneg minDist /\
  (forall j cj, pre !! j = Some cj -> Float64.leb minDist (dist cj) = true) /\
  (forall j cj, (j < bestIndex)%nat -> pre !! j = Some cj ->
                Float64.ltb minDist (dist cj) = true) /\
  ((pre = [] /\ bestIndex = 0%nat /\ minDist = Float64.infinity) \/
   (exists c, pre !! bestIndex = Some c /\ Float64.leb (dist c) minDist = true)).

(** ** Median-cut palette builder *)

(** A colour sample [{ r, g, b, count }]. *)
Module Sample.
Record t := mk { r : Z; g : Z; b : Z; count : Z }.
End Sample.

(** A colour box: its samples and its bounding range. *)
Record Box := mkBox {
  colors : list Sample.t;
  rMin : Z; rMax : Z;
  gMin : Z; gMax : Z;
  bMin : Z; bMax : Z
}.

(** The value of [sortBy]: ["r"], ["g"] or ["b"]. *)
Inductive Axis := AxisR | AxisG | AxisB.

Definition channel (sortBy : Axis) (c : Sample.t) : Z :=
  match sortBy with
  | AxisR => Sample.r c
  | AxisG => Sample.g c
  | AxisB => Sample.b c
  end.

(** [box[sortBy + "Min"]] and [box[sortBy + "Max"]]. *)
Definition boxMin (sortBy : Axis) (box : Box) : Z :=
  match sortBy with AxisR => rMin box | AxisG => gMin box | AxisB => bMin box end.
Definition boxMax (sortBy : Axis) (box : Box) : Z :=
  match sortBy with AxisR => rMax box | AxisG => gMax box | AxisB => bMax box end.

Definition setMin (sortBy : Axis) (v : Z) (box : Box) : Box :=
  match sortBy with
  | AxisR => mkBox (colors box) v (rMax box) (gMin box) (gMax box) (bMin box) (bMax box)
  | AxisG => mkBox (colors box) (rMin box) (rMax box) v (gMax box) (bMin box) (bMax box)
  | AxisB => mkBox (colors box) (rMin box) (rMax box) (gMin box) (gMax box) v (bMax box)
  end.
Definition setMax (sortBy : Axis) (v : Z) (box : Box) : Box :=
  match sortBy with
  | AxisR => mkBox (colors box) (rMin box) v (gMin box) (gMax box) (bMin box) (bMax box)
  | AxisG => mkBox (colors box) (rMin box) (rMax box) (gMin box) v (bMin box) (bMax box)
  | AxisB => mkBox (colors box) (rMin box) (rMax box) (gMin box) (gMax box) (bMin box) v
  end.

(** [(r << 16) | (g << 8) | b], the key of [colorMap]. *)
Definition colorKey (r g b : Z) : Z :=
  Z.lor (Z.lor (Z.shiftl r 16) (Z.shiftl g 8)) b.

Definition incrCount (c : Sample.t) : Sample.t :=
  Sample.mk (Sample.r c) (Sample.g c) (Sample.b c) (Sample.count c + 1).

(** The collection loop.  [colors] holds the sample objects in order of
    first appearance; [colorMap] refers to the same objects, which is
    rendered by mapping a key to the position of its sample in [colors], so
    that [colorMap.get(key).count++] updates the sample that [colors]
    holds.  The buffer is read four bytes at a time; its length is a
    multiple of four, so no partial pixel remains at the end. *)
Fixpoint collectColors (data : list Z) (colorMap : gmap Z nat)
    (colors : list Sample.t) : list Sample.t :=
  match data with
  | r :: g :: b :: a :: rest =>
      if a <? 128 then collectColors rest colorMap colors
      else
        let key := colorKey r g b in
        let '(colorMap, colors) :=
          match colorMap !! key with
          | Some _ => (colorMap, colors)
          | None => (<[key := length colors]> colorMap,
                     colors ++ [Sample.mk r g b 0])
          end in
        let colors :=
          match colorMap !! key with
          | Some idx => alter incrCount idx colors
          | None => colors
          end in
        collectColors rest colorMap colors
  | _ => colors
  end.

Definition axisRange (sortBy : Axis) (box : Box) : Z := boxMax sortBy box - boxMin sortBy box.

Definition boxVolume (box : Box) : Z :=
  axisRange AxisR box * axisRange AxisG box * axisRange AxisB box.

(** First search: the box of largest volume among those with more than one
    sample.  [None] stands for [largestBoxIndex === -1]. *)
Fixpoint largestFrom (boxes : list Box) (i : nat) (largestBoxIndex : option nat)
    (largestVolume : Z) : option nat :=
  match boxes with
  | [] => largestBoxIndex
  | box :: rest =>
      if (length (colors box) <=? 1)%nat
      then largestFrom rest (S i) largestBoxIndex largestVolume
      else if largestVolume <? boxVolume box
           then largestFrom rest (S i) (Some i) (boxVolume box)
           else largestFrom rest (S i) largestBoxIndex largestVolume
  end.

(** Second search: the first box with a range above 1 on some axis. *)
Fixpoint firstWithRange (boxes : list Box) (i : nat) : option nat :=
  match boxes with
  | [] => None
  | box :: rest =>
      if (1 <? axisRange AxisR box) || (1 <? axisRange AxisG box)
         || (1 <? axisRange AxisB box)
      then Some i
      else firstWithRange rest (S i)
  end.

Definition chooseBox (boxes : list Box) : option nat :=
  match largestFrom boxes 0 None 0 with
  | Some i => Some i
  | None => firstWithRange boxes 0
  end.

(** The duplication loop, run [n] times: [n] is the number of boxes still
    missing, and every round pushes one. *)
Fixpoint duplicateBoxes (n : nat) (existingBoxes : nat) (boxes : list Box)
    : completion (list Box) :=
  match n with
  | O => Normal boxes
  | S n' =>
      match boxes !! (length boxes mod existingBoxes)%nat with
      | Some sourceBox => duplicateBoxes n' existingBoxes (boxes ++ [sourceBox])
      | None => Throw TypeError
      end
  end.

Definition longestAxis (box : Box) : Axis :=
  let rRange := axisRange AxisR box in
  let gRange := axisRange AxisG box in
  let bRange := axisRange AxisB box in
  if (gRange <=? rRange) && (bRange <=? rRange) then AxisR
  else if bRange <=? gRange then AxisG
  else AxisB.

(** The branch for a box with at most one sample.  Reading a channel of
    [box.colors[0]] throws when the box has no sample. *)
Definition splitSingle (box : Box) (sortBy : Axis)
    : completion (list Sample.t * list Sample.t) :=
  let midpoint := (boxMin sortBy box + boxMax sortBy box) / 2 in
  match colors box !! 0%nat with
  | None => Throw TypeError
  | Some color =>
      let leftColors := if channel sortBy color <=? midpoint then [color] else [] in
      let rightColors := if midpoint <? channel sortBy color then [color] else [] in
      Normal
        (match leftColors, rightColors with
         | [], [] => ([color], [color])
         | _ :: _, [] => (leftColors, [color])
         | [], _ :: _ => ([color], rightColors)
         | _, _ => (leftColors, rightColors)
         end)
  end.

(** [Array.prototype.sort] with the comparator [a.x - b.x]: a stable sort
    by the channel. *)
Fixpoint insertSorted (sortBy : Axis) (c : Sample.t) (sorted : list Sample.t)
    : list Sample.t :=
  match sorted with
  | [] => [c]
  | d :: rest =>
      if channel sortBy c <=? channel sortBy d then c :: d :: rest
      else d :: insertSorted sortBy c rest
  end.

Definition sortColors (sortBy : Axis) (cs : list Sample.t) : list Sample.t :=
  foldr (insertSorted sortBy) [] cs.

Definition totalCountOf (cs : list Sample.t) : Z :=
  fold_left (fun acc c => acc + Sample.count c) cs 0.

(** The median search; [medianCount >= totalCount / 2] is compared after
    doubling both sides.  The index stays 0 if the test never succeeds. *)
Fixpoint medianFrom (cs : list Sample.t) (i : nat) (medianCount totalCount : Z) : nat :=
  match cs with
  | [] => 0%nat
  | c :: rest =>
      let medianCount := medianCount + Sample.count c in
      if totalCount <=? 2 * medianCount then i
      else medianFrom rest (S i) medianCount totalCount
  end.

Definition splitNormal (box : Box) (sortBy : Axis) : list Sample.t * list Sample.t :=
  let sorted := sortColors sortBy (colors box) in
  let totalCount := totalCountOf sorted in
  let medianIndex := medianFrom sorted 0 0 totalCount in
  (take (S medianIndex) sorted, drop (S medianIndex) sorted).

Definition withColors (cs : list Sample.t) (box : Box) : Box :=
  mkBox cs (rMin box) (rMax box) (gMin box) (gMax box) (bMin box) (bMax box).

(** The two children with their bounds. *)
Definition childBoxes (box : Box) (sortBy : Axis)
    (leftColors rightColors : list Sample.t) : Box * Box :=
  let leftBox := withColors leftColors box in
  let rightBox := withColors rightColors box in
  let leftBox :=
    match last leftColors with
    | Some c => setMax sortBy (channel sortBy c) leftBox
    | None => leftBox
    end in
  let rightBox :=
    match head rightColors with
    | Some c => setMin sortBy (channel sortBy c) rightBox
    | None => rightBox
    end in
  (leftBox, rightBox).

(** [boxes.splice(i, 1, leftBox, rightBox)]. *)
Definition splice2 (boxes : list Box) (i : nat) (leftBox rightBox : Box) : list Box :=
  take i boxes ++ leftBox :: rightBox :: drop (S i) boxes.

(** The splitting of one box, as the loop body performs it. *)
Definition splitBox (box : Box) : completion (Box * Box) :=
  let sortBy := longestAxis box in
  let* (leftColors, rightColors) :=
    if (length (colors box) <=? 1)%nat
    then splitSingle box sortBy
    else Normal (splitNormal box sortBy) in
  Normal (childBoxes box sortBy leftColors rightColors).

(** The main loop [while (boxes.length < maxColors - 1)]. *)
Fixpoint splitLoop (fuel : nat) (maxColors : nat) (boxes : list Box)
    : completion (list Box) :=
  match fuel with
  | O => OutOfFuel
  | S fuel' =>
      if (length boxes <? maxColors - 1)%nat then
        match chooseBox boxes with
        | None =>
            duplicateBoxes (maxColors - 1 - length boxes) (length boxes) boxes
        | Some largestBoxIndex =>
            match boxes !! largestBoxIndex with
            | None => Throw TypeError
            | Some box =>
                let* (leftBox, rightBox) := splitBox box in
                splitLoop fuel' maxColors (splice2 boxes largestBoxIndex leftBox rightBox)
            end
        end
      else Normal boxes
  end.

(** [Math.round (n / d)] for integers [n >= 0] and [d > 0]: the quotient
    is rounded half up.  The double division is exact enough for this to
    be the integer formula whenever [d] is below 2^45. *)
Definition roundDiv (n d : Z) : Z := (2 * n + d) / (2 * d).

Definition averageColor (box : Box) : RGB :=
  let totalR := fold_left (fun acc c => acc + Sample.r c * Sample.count c) (colors box) 0 in
  let totalG := fold_left (fun acc c => acc + Sample.g c * Sample.count c) (colors box) 0 in
  let totalB := fold_left (fun acc c => acc + Sample.b c * Sample.count c) (colors box) 0 in
  let totalCount := totalCountOf (colors box) in
  mkRGB (roundDiv totalR totalCount) (roundDiv totalG totalCount) (roundDiv totalB totalCount).

(** The averaging loop over the boxes. *)
Fixpoint averageBoxes (maxColors : nat) (boxes : list Box) (palette : list RGB)
    : list RGB :=
  match boxes with
  | [] => palette
  | box :: rest =>
      if (maxColors <=? length palette)%nat then palette
      else
        match colors box with
        | [] =>
            averageBoxes maxColors rest
              (if (length palette <? maxColors)%nat then palette ++ [black] else palette)
        | _ :: _ =>
            let avgColor := averageColor box in
            if bool_decide (avgColor = black)
            then averageBoxes maxColors rest palette
            else averageBoxes maxColors rest (palette ++ [avgColor])
        end
  end.

Definition initialBox (colors : list Sample.t) : Box :=
  mkBox colors 0 255 0 255 0 255.

Definition medianCutQuantize (data : list Z) (maxColors : nat) : completion (list RGB) :=
  let colors := collectColors data ∅ [] in
  if (length colors =? 0)%nat then Normal (replicate maxColors black)
  else
    let* boxes := splitLoop (S maxColors) maxColors [initialBox colors] in
    let palette := averageBoxes maxColors boxes [black] in
    let palette := palette ++ replicate (maxColors - length palette) black in
    Normal (take maxColors palette).

(** [build8BitPalette] and [build4BitPalette]: the palette; the matcher
    is [findClosestColor] over that palette. *)
Definition build8BitPalette (data : list Z) : completion (list RGB) :=
  medianCutQuantize data 256.
Definition build4BitPalette (data : list Z) : completion (list RGB) :=
  medianCutQuantize data 16.

(** ** Typed arrays and image data

    A byte array is a list of integers in 0..255.  [ImageData] always has
    [4 * width * height] bytes, so the reads of the pixel loops below are in
    range; [readByte] gives 0 outside, which those loops never observe. *)

Record ImageData := mkImageData { width : nat; height : nat; data : list Z }.

Definition readByte (buf : list Z) (i : nat) : Z := default 0 (buf !! i).

(** Storing an integer into a [Uint8ClampedArray]. *)
Definition toUint8Clamp (v : Z) : Z := Z.max 0 (Z.min 255 v).

(** Storing [Math.max(0, Math.min(255, n/16))] into a [Uint8ClampedArray]:
    the clamped value is rounded to the nearest integer, ties to even. *)
Definition toUint8Clamp16 (n : Z) : Z :=
  let c := Z.max 0 (Z.min (255 * 16) n) in
  let q := c / 16 in
  let rem := c mod 16 in
  if rem <? 8 then q
  else if 8 <? rem then q + 1
  else if Z.even q then q else q + 1.

Definition setClamped (i : nat) (v : Z) (buf : list Z) : list Z :=
  <[i := toUint8Clamp v]> buf.

(** [new ImageData(width, height)]: a zeroed buffer. *)
Definition newImageData (width height : nat) : ImageData :=
  mkImageData width height (replicate (4 * width * height) 0).

(** [target.set(source)]: throws when the source does not fit. *)
Definition typedArraySet (target source : list Z) : completion (list Z) :=
  if (length source <=? length target)%nat
  then Normal (source ++ drop (length source) target)
  else Throw RangeError.

(** The store of typed arrays, addressed by reference, for the code whose
    effect on its argument matters. *)
Abbreviation store := (list (list Z)) (only parsing).
Abbreviation ref := nat (only parsing).

Definition deref (σ : store) (l : ref) : list Z := default [] (σ !! l).
Definition rd (σ : store) (l : ref) (i : nat) : Z := readByte (deref σ l) i.
Definition wr (σ : store) (l : ref) (i : nat) (v : Z) : store :=
  alter (fun buf => <[i := v]> buf) l σ.
Definition alloc (σ : store) (content : list Z) : store * ref :=
  (σ ++ [content], length σ).

(** ** Floyd-Steinberg error diffusion *)

Section Dithering.
Variable ditheredData : ref.
Variables width height : nat.
Variable colorArray : list RGB.
Variable findClosestColor : Z -> Z -> Z -> nat.

(** [distributeError(x1, y1, weight)] with [weight = weight16 / 16]. *)
Definition distributeError (errR errG errB : Z) (x1 y1 : Z) (weight16 : Z)
    (σ : store) : store :=
  if (0 <=? x1) && (x1 <? Z.of_nat width) && (0 <=? y1) && (y1 <? Z.of_nat height) then
    let idx := Z.to_nat ((y1 * Z.of_nat width + x1) * 4) in
    if 128 <=? rd σ ditheredData (idx + 3) then
      let σ := wr σ ditheredData idx
                 (toUint8Clamp16 (16 * rd σ ditheredData idx + errR * weight16)) in
      let σ := wr σ ditheredData (idx + 1)
                 (toUint8Clamp16 (16 * rd σ ditheredData (idx + 1) + errG * weight16)) in
      let σ := wr σ ditheredData (idx + 2)
                 (toUint8Clamp16 (16 * rd σ ditheredData (idx + 2) + errB * weight16)) in
      σ
    else σ
  else σ.

(** The body of the pixel loop. *)
Definition ditherPixel (y x : nat) (σ : store) : completion store :=
  let i := ((y * width + x) * 4)%nat in
  if rd σ ditheredData (i + 3) <? 128 then Normal σ
  else
    let oldR := rd σ ditheredData i in
    let oldG := rd σ ditheredData (i + 1) in
    let oldB := rd σ ditheredData (i + 2) in
    let colorIndex := findClosestColor oldR oldG oldB in
    match colorArray !! colorIndex with
    | None => Throw TypeError
    | Some paletteColor =>
        let newR := r paletteColor in
        let newG := g paletteColor in
        let newB := b paletteColor in
        let σ := wr σ ditheredData i (toUint8Clamp newR) in
        let σ := wr σ ditheredData (i + 1) (toUint8Clamp newG) in
        let σ := wr σ ditheredData (i + 2) (toUint8Clamp newB) in
        let errR := oldR - newR in
        let errG := oldG - newG in
        let errB := oldB - newB in
        let xz := Z.of_nat x in
        let yz := Z.of_nat y in
        let σ := distributeError errR errG errB (xz + 1) yz 7 σ in
        let σ := distributeError errR errG errB (xz - 1) (yz + 1) 3 σ in
        let σ := distributeError errR errG errB xz (yz + 1) 5 σ in
        let σ := distributeError errR errG errB (xz + 1) (yz + 1) 1 σ in
        Normal σ
    end.

Definition ditherLoop (σ : store) : completion store :=
  forM (seq 0 height) (fun y σ => forM (seq 0 width) (fun x σ => ditherPixel y x σ) σ) σ.

End Dithering.

(** [applyFloydSteinbergDithering]: [data] is a reference into the store;
    the result is the reference of the array allocated by
    [new Uint8ClampedArray(data)]. *)
Definition applyFloydSteinbergDithering (σ : store) (data : ref)
    (width height : nat) (colorArray : list RGB)
    (findClosestColor : Z -> Z -> Z -> nat) : completion (store * ref) :=
  let '(σ, ditheredData) := alloc σ (deref σ data) in
  let* σ := ditherLoop ditheredData width height colorArray findClosestColor σ in
  Normal (σ, ditheredData).

(** The disperser as a function of the contents of its argument. *)
Definition ditherData (data : list Z) (width height : nat) (colorArray : list RGB)
    (findClosestColor : Z -> Z -> Z -> nat) : completion (list Z) :=
  let* (σ, ditheredData) :=
    applyFloydSteinbergDithering [data] 0%nat width height colorArray findClosestColor in
  Normal (deref σ ditheredData).

(** ** The requantiser and the previews *)

Definition quantizePixel (data : list Z) (width : nat) (colorArray : list RGB)
    (findClosestColor : Z -> Z -> Z -> nat) (y x : nat) (out : list Z)
    : completion (list Z) :=
  let i := ((y * width + x) * 4)%nat in
  if readByte data (i + 3) <? 128 then
    let out := setClamped i 0 out in
    let out := setClamped (i + 1) 0 out in
    let out := setClamped (i + 2) 0 out in
    Normal (setClamped (i + 3) (readByte data (i + 3)) out)
  else
    let colorIndex :=
      findClosestColor (readByte data i) (readByte data (i + 1)) (readByte data (i + 2)) in
    match colorArray !! colorIndex with
    | None => Throw TypeError
    | Some color =>
        let out := setClamped i (r color) out in
        let out := setClamped (i + 1) (g color) out in
        let out := setClamped (i + 2) (b color) out in
        Normal (setClamped (i + 3) (readByte data (i + 3)) out)
    end.

Definition quantizeImageData (imageData : ImageData) (colorArray : list RGB)
    (findClosestColor : Z -> Z -> Z -> nat) : completion ImageData :=
  let width := width imageData in
  let height := height imageData in
  let quantizedData := newImageData width height in
  let* out :=
    forM (seq 0 height)
      (fun y out =>
         forM (seq 0 width)
           (fun x out => quantizePixel (data imageData) width colorArray findClosestColor y x out)
           out)
      (data quantizedData) in
  Normal (mkImageData width height out).

Definition generatePreview24Bit (imageData : ImageData) : ImageData :=
  mkImageData (width imageData) (height imageData) (data imageData).

Definition generatePreview8Bit (imageData : ImageData) (dither : bool)
    : completion ImageData :=
  let imageDataCopy := mkImageData (width imageData) (height imageData) (data imageData) in
  let* colorArray := build8BitPalette (data imageDataCopy) in
  if dither then
    let* processedData :=
      ditherData (data imageDataCopy) (width imageDataCopy) (height imageDataCopy)
        colorArray (findClosestColor colorArray) in
    let ditheredImageData := newImageData (width imageDataCopy) (height imageDataCopy) in
    let* buf := typedArraySet (data ditheredImageData) processedData in
    quantizeImageData (mkImageData (width ditheredImageData) (height ditheredImageData) buf)
      colorArray (findClosestColor colorArray)
  else quantizeImageData imageDataCopy colorArray (findClosestColor colorArray).

Definition generatePreview4Bit (imageData : ImageData) (aggressive : bool)
    : completion ImageData :=
  let imageDataCopy := mkImageData (width imageData) (height imageData) (data imageData) in
  let width := width imageDataCopy in
  let height := height imageDataCopy in
  let* colorArray := build4BitPalette (data imageDataCopy) in
  let* processedData :=
    if aggressive
    then ditherData (data imageDataCopy) width height colorArray (findClosestColor colorArray)
    else Normal (data imageDataCopy) in
  let processedImageData := newImageData width height in
  let* buf := typedArraySet (data processedImageData) processedData in
  quantizeImageData (mkImageData width height buf) colorArray (findClosestColor colorArray).

(** ** The BMP encoders *)

(** [DataView] writes, little-endian; a write outside the buffer throws. *)
Definition setUint8 (view : list Z) (offset : nat) (v : Z) : completion (list Z) :=
  if (offset <? length view)%nat then Normal (<[offset := v mod 256]> view)
  else Throw RangeError.

Definition setUint16 (view : list Z) (offset : nat) (v : Z) : completion (list Z) :=
  if (offset + 2 <=? length view)%nat
  then Normal (<[(offset + 1)%nat := (v / 256) mod 256]> (<[offset := v mod 256]> view))
  else Throw RangeError.

(** [setUint32] and [setInt32]: both store the value modulo 2^32. *)
Definition setUint32 (view : list Z) (offset : nat) (v : Z) : completion (list Z) :=
  if (offset + 4 <=? length view)%nat
  then Normal (<[(offset + 3)%nat := (v / 16777216) mod 256]>
              (<[(offset + 2)%nat := (v / 65536) mod 256]>
              (<[(offset + 1)%nat := (v / 256) mod 256]>
              (<[offset := v mod 256]> view))))
  else Throw RangeError.
Definition setInt32 := setUint32.

(** The 14-byte file header and the 40-byte BITMAPINFOHEADER, which the
    three encoders write with their own sizes, depth and palette count. *)
Definition writeHeaders (view : list Z) (fileSize pixelDataOffset : nat)
    (width height : nat) (bitsPerPixel : Z) (pixelArraySize : nat)
    (paletteColors : Z) : completion (list Z) :=
  let* view := setUint8 view 0 0x42 in
  let* view := setUint8 view 1 0x4d in
  let* view := setUint32 view 2 (Z.of_nat fileSize) in
  let* view := setUint32 view 6 0 in
  let* view := setUint32 view 10 (Z.of_nat pixelDataOffset) in
  let* view := setUint32 view 14 40 in
  let* view := setInt32 view 18 (Z.of_nat width) in
  let* view := setInt32 view 22 (- Z.of_nat height) in
  let* view := setUint16 view 26 1 in
  let* view := setUint16 view 28 bitsPerPixel in
  let* view := setUint32 view 30 0 in
  let* view := setUint32 view 34 (Z.of_nat pixelArraySize) in
  let* view := setInt32 view 38 2835 in
  let* view := setInt32 view 42 2835 in
  let* view := setUint32 view 46 paletteColors in
  setUint32 view 50 paletteColors.

(** [view.setUint8(offset++, v)] on the pair of the view and [offset]. *)
Definition put (v : Z) (s : list Z * nat) : completion (list Z * nat) :=
  let* view := setUint8 (fst s) (snd s) v in
  Normal (view, S (snd s)).

Definition putPadding (padding : nat) (s : list Z * nat) : completion (list Z * nat) :=
  forM (seq 0 padding) (fun _ s => put 0 s) s.

Definition encodeBMP (imageData : ImageData) : completion (list Z) :=
  let width := width imageData in
  let height := height imageData in
  let data := data imageData in
  let rowSize := ((24 * width + 31) / 32 * 4)%nat in
  let pixelArraySize := (rowSize * height)%nat in
  let fileSize := (54 + pixelArraySize)%nat in
  let view := replicate fileSize 0 in
  let* view := writeHeaders view fileSize 54 width height 24 pixelArraySize 0 in
  let padding := (rowSize - width * 3)%nat in
  let* s :=
    forM (seq 0 height)
      (fun y s =>
         let* s :=
           forM (seq 0 width)
             (fun x s =>
                let i := ((y * width + x) * 4)%nat in
                let* s := put (readByte data (i + 2)) s in
                let* s := put (readByte data (i + 1)) s in
                put (readByte data i) s)
             s in
         putPadding padding s)
      (view, 54%nat) in
  Normal (fst s).

(** The index assignment shared by the 8-bit and 4-bit encoders;
    [pixelIndices] is a [Uint8Array]. *)
Definition assignIndex (data : list Z) (width : nat)
    (findClosestColor : Z -> Z -> Z -> nat) (y x : nat) (pixelIndices : list Z) : list Z :=
  let i := ((y * width + x) * 4)%nat in
  if readByte data (i + 3) <? 128 then <[(y * width + x)%nat := 0]> pixelIndices
  else
    <[(y * width + x)%nat :=
        Z.of_nat (findClosestColor (readByte data i) (readByte data (i + 1))
                    (readByte data (i + 2))) mod 256]> pixelIndices.

Definition assignIndices (data : list Z) (width height : nat)
    (findClosestColor : Z -> Z -> Z -> nat) : list Z :=
  fold_left
    (fun pixelIndices y =>
       fold_left (fun pixelIndices x => assignIndex data width findClosestColor y x pixelIndices)
         (seq 0 width) pixelIndices)
    (seq 0 height) (replicate (width * height) 0).

(** The palette table: [colorArray[i] || { r: 0, g: 0, b: 0 }]. *)
Definition putPalette (entries : nat) (colorArray : list RGB) (s : list Z * nat)
    : completion (list Z * nat) :=
  forM (seq 0 entries)
    (fun i s =>
       let color := default black (colorArray !! i) in
       let* s := put (b color) s in
       let* s := put (g color) s in
       let* s := put (r color) s in
       put 0 s)
    s.

(** The data that the 8-bit encoder assigns indices from. *)
Definition indexSource (imageData : ImageData) (colorArray : list RGB) (dither : bool)
    : completion (list Z) :=
  if dither then
    let* dithered :=
      ditherData (data imageData) (width imageData) (height imageData) colorArray
        (findClosestColor colorArray) in
    typedArraySet (data (newImageData (width imageData) (height imageData))) dithered
  else Normal (data imageData).

(** The index array of the 8-bit encoder. *)
Definition pixelIndices8Bit (imageData : ImageData) (dither : bool) : completion (list Z) :=
  let* colorArray := build8BitPalette (data imageData) in
  let* data := indexSource imageData colorArray dither in
  Normal (assignIndices data (width imageData) (height imageData) (findClosestColor colorArray)).

Definition encodeBMP8Bit (imageData : ImageData) (dither : bool) : completion (list Z) :=
  let width := width imageData in
  let height := height imageData in
  let* colorArray := build8BitPalette (data imageData) in
  let* data := indexSource imageData colorArray dither in
  let pixelIndices := assignIndices data width height (findClosestColor colorArray) in
  let paletteSize := (256 * 4)%nat in
  let rowSize := ((8 * width + 31) / 32 * 4)%nat in
  let pixelArraySize := (rowSize * height)%nat in
  let fileSize := (54 + paletteSize + pixelArraySize)%nat in
  let view := replicate fileSize 0 in
  let* view := writeHeaders view fileSize (54 + paletteSize) width height 8 pixelArraySize 256 in
  let* s := putPalette 256 colorArray (view, 54%nat) in
  let padding := (rowSize - width)%nat in
  let* s :=
    forM (seq 0 height)
      (fun y s =>
         let* s :=
           forM (seq 0 width)
             (fun x s => put (readByte pixelIndices (y * width + x)) s) s in
         putPadding padding s)
      s in
  Normal (fst s).

(** [encodeBMP4BitFromData], called with a palette and its matcher. *)
Definition encodeBMP4BitFromData (imageData : ImageData) (colorArray : list RGB)
    (findClosestColor : Z -> Z -> Z -> nat) : completion (list Z) :=
  let width := width imageData in
  let height := height imageData in
  let data := data imageData in
  let pixelIndices := assignIndices data width height findClosestColor in
  let paletteSize := (16 * 4)%nat in
  let rowSize := ((4 * width + 31) / 32 * 4)%nat in
  let pixelArraySize := (rowSize * height)%nat in
  let fileSize := (54 + paletteSize + pixelArraySize)%nat in
  let view := replicate fileSize 0 in
  let* view := writeHeaders view fileSize (54 + paletteSize) width height 4 pixelArraySize 16 in
  let* s := putPalette 16 colorArray (view, 54%nat) in
  let padding := (rowSize - (width + 1) / 2)%nat in
  let* s :=
    forM (seq 0 height)
      (fun y s =>
         let* s :=
           forM (seq 0 ((width + 1) / 2))
             (fun k s =>
                let x := (2 * k)%nat in
                let idx1 := readByte pixelIndices (y * width + x) in
                let idx2 := if (x + 1 <? width)%nat
                            then readByte pixelIndices (y * width + x + 1) else 0 in
                let packed := Z.lor (Z.shiftl idx1 4) idx2 in
                put packed s)
             s in
         putPadding padding s)
      s in
  Normal (fst s).

(** The image that the 4-bit encoder assigns indices from. *)
Definition indexSource4Bit (imageData : ImageData) (colorArray : list RGB)
    (aggressive : bool) : completion ImageData :=
  if aggressive then
    let* processedData :=
      ditherData (data imageData) (width imageData) (height imageData) colorArray
        (findClosestColor colorArray) in
    let tempImageData := newImageData (width imageData) (height imageData) in
    let* buf := typedArraySet (data tempImageData) processedData in
    Normal (mkImageData (width imageData) (height imageData) buf)
  else Normal imageData.

Definition encodeBMP4Bit (imageData : ImageData) (aggressive : bool) : completion (list Z) :=
  let* colorArray := build4BitPalette (data imageData) in
  let* source := indexSource4Bit imageData colorArray aggressive in
  encodeBMP4BitFromData source colorArray (findClosestColor colorArray).

(** The index array of the 4-bit encoder. *)
Definition pixelIndices4Bit (imageData : ImageData) (aggressive : bool)
    : completion (list Z) :=
  let* colorArray := build4BitPalette (data imageData) in
  let* source := indexSource4Bit imageData colorArray aggressive in
  Normal (assignIndices (data source) (width source) (height source)
            (findClosestColor colorArray)).

(** ** Decoding (the helpers of [spec/preview.test.js]) *)

Definition getUint8 (view : list Z) (offset : nat) : completion Z :=
  match view !! offset with
  | Some v => Normal v
  | None => Throw RangeError
  end.

(** The palette read back: [entries] colours from offset 54. *)
Definition readPalette (view : list Z) (entries : nat) : completion (list RGB) :=
  forM (seq 0 entries)
    (fun i palette =>
       let offset := (54 + i * 4)%nat in
       let* b := getUint8 view offset in
       let* g := getUint8 view (offset + 1) in
       let* r := getUint8 view (offset + 2) in
       Normal (palette ++ [mkRGB r g b]))
    [].

(** [extractBMP8BitColors]: one entry per pixel, row by row; an entry is
    [None] when the index has no palette colour. *)
Definition extractBMP8BitColors (view : list Z) (width height : nat)
    : completion (list (option RGB)) :=
  let* palette := readPalette view 256 in
  let pixelDataOffset := (54 + 256 * 4)%nat in
  let rowSize := ((8 * width + 31) / 32 * 4)%nat in
  let padding := (rowSize - width)%nat in
  let* s :=
    forM (seq 0 height)
      (fun y (s : list (option RGB) * nat) =>
         let* s :=
           forM (seq 0 width)
             (fun x (s : list (option RGB) * nat) =>
                let* index := getUint8 view (snd s) in
                Normal (fst s ++ [palette !! Z.to_nat index], S (snd s)))
             s in
         Normal (fst s, (snd s + padding)%nat))
      ([], pixelDataOffset) in
  Normal (fst s).

(** [extractBMP4BitColors]: two pixels per byte, high nibble first. *)
Definition extractBMP4BitColors (view : list Z) (width height : nat)
    : completion (list (option RGB)) :=
  let* palette := readPalette view 16 in
  let pixelDataOffset := (54 + 16 * 4)%nat in
  let rowSize := ((4 * width + 31) / 32 * 4)%nat in
  let padding := (rowSize - (width + 1) / 2)%nat in
  let* s :=
    forM (seq 0 height)
      (fun y (s : list (option RGB) * nat) =>
         let* s :=
           forM (seq 0 ((width + 1) / 2))
             (fun k (s : list (option RGB) * nat) =>
                let x := (2 * k)%nat in
                let* byte := getUint8 view (snd s) in
                let idx1 := Z.land (Z.shiftr byte 4) 15 in
                let idx2 := Z.land byte 15 in
                let pixelColors := fst s ++ [palette !! Z.to_nat idx1] in
                let pixelColors :=
                  if (x + 1 <? width)%nat
                  then pixelColors ++ [palette !! Z.to_nat idx2]
                  else pixelColors in
                Normal (pixelColors, S (snd s)))
             s in
         Normal (fst s, (snd s + padding)%nat))
      ([], pixelDataOffset) in
  Normal (fst s).

(** Following the specification's words (the source has no 24-bit decoder):
    the pixel at (x, y) of a 24-bit file is the stored B,G,R triple at
    offset [54 + y * rowSize + 3 * x]. *)
Definition decodeBMP24Pixel (view : list Z) (width : nat) (x y : nat) : option RGB :=
  let rowSize := ((24 * width + 31) / 32 * 4)%nat in
  let offset := (54 + y * rowSize + 3 * x)%nat in
  match view !! offset, view !! (offset + 1)%nat, view !! (offset + 2)%nat with
  | Some b, Some g, Some r => Some (mkRGB r g b)
  | _, _, _ => None
  end.

(** The RGB of pixel (x, y) of an image. *)
Definition pixelRGB (imageData : ImageData) (x y : nat) : RGB :=
  let i := ((y * width imageData + x) * 4)%nat in
  mkRGB (readByte (data imageData) i) (readByte (data imageData) (i + 1))
        (readByte (data imageData) (i + 2)).

Definition pixelAlpha (imageData : ImageData) (x y : nat) : Z :=
  readByte (data imageData) ((y * width imageData + x) * 4 + 3).

(** A well-formed image: positive dimensions, [4 * width * height] bytes. *)
Definition wfImage (imageData : ImageData) : Prop :=
  (0 < width imageData)%nat /\ (0 < height imageData)%nat /\
  length (data imageData) = (4 * width imageData * height imageData)%nat /\
  Forall (fun v => 0 <= v <= 255) (data imageData).

(** ** Notions used to state the properties *)

(** The boxes that the averaging loop runs over: those left by the
    splitting loop, or none when the image has no opaque pixel (the builder
    then returns before any box exists). *)
Definition boxesAfterSplitting (data : list Z) (maxColors : nat) : completion (list Box) :=
  let colors := collectColors data ∅ [] in
  if (length colors =? 0)%nat then Normal []
  else splitLoop (S maxColors) maxColors [initialBox colors].

(** The palette entries that the averaging loop appends for a box: black
    for a box without samples, nothing for a box whose average is black,
    the average otherwise. *)
Definition boxEntry (box : Box) : list RGB :=
  match colors box with
  | [] => [black]
  | _ :: _ => if bool_decide (averageColor box = black) then [] else [averageColor box]
  end.

(** [v] is the smallest (largest) value of the channel among the samples. *)
Definition isMinOf (sortBy : Axis) (v : Z) (cs : list Sample.t) : Prop :=
  (exists c, c ∈ cs /\ channel sortBy c = v) /\ (forall c, c ∈ cs -> v <= channel sortBy c).
Definition isMaxOf (sortBy : Axis) (v : Z) (cs : list Sample.t) : Prop :=
  (exists c, c ∈ cs /\ channel sortBy c = v) /\ (forall c, c ∈ cs -> channel sortBy c <= v).

(** The bounds of [child] agree with those of [parent] on the axes other
    than [sortBy]. *)
Definition inheritsOtherAxes (sortBy : Axis) (parent child : Box) : Prop :=
  forall a, a <> sortBy -> boxMin a child = boxMin a parent /\ boxMax a child = boxMax a parent.

(** The order that [sortColors] sorts by. *)
Definition channelLe (sortBy : Axis) (x y : Sample.t) : Prop :=
  channel sortBy x <= channel sortBy y.

(** A sample with byte channels that has been counted at least once. *)
Definition sampleOk (c : Sample.t) : Prop :=
  0 <= Sample.r c <= 255 /\ 0 <= Sample.g c <= 255 /\ 0 <= Sample.b c <= 255 /\
  1 <= Sample.count c.

Definition rgbOk (c : RGB) : Prop :=
  0 <= r c <= 255 /\ 0 <= g c <= 255 /\ 0 <= b c <= 255.

Definition boxOk (box : Box) : Prop := Forall sampleOk (colors box).

(** The reading of "recomputed from its own samples' extremes, both its
    minimum and its maximum" for a child of [parent] split on [sortBy]. *)
Definition recomputedFromOwnSamples (sortBy : Axis) (parent child : Box) : Prop :=
  inheritsOtherAxes sortBy parent child /\
  (colors child <> [] ->
     isMinOf sortBy (boxMin sortBy child) (colors child) /\
     isMaxOf sortBy (boxMax sortBy child) (colors child)) /\
  (colors child = [] ->
     boxMin sortBy child = boxMin sortBy parent /\
     boxMax sortBy child = boxMax sortBy parent).

(** Byte [j] of a pixel buffer is frozen when it is an alpha byte or
    belongs to a pixel whose alpha is below 128. *)
Definition frozen (buf0 : list Z) (j : nat) : Prop :=
  (j mod 4 = 3)%nat \/ readByte buf0 (4 * (j / 4) + 3) < 128.

(** [buf] has the length of [buf0] and agrees with it on the frozen bytes. *)
Definition preserved (buf0 buf : list Z) : Prop :=
  length buf = length buf0 /\ forall j, frozen buf0 j -> buf !! j = buf0 !! j.

(** The store [σ] differs from [σ0] at most in the array [d], and there
    only in bytes that are not frozen. *)
Definition frame (σ0 : store) (d : ref) (σ : store) : Prop :=
  length σ = length σ0 /\
  (forall l, l <> d -> σ !! l = σ0 !! l) /\
  preserved (deref σ0 d) (deref σ d).

(** The index that the encoders assign to the pixel number [q] of [data]. *)
Definition indexOf (data : list Z) (findClosestColor : Z -> Z -> Z -> nat) (q : nat) : Z :=
  let i := (q * 4)%nat in
  if readByte data (i + 3) <? 128 then 0
  else Z.of_nat (findClosestColor (readByte data i) (readByte data (i + 1))
                   (readByte data (i + 2))) mod 256.

(** A writer emits [bytes] when, run at [offset] on a view with enough room,
    it stores exactly [bytes] there and advances the offset past them. *)
Definition emits (w : list Z * nat -> completion (list Z * nat)) (bytes : list Z) : Prop :=
  forall view offset,
    (offset + length bytes <= length view)%nat ->
    w (view, offset) =
      Normal (take offset view ++ bytes ++ drop (offset + length bytes) view,
              (offset + length bytes)%nat).

(** The bytes that the encoders emit after the headers. *)
Definition pixelBytes24 (imageData : ImageData) : list Z :=
  let width := width imageData in
  let rowSize := ((24 * width + 31) / 32 * 4)%nat in
  flat_map
    (fun y =>
       flat_map
         (fun x =>
            let i := ((y * width + x) * 4)%nat in
            [readByte (data imageData) (i + 2) mod 256;
             readByte (data imageData) (i + 1) mod 256;
             readByte (data imageData) i mod 256])
         (seq 0 width)
       ++ replicate (rowSize - width * 3) 0)
    (seq 0 (height imageData)).

Definition paletteBytes (entries : nat) (colorArray : list RGB) : list Z :=
  flat_map
    (fun i =>
       let color := default black (colorArray !! i) in
       [b color mod 256; g color mod 256; r color mod 256; 0])
    (seq 0 entries).

Definition indexBytes8 (pixelIndices : list Z) (width height : nat) : list Z :=
  let rowSize := ((8 * width + 31) / 32 * 4)%nat in
  flat_map
    (fun y =>
       flat_map (fun x => [readByte pixelIndices (y * width + x) mod 256]) (seq 0 width)
       ++ replicate (rowSize - width) 0)
    (seq 0 height).

Definition packedByte (pixelIndices : list Z) (width : nat) (y k : nat) : Z :=
  let x := (2 * k)%nat in
  let idx1 := readByte pixelIndices (y * width + x) in
  let idx2 := if (x + 1 <? width)%nat then readByte pixelIndices (y * width + x + 1) else 0 in
  Z.lor (Z.shiftl idx1 4) idx2.

Definition indexBytes4 (pixelIndices : list Z) (width height : nat) : list Z :=
  let rowSize := ((4 * width + 31) / 32 * 4)%nat in
  flat_map
    (fun y =>
       flat_map (fun k => [packedByte pixelIndices width y k mod 256]) (seq 0 ((width + 1) / 2))
       ++ replicate (rowSize - (width + 1) / 2) 0)
    (seq 0 height).

(** The colour that the requantiser gives to pixel number [q]. *)
Definition quantizedRGB (data : list Z) (colorArray : list RGB)
    (findClosestColor : Z -> Z -> Z -> nat) (q : nat) : RGB :=
  let i := (q * 4)%nat in
  if readByte data (i + 3) <? 128 then black
  else default black
         (colorArray !! findClosestColor (readByte data i) (readByte data (i + 1))
                          (readByte data (i + 2))).

(** The palette entry that a decoder finds for pixel number [q]. *)
Definition decodedEntry (data : list Z) (colorArray : list RGB)
    (findClosestColor : Z -> Z -> Z -> nat) (q : nat) : option RGB :=
  colorArray !! Z.to_nat (indexOf data findClosestColor q).

(** ** Sample inputs *)

(** The uniform grey image of the specification's scenario. *)
Definition gray2x2 : ImageData :=
  mkImageData 2 2 [128;128;128;255; 128;128;128;255; 128;128;128;255; 128;128;128;255].

(** One black pixel and three pixels (1,0,0), all opaque. *)
Definition nearBlack2x2 : ImageData :=
  mkImageData 2 2 [0;0;0;255; 1;0;0;255; 1;0;0;255; 1;0;0;255].

Definition transparent1x1 : ImageData := mkImageData 1 1 [0;0;0;0].

(** An image of odd width with a transparent pixel at (2, 0). *)
Definition mixed3x2 : ImageData :=
  mkImageData 3 2
    [10;20;30;255;  200;100;50;255;  20;0;0;100;
     20;0;70;255;   1;2;3;255;       250;250;250;200].

(** The initial box of two samples that differ in red only. *)
Definition twoReds : Box :=
  initialBox [Sample.mk 10 0 0 1; Sample.mk 20 0 0 1].

Definition twoEntryPalette : list RGB := [black; mkRGB 200 100 50].

(** Two pixels in a row, the first one transparent. *)
Definition halfTransparent2x1 : list Z := [10; 20; 30; 0; 180; 90; 60; 255].

(** ** Further notions on binary64 values *)

Module Float64Class.

(** The exponent below which binary64 has no finite value. *)
Definition emin : Z := SpecFloat.emin Float64.prec Float64.emax.

(** Strictly above zero: a finite non-zero value or +infinity. *)
Definition aboveZero (x : spec_float) : Prop :=
  match x with
  | S754_finite false _ _ | S754_infinity false => True
  | _ => False
  end.

(** Not a NaN, and a finite value has its exponent in the format's range
    from below. *)
Definition regular (x : spec_float) : Prop :=
  match x with
  | S754_nan => False
  | S754_finite _ _ e => emin <= e
  | _ => True
  end.

(** The decidable form of [aboveZero /\ regular]. *)
Definition aboveZerob (x : spec_float) : bool :=
  match x with
  | S754_finite false _ e => emin <=? e
  | S754_infinity false => true
  | _ => false
  end.

End Float64Class.

(** One summand of [perceptualDistance]: [weight * d * d]. *)
Definition weightedSquare (weight : spec_float) (d : Z) : spec_float :=
  Float64.mul (Float64.mul weight (Float64.of_Z d)) (Float64.of_Z d).

(** ** Reading a BMP header (the helper of [spec/encoder.test.js]) *)

(** [DataView] reads, little-endian; a read outside the buffer throws. *)
Definition getUint16 (view : list Z) (offset : nat) : completion Z :=
  let* b0 := getUint8 view offset in
  let* b1 := getUint8 view (offset + 1) in
  Normal (b0 + 256 * b1).

Definition getUint32 (view : list Z) (offset : nat) : completion Z :=
  let* b0 := getUint8 view offset in
  let* b1 := getUint8 view (offset + 1) in
  let* b2 := getUint8 view (offset + 2) in
  let* b3 := getUint8 view (offset + 3) in
  Normal (b0 + 256 * b1 + 65536 * b2 + 16777216 * b3).

Definition getInt32 (view : list Z) (offset : nat) : completion Z :=
  let* u := getUint32 view offset in
  Normal (if u <? 2147483648 then u else u - 4294967296).

(** The object that [readBMPHeader] returns; [signature] holds the char
    codes of the two-character string. *)
Module BMPHeader.
Record t := mk {
  signature : list Z;
  fileSize : Z;
  pixelDataOffset : Z;
  dibHeaderSize : Z;
  width : Z;
  height : Z;
  planes : Z;
  bitsPerPixel : Z;
  compression : Z;
  imageSize : Z;
  colorsInPalette : Z
}.
End BMPHeader.

Definition readBMPHeader (view : list Z) : completion BMPHeader.t :=
  let* s0 := getUint8 view 0 in
  let* s1 := getUint8 view 1 in
  let* fileSize := getUint32 view 2 in
  let* pixelDataOffset := getUint32 view 10 in
  let* dibHeaderSize := getUint32 view 14 in
  let* width := getInt32 view 18 in
  let* height := getInt32 view 22 in
  let* planes := getUint16 view 26 in
  let* bitsPerPixel := getUint16 view 28 in
  let* compression := getUint32 view 30 in
  let* imageSize := getUint32 view 34 in
  let* colorsInPalette := getUint32 view 46 in
  Normal (BMPHeader.mk [s0; s1] fileSize pixelDataOffset dibHeaderSize width height
            planes bitsPerPixel compression imageSize colorsInPalette).

(** ** The bytes of the two headers *)

Definition le16 (v : Z) : list Z := [v mod 256; (v / 256) mod 256].

Definition le32 (v : Z) : list Z :=
  [v mod 256; (v / 256) mod 256; (v / 65536) mod 256; (v / 16777216) mod 256].

(** The 54 bytes that [writeHeaders] stores. *)
Definition headerBytes (fileSize pixelDataOffset width height : nat) (bitsPerPixel : Z)
    (pixelArraySize : nat) (paletteColors : Z) : list Z :=
  [0x42 mod 256; 0x4d mod 256]
  ++ le32 (Z.of_nat fileSize) ++ le32 0 ++ le32 (Z.of_nat pixelDataOffset)
  ++ le32 40 ++ le32 (Z.of_nat width) ++ le32 (- Z.of_nat height)
  ++ le16 1 ++ le16 bitsPerPixel ++ le32 0 ++ le32 (Z.of_nat pixelArraySize)
  ++ le32 2835 ++ le32 2835 ++ le32 paletteColors ++ le32 paletteColors.

(** The row sizes of the three encoders, in bytes. *)
Definition rowSizeOf (bitsPerPixel width : nat) : nat :=
  ((bitsPerPixel * width + 31) / 32 * 4)%nat.

(** ** The pixels that the palette builder samples *)

(** The colours of the pixels that the collection loop does not skip
    (alpha at least 128), in buffer order. *)
Fixpoint opaquePixels (data : list Z) : list RGB :=
  match data with
  | r :: g :: b :: a :: rest =>
      if a <? 128 then opaquePixels rest else mkRGB r g b :: opaquePixels rest
  | _ => []
  end.

(** The collection loop seen from the colours it samples. *)
Fixpoint collectFrom (pixels : list RGB) (colorMap : gmap Z nat)
    (colors : list Sample.t) : list Sample.t :=
  match pixels with
  | [] => colors
  | c :: rest =>
      let key := colorKey (r c) (g c) (b c) in
      let '(colorMap, colors) :=
        match colorMap !! key with
        | Some _ => (colorMap, colors)
        | None => (<[key := length colors]> colorMap,
                   colors ++ [Sample.mk (r c) (g c) (b c) 0])
        end in
      let colors :=
        match colorMap !! key with
        | Some idx => alter incrCount idx colors
        | None => colors
        end in
      collectFrom rest colorMap colors
  end.

Definition sampleRGB (s : Sample.t) : RGB :=
  mkRGB (Sample.r s) (Sample.g s) (Sample.b s).

(** How many times [c] occurs in [l]. *)
Definition occurrences (c : RGB) (l : list RGB) : nat :=
  length (filter (fun x => x = c) l).

(** The components of a key of [colorMap]. *)
Definition keyRGB (key : Z) : RGB :=
  mkRGB (Z.shiftr key 16) (Z.land (Z.shiftr key 8) 255) (Z.land key 255).

(** The state of the collection loop once the colours [seen] have been
    sampled: the map sends the key of every sample to its position, and
    every sample counts the occurrences of its colour. *)
Definition collected (seen : list RGB) (colorMap : gmap Z nat)
    (colors : list Sample.t) : Prop :=
  (forall i s, colors !! i = Some s ->
     colorMap !! colorKey (Sample.r s) (Sample.g s) (Sample.b s) = Some i) /\
  (forall key i, colorMap !! key = Some i ->
     exists s, colors !! i = Some s /\
               colorKey (Sample.r s) (Sample.g s) (Sample.b s) = key) /\
  (forall i s, colors !! i = Some s ->
     rgbOk (sampleRGB s) /\ sampleRGB s ∈ seen /\
     Sample.count s = Z.of_nat (occurrences (sampleRGB s) seen)) /\
  (forall c, c ∈ seen -> exists s, s ∈ colors /\ sampleRGB s = c).

(** ** Notions on boxes *)

(** The bounds of a box enclose its samples on every axis. *)
Definition encloses (box : Box) : Prop :=
  forall s, s ∈ colors box ->
    forall axis, boxMin axis box <= channel axis s <= boxMax axis box.

(** ** Notions on the dithered array *)

(** The four calls of [distributeError] that follow the update of pixel
    (x, y), with the Floyd-Steinberg weights 7/16, 3/16, 5/16 and 1/16. *)
Definition diffuse (ditheredData : ref) (width height : nat) (errR errG errB : Z)
    (y x : nat) (σ : store) : store :=
  let xz := Z.of_nat x in
  let yz := Z.of_nat y in
  let σ := distributeError ditheredData width height errR errG errB (xz + 1) yz 7 σ in
  let σ := distributeError ditheredData width height errR errG errB (xz - 1) (yz + 1) 3 σ in
  let σ := distributeError ditheredData width height errR errG errB xz (yz + 1) 5 σ in
  distributeError ditheredData width height errR errG errB (xz + 1) (yz + 1) 1 σ.

(** The colour of the pixel number [p] of a buffer. *)
Definition pixelAt (buf : list Z) (p : nat) : RGB :=
  mkRGB (readByte buf (4 * p)) (readByte buf (4 * p + 1)) (readByte buf (4 * p + 2)).

(** Every opaque pixel among the first [n] of the array [d] has a colour
    that satisfies [P]. *)
Definition settled (P : RGB -> Prop) (σ : store) (d : ref) (n : nat) : Prop :=
  forall p, (p < n)%nat -> 128 <= rd σ d (4 * p + 3) -> P (pixelAt (deref σ d) p).


(** ** The fixed-level disperser *)

(** [Math.round] on a finite double [m * 2^e]: the nearest integer, a half
    going upwards, that is the floor of the value plus one half.  On NaN and
    the infinities [Math.round] returns its argument; a byte divided by 255
    and multiplied by 3 is finite, and on the other values the model
    gives 0. *)
Definition mathRound (x : spec_float) : Z :=
  match x with
  | S754_finite s m e =>
      let n := if s then Z.neg m else Z.pos m in
      if 0 <=? e then n * 2 ^ e
      else (2 * n + 2 ^ (- e)) / 2 ^ (1 - e)
  | _ => 0
  end.

(** [const quantize = (val) => Math.round((val / 255) * 3) * 85] *)
Definition quantize (val : Z) : Z :=
  mathRound (Float64.mul (Float64.div (Float64.of_Z val) (Float64.of_Z 255))
                         (Float64.of_Z 3)) * 85.

Section Dithering4Bit.
Variable ditheredData : ref.
Variables width height : nat.

(** The body of the pixel loop of [applyDithering4Bit]; its
    [distributeError] is the one of the Floyd-Steinberg disperser. *)
Definition ditherPixel4Bit (y x : nat) (σ : store) : completion store :=
  let i := ((y * width + x) * 4)%nat in
  if rd σ ditheredData (i + 3) <? 128 then Normal σ
  else
    let oldR := rd σ ditheredData i in
    let oldG := rd σ ditheredData (i + 1) in
    let oldB := rd σ ditheredData (i + 2) in
    let newR := Z.max 0 (Z.min 255 (quantize oldR)) in
    let newG := Z.max 0 (Z.min 255 (quantize oldG)) in
    let newB := Z.max 0 (Z.min 255 (quantize oldB)) in
    let σ := wr σ ditheredData i (toUint8Clamp newR) in
    let σ := wr σ ditheredData (i + 1) (toUint8Clamp newG) in
    let σ := wr σ ditheredData (i + 2) (toUint8Clamp newB) in
    let errR := oldR - newR in
    let errG := oldG - newG in
    let errB := oldB - newB in
    let xz := Z.of_nat x in
    let yz := Z.of_nat y in
    let σ := distributeError ditheredData width height errR errG errB (xz + 1) yz 7 σ in
    let σ := distributeError ditheredData width height errR errG errB (xz - 1) (yz + 1) 3 σ in
    let σ := distributeError ditheredData width height errR errG errB xz (yz + 1) 5 σ in
    let σ := distributeError ditheredData width height errR errG errB (xz + 1) (yz + 1) 1 σ in
    Normal σ.

Definition dither4BitLoop (σ : store) : completion store :=
  forM (seq 0 height) (fun y σ => forM (seq 0 width) (fun x σ => ditherPixel4Bit y x σ) σ) σ.

End Dithering4Bit.

(** [applyDithering4Bit]: [data] is a reference into the store; the result
    is the reference of the array allocated by [new Uint8ClampedArray(data)]. *)
Definition applyDithering4Bit (σ : store) (data : ref) (width height : nat)
    : completion (store * ref) :=
  let '(σ, ditheredData) := alloc σ (deref σ data) in
  let* σ := dither4BitLoop ditheredData width height σ in
  Normal (σ, ditheredData).

(** The four levels of a channel after [quantize], and the 64 colours that
    they make, ordered by the level numbers of red, green and blue. *)
Definition levels : list Z := [0; 85; 170; 255].

Definition levelCube : list RGB :=
  flat_map (fun lr => flat_map (fun lg => map (fun lb => mkRGB lr lg lb) levels) levels) levels.

Definition levelOf (val : Z) : Z := Z.max 0 (Z.min 255 (quantize val)).

Definition cubeIndex (r0 g0 b0 : Z) : nat :=
  Z.to_nat (16 * (levelOf r0 / 85) + 4 * (levelOf g0 / 85) + levelOf b0 / 85).

(** ** The image helpers of the tests *)

(** The object that a pixel generator returns, and the entries that
    [extractImageDataColors] pushes: a field is [None] when it is absent. *)
Module Pixel.
Record t := mk { r : option Z; g : option Z; b : option Z; a : option Z }.
End Pixel.

(** [createTestImageData(width, height, pixelGenerator)], for a generator
    without effects that returns integers. *)
Definition createTestImageData (width height : nat) (pixelGenerator : nat -> nat -> Pixel.t)
    : ImageData :=
  let data := replicate (width * height * 4) 0 in
  let data :=
    fold_left
      (fun data y =>
         fold_left
           (fun data x =>
              let i := ((y * width + x) * 4)%nat in
              let pixel := pixelGenerator x y in
              let data := setClamped i (default 0 (Pixel.r pixel)) data in
              let data := setClamped (i + 1) (default 0 (Pixel.g pixel)) data in
              let data := setClamped (i + 2) (default 0 (Pixel.b pixel)) data in
              setClamped (i + 3) (default 255 (Pixel.a pixel)) data)
           (seq 0 width) data)
      (seq 0 height) data in
  mkImageData width height data.

(** [extractImageDataColors(imageData)]: one entry for every fourth index
    below the length of the buffer. *)
Definition extractImageDataColors (imageData : ImageData) : list Pixel.t :=
  let data := data imageData in
  map (fun k => let i := (4 * k)%nat in
                Pixel.mk (data !! i) (data !! (i + 1)%nat) (data !! (i + 2)%nat)
                         (data !! (i + 3)%nat))
      (seq 0 ((length data + 3) / 4)).

(** * Properties *)

(** ** Binary64 facts *)

Example lit_0_3_ok :
  Float64.div (Float64.of_Z 3) (Float64.of_Z 10) = Float64.lit_0_3
  /\ Float64.div (Float64.of_Z 59) (Float64.of_Z 100) = Float64.lit_0_59
  /\ Float64.div (Float64.of_Z 11) (Float64.of_Z 100) = Float64.lit_0_11.
Proof. repeat split; vm_compute; reflexivity. Qed.

Module Float64Facts.
Import Float64.

Lemma signed_false_nonneg x : signed false x -> nonneg x.
Proof. destruct x; simpl; auto. Qed.

Lemma shr_1_nonneg mrs : 0 <= shr_m mrs -> 0 <= shr_m (shr_1 mrs).
Proof. destruct mrs as [[|[p|p|]|p] rb sb]; simpl; lia. Qed.

Lemma iter_shr_1_nonneg p : forall mrs, 0 <= shr_m mrs -> 0 <= shr_m (SpecFloat.iter_pos shr_1 p mrs).
Proof.
  induction p as [p IH|p IH|]; intros mrs H; simpl.
  - apply IH, IH, shr_1_nonneg, H.
  - apply IH, IH, H.
  - apply shr_1_nonneg, H.
Qed.

Lemma shr_fexp_nonneg m e l :
  0 <= m -> 0 <= shr_m (fst (shr_fexp prec emax m e l)).
Proof.
  intros H. unfold shr_fexp, shr.
  assert (H0 : 0 <= shr_m (shr_record_of_loc m l)) by (destruct l as [|[]]; exact H).
  destruct (fexp prec emax (Zdigits2 m + e) - e); simpl; auto using iter_shr_1_nonneg.
Qed.

Lemma round_nearest_even_nonneg m l : 0 <= m -> 0 <= round_nearest_even m l.
Proof. intros H. destruct l as [|[]]; simpl; try destruct (Z.even m); lia. Qed.

(** Rounding a non-negative mantissa never produces a NaN and keeps the
    sign it is given. *)
Lemma binary_round_aux_signed s m e l :
  0 <= m -> signed s (binary_round_aux prec emax s m e l).
Proof.
  intros H. unfold binary_round_aux.
  pose proof (shr_fexp_nonneg m e l H) as H1.
  destruct (shr_fexp prec emax m e l) as [mrs' e']. simpl in H1.
  pose proof (shr_fexp_nonneg _ e' loc_Exact
                (round_nearest_even_nonneg _ (loc_of_shr_record mrs') H1)) as H2.
  destruct (shr_fexp prec emax _ e' loc_Exact) as [mrs'' e'']. simpl in H2.
  destruct (shr_m mrs'') as [|q|q]; simpl; [reflexivity| |lia].
  destruct (e'' <=? emax - prec); reflexivity.
Qed.

Lemma binary_round_signed s m e : signed s (binary_round prec emax s m e).
Proof.
  unfold binary_round.
  destruct (shl_align m e _) as [mz ez]. apply binary_round_aux_signed. lia.
Qed.

Lemma of_Z_signed z : signed (z <? 0) (of_Z z).
Proof.
  unfold of_Z, binary_normalize. destruct z; [reflexivity| |]; apply binary_round_signed.
Qed.

Lemma mul_signed x y sx sy :
  signed sx x -> signed sy y ->
  (forall s, x = S754_infinity s -> forall s', y <> S754_zero s') ->
  (forall s, y = S754_infinity s -> forall s', x <> S754_zero s') ->
  signed (xorb sx sy) (mul x y).
Proof.
  intros Hx Hy H1 H2. unfold mul.
  destruct x as [s1|s1| |s1 m1 e1], y as [s2|s2| |s2 m2 e2]; simpl in *;
    subst; try reflexivity; try contradiction.
  - exfalso. eapply H2; reflexivity.
  - exfalso. eapply H1; reflexivity.
  - apply binary_round_aux_signed. lia.
Qed.

(** [c * d * d] for a positive constant [c] and an integer [d]. *)
Lemma weighted_square_nonneg mc ec z :
  nonneg (mul (mul (S754_finite false mc ec) (of_Z z)) (of_Z z)).
Proof.
  pose proof (of_Z_signed z) as Hz.
  set (s := z <? 0) in *. clearbody s.
  assert (H1 : signed (xorb false s) (mul (S754_finite false mc ec) (of_Z z))).
  { apply mul_signed; [reflexivity|exact Hz|discriminate|discriminate]. }
  assert (H2 : signed (xorb (xorb false s) s) (mul (mul (S754_finite false mc ec) (of_Z z)) (of_Z z))).
  { apply mul_signed; [exact H1|exact Hz| |].
    - intros s1 E s2 E2. rewrite E2 in E. discriminate E.
    - intros s1 E s2 E2. rewrite E in E2. discriminate E2. }
  replace (xorb (xorb false s) s) with false in H2 by (destruct s; reflexivity).
  apply signed_false_nonneg, H2.
Qed.

Lemma add_nonneg x y : nonneg x -> nonneg y -> nonneg (add x y).
Proof.
  intros Hx Hy. unfold add.
  destruct x as [s1|s1| |s1 m1 e1], y as [s2|s2| |s2 m2 e2]; simpl in *;
    subst; try exact I; try reflexivity; try contradiction.
  - destruct s1, s2; exact I.
  - apply signed_false_nonneg, binary_round_signed.
Qed.

Lemma sqrtrem_fst_nonneg n : 0 <= fst (Z.sqrtrem n).
Proof.
  destruct n as [|p|p]; simpl; try lia.
  destruct (Pos.sqrtrem p) as [q [|rr|]]; simpl; lia.
Qed.

Lemma sqrt_nonneg x : nonneg x -> nonneg (sqrt x).
Proof.
  intros Hx. unfold sqrt.
  destruct x as [s1|s1| |s1 m1 e1]; simpl in *; subst; try exact I; try reflexivity;
    try contradiction.
  unfold SFsqrt_core_binary.
  match goal with |- context [Z.sqrtrem ?n] =>
    pose proof (sqrtrem_fst_nonneg n) as Hq; destruct (Z.sqrtrem n) as [q rr] end.
  simpl in Hq.
  apply signed_false_nonneg, binary_round_aux_signed, Hq.
Qed.

(** *** The comparison on non-negative values *)

Lemma ltb_lex x y :
  nonneg x -> nonneg y -> (ltb x y = true <-> lex_lt (ord x) (ord y)).
Proof.
  intros Hx Hy. unfold ltb, SFltb.
  destruct x as [s1|s1| |s1 m1 e1], y as [s2|s2| |s2 m2 e2]; simpl in *;
    subst; try contradiction; try (split; [discriminate|lia]); try (split; [lia|reflexivity]).
  change (PosDef.Pos.compare_cont Eq m1 m2) with (m1 ?= m2)%positive.
  destruct (Z.compare_spec e1 e2); try (split; [discriminate|lia]);
    try (split; [lia|reflexivity]).
  destruct (Pos.compare_spec m1 m2); split; (discriminate || lia || reflexivity).
Qed.

Lemma leb_lex x y :
  nonneg x -> nonneg y -> (leb x y = true <-> ~ lex_lt (ord y) (ord x)).
Proof.
  intros Hx Hy. unfold leb, SFleb.
  destruct x as [s1|s1| |s1 m1 e1], y as [s2|s2| |s2 m2 e2]; simpl in *;
    subst; try contradiction; try (split; [discriminate|lia]); try (split; [lia|reflexivity]).
  change (PosDef.Pos.compare_cont Eq m1 m2) with (m1 ?= m2)%positive.
  destruct (Z.compare_spec e1 e2); try (split; [discriminate|lia]);
    try (split; [lia|reflexivity]).
  destruct (Pos.compare_spec m1 m2); split; (discriminate || lia || reflexivity).
Qed.

Lemma ltb_false_leb x y : nonneg x -> nonneg y -> ltb x y = false -> leb y x = true.
Proof.
  intros Hx Hy H. apply leb_lex; auto. intros L.
  apply ltb_lex in L; auto. congruence.
Qed.

Lemma ltb_trans x y z :
  nonneg x -> nonneg y -> nonneg z ->
  ltb x y = true -> ltb y z = true -> ltb x z = true.
Proof.
  intros Hx Hy Hz. rewrite !ltb_lex by assumption.
  destruct (ord x) as [[? ?] ?], (ord y) as [[? ?] ?], (ord z) as [[? ?] ?]; simpl; lia.
Qed.

Lemma ltb_leb_trans x y z :
  nonneg x -> nonneg y -> nonneg z ->
  ltb x y = true -> leb y z = true -> ltb x z = true.
Proof.
  intros Hx Hy Hz. rewrite !ltb_lex, leb_lex by assumption.
  destruct (ord x) as [[? ?] ?], (ord y) as [[? ?] ?], (ord z) as [[? ?] ?]; simpl; lia.
Qed.

Lemma leb_trans x y z :
  nonneg x -> nonneg y -> nonneg z ->
  leb x y = true -> leb y z = true -> leb x z = true.
Proof.
  intros Hx Hy Hz. rewrite !leb_lex by assumption.
  destruct (ord x) as [[? ?] ?], (ord y) as [[? ?] ?], (ord z) as [[? ?] ?]; simpl; lia.
Qed.

Lemma ltb_leb x y : nonneg x -> nonneg y -> ltb x y = true -> leb x y = true.
Proof.
  intros Hx Hy. rewrite ltb_lex, leb_lex by assumption.
  destruct (ord x) as [[? ?] ?], (ord y) as [[? ?] ?]; simpl; lia.
Qed.

Lemma leb_refl x : nonneg x -> leb x x = true.
Proof.
  intros Hx. rewrite leb_lex by assumption.
  destruct (ord x) as [[? ?] ?]; simpl; lia.
Qed.

Lemma leb_infinity x : nonneg x -> leb x infinity = true.
Proof.
  intros Hx. rewrite leb_lex by (auto; reflexivity).
  destruct x; simpl in *; try contradiction; lia.
Qed.


End Float64Facts.

(** The distance is never a NaN and never negative, whatever the integers. *)
Lemma perceptualDistance_nonneg r1 g1 b1 r2 g2 b2 :
  Float64.nonneg (perceptualDistance r1 g1 b1 r2 g2 b2).
Proof.
  unfold perceptualDistance.
  apply Float64Facts.sqrt_nonneg.
  repeat apply Float64Facts.add_nonneg; apply Float64Facts.weighted_square_nonneg.
Qed.

(** ** The nearest-colour matcher *)

Section Matcher.
Import Float64 Float64Facts.
Variables r0 g0 b0 : Z.

Local Abbreviation dist c := (perceptualDistance r0 g0 b0 (r c) (g c) (b c)).

Local Lemma dist_nonneg c : nonneg (dist c).
Proof. apply perceptualDistance_nonneg. Qed.

Lemma scanned_init : scanned r0 g0 b0 [] infinity 0.
Proof.
  unfold scanned; cbv zeta.
  repeat split; try reflexivity.
  - intros j cj H. rewrite lookup_nil in H. discriminate.
  - intros j cj Hj. lia.
  - left. auto.
Qed.

Lemma scanned_step pre c minDist bestIndex :
  scanned r0 g0 b0 pre minDist bestIndex ->
  if ltb (dist c) minDist
  then scanned r0 g0 b0 (pre ++ [c]) (dist c) (length pre)
  else scanned r0 g0 b0 (pre ++ [c]) minDist bestIndex.
Proof.
  unfold scanned; cbv zeta.
  intros (Hn & Hmin & Hfirst & Hbest).
  pose proof (dist_nonneg c) as Hc.
  destruct (ltb (dist c) minDist) eqn:E.
  - split; [exact Hc|]. split; [|split].
    + intros j cj Hj. apply lookup_app_Some in Hj as [Hj|[Hlen Hj]].
      * apply ltb_leb; auto using dist_nonneg.
        apply (ltb_leb_trans _ minDist); eauto using dist_nonneg.
      * apply list_lookup_singleton_Some in Hj as [_ <-]. apply leb_refl, Hc.
    + intros j cj Hlt Hj. rewrite lookup_app_l in Hj by exact Hlt.
      apply (ltb_leb_trans _ minDist); eauto using dist_nonneg.
    + right. exists c. split; [|apply leb_refl, Hc].
      rewrite lookup_app_r by lia. rewrite Nat.sub_diag. reflexivity.
  - apply ltb_false_leb in E; auto.
    split; [exact Hn|]. split; [|split].
    + intros j cj Hj. apply lookup_app_Some in Hj as [Hj|[Hlen Hj]]; [eauto|].
      apply list_lookup_singleton_Some in Hj as [_ <-]. exact E.
    + intros j cj Hlt Hj. apply lookup_app_Some in Hj as [Hj|[Hlen Hj]]; [eauto|].
      destruct Hbest as [(-> & -> & _)|(cb & Hcb & _)]; [lia|].
      apply lookup_lt_Some in Hcb. lia.
    + right. destruct Hbest as [(-> & -> & ->)|(cb & Hcb & Hle)].
      * exists c. split; [reflexivity|apply leb_infinity, Hc].
      * exists cb. split; [|exact Hle]. apply lookup_app_l_Some, Hcb.
Qed.

Lemma closestFrom_scanned rest : forall pre minDist bestIndex,
  scanned r0 g0 b0 pre minDist bestIndex ->
  exists m, scanned r0 g0 b0 (pre ++ rest) m
              (closestFrom r0 g0 b0 rest (length pre) minDist bestIndex).
Proof.
  induction rest as [|c rest IH]; intros pre minDist bestIndex H; simpl.
  - exists minDist. rewrite app_nil_r. exact H.
  - pose proof (scanned_step pre c minDist bestIndex H) as Hs.
    replace (S (length pre)) with (length (pre ++ [c]))
      by (rewrite length_app; simpl; lia).
    replace (pre ++ c :: rest) with ((pre ++ [c]) ++ rest)
      by (rewrite <- app_assoc; reflexivity).
    destruct (ltb (dist c) minDist); apply IH, Hs.
Qed.

(** The matcher returns an index of the palette. *)
Lemma findClosestColor_valid (colorArray : list RGB) :
  colorArray <> [] -> is_Some (colorArray !! findClosestColor colorArray r0 g0 b0).
Proof.
  intros Hne. unfold findClosestColor.
  destruct (closestFrom_scanned colorArray [] infinity 0%nat scanned_init)
    as (m & _ & _ & _ & Hbest).
  change ([] ++ colorArray) with colorArray in *. cbv zeta in *.
  destruct Hbest as [(E & _)|(c & Hc & _)]; [congruence|]. exists c. exact Hc.
Qed.


End Matcher.

(** Why the distance is modelled in binary64 and not as an exact number:
    the scan compares the computed doubles.  The entries (0,0,17) and
    (2,5,12) are at the same exact weighted distance from (0,0,0), but
    their doubles are 0x1.68d9497643820p+2 and 0x1.68d949764381fp+2, so
    the scan finds the second one strictly closer. *)
Remark exact_tie_split_by_rounding :
  exactWeight100 0 0 0 0 0 17 = exactWeight100 0 0 0 2 5 12 /\
  Float64.ltb (perceptualDistance 0 0 0 2 5 12) (perceptualDistance 0 0 0 0 0 17) = true /\
  findClosestColor [mkRGB 0 0 17; mkRGB 2 5 12] 0 0 0 = 1%nat.
Proof. repeat split; vm_compute; reflexivity. Qed.



(** ** Loops *)

Lemma cbind_assoc {A B C} (c : completion A) (k1 : A -> completion B)
    (k2 : B -> completion C) :
  cbind (cbind c k1) k2 = cbind c (fun x => cbind (k1 x) k2).
Proof. destruct c; reflexivity. Qed.

Lemma Normal_inj {A} (a a' : A) : Normal a = Normal a' -> a = a'.
Proof. congruence. Qed.

Lemma forM_seq_inv {S} (P : nat -> S -> Prop) (n : nat) (body : nat -> S -> completion S) :
  (forall i s, (i < n)%nat -> P i s -> exists s', body i s = Normal s' /\ P (Datatypes.S i) s') ->
  forall s0, P 0%nat s0 -> exists s', forM (seq 0 n) body s0 = Normal s' /\ P n s'.
Proof.
  intros Hstep.
  assert (H : forall k m s, (m + k = n)%nat -> P m s ->
            exists s', forM (seq m k) body s = Normal s' /\ P n s').
  { induction k as [|k IH]; intros m s Hm HP; simpl.
    - exists s. split; [reflexivity|]. replace n with m by lia. exact HP.
    - destruct (Hstep m s) as (s1 & E1 & HP1); [lia|exact HP|].
      rewrite E1. simpl. apply IH; [lia|exact HP1]. }
  intros s0 H0. apply H; [lia|exact H0].
Qed.

Lemma fold_left_seq_inv {S} (P : nat -> S -> Prop) (n : nat) (body : S -> nat -> S) :
  (forall i s, (i < n)%nat -> P i s -> P (Datatypes.S i) (body s i)) ->
  forall s0, P 0%nat s0 -> P n (fold_left body (seq 0 n) s0).
Proof.
  intros Hstep.
  assert (H : forall k m s, (m + k = n)%nat -> P m s -> P n (fold_left body (seq m k) s)).
  { induction k as [|k IH]; intros m s Hm HP; simpl.
    - replace n with m by lia. exact HP.
    - apply IH; [lia|]. apply Hstep; [lia|exact HP]. }
  intros s0 H0. apply H; [lia|exact H0].
Qed.

(** ** Median cut *)

(** *** The collection loop *)

Lemma incrCount_ok c : 0 <= Sample.count c -> 0 <= Sample.r c <= 255 ->
  0 <= Sample.g c <= 255 -> 0 <= Sample.b c <= 255 -> sampleOk (incrCount c).
Proof. intros. unfold sampleOk, incrCount; simpl. lia. Qed.

Lemma collectColors_ok : forall n data colorMap colors,
  (length data <= n)%nat ->
  Forall (fun v => 0 <= v <= 255) data ->
  Forall sampleOk colors ->
  Forall sampleOk (collectColors data colorMap colors).
Proof.
  induction n as [|n IH]; intros data colorMap colors Hlen Hdata Hcol.
  - destruct data; [exact Hcol|simpl in Hlen; lia].
  - destruct data as [|r0 [|g0 [|b0 [|a0 rest]]]]; try exact Hcol.
    simpl in Hlen.
    inversion Hdata as [|? ? Hr H1]; subst. inversion H1 as [|? ? Hg H2]; subst.
    inversion H2 as [|? ? Hb H3]; subst. inversion H3 as [|? ? Ha Hrest]; subst.
    cbn [collectColors].
    destruct (a0 <? 128); [apply IH; [lia|exact Hrest|exact Hcol]|].
    destruct (colorMap !! colorKey r0 g0 b0) as [idx|] eqn:E.
    + rewrite E. apply IH; [lia|exact Hrest|].
      apply Forall_alter; [exact Hcol|].
      intros c Hc (? & ? & ? & ?). apply incrCount_ok; lia.
    + rewrite lookup_insert_eq. apply IH; [lia|exact Hrest|].
      replace (length colors) with (length colors + 0)%nat at 1 by lia.
      rewrite alter_app_r. simpl.
      apply Forall_app. split; [exact Hcol|].
      constructor; [|constructor]. unfold sampleOk; simpl. lia.
Qed.

(** *** Sorting *)

Lemma insertSorted_Permutation sortBy c l : insertSorted sortBy c l ≡ₚ c :: l.
Proof.
  induction l as [|d l IH]; simpl; [reflexivity|].
  destruct (channel sortBy c <=? channel sortBy d); [reflexivity|].
  rewrite IH. apply Permutation_swap.
Qed.

Lemma sortColors_Permutation sortBy cs : sortColors sortBy cs ≡ₚ cs.
Proof.
  induction cs as [|c cs IH]; simpl; [reflexivity|].
  rewrite insertSorted_Permutation. rewrite IH. reflexivity.
Qed.

Lemma insertSorted_sorted sortBy c l :
  StronglySorted (channelLe sortBy) l -> StronglySorted (channelLe sortBy) (insertSorted sortBy c l).
Proof.
  induction 1 as [|d l Hs IH Hd]; simpl.
  - repeat constructor.
  - destruct (Z.leb_spec (channel sortBy c) (channel sortBy d)) as [Hle|Hgt].
    + constructor; [constructor; assumption|].
      constructor; [exact Hle|].
      eapply Forall_impl; [exact Hd|]. unfold channelLe. intros; simpl in *; lia.
    + constructor; [exact IH|].
      rewrite insertSorted_Permutation. constructor; [unfold channelLe; lia|exact Hd].
Qed.

Lemma sortColors_sorted sortBy cs : StronglySorted (channelLe sortBy) (sortColors sortBy cs).
Proof.
  induction cs as [|c cs IH]; simpl; [constructor|]. apply insertSorted_sorted, IH.
Qed.

Lemma sortColors_length sortBy cs : length (sortColors sortBy cs) = length cs.
Proof. apply Permutation_length, sortColors_Permutation. Qed.

(** *** Splitting a box *)

Lemma splitNormal_app box sortBy l r0 :
  splitNormal box sortBy = (l, r0) -> l ++ r0 = sortColors sortBy (colors box).
Proof. unfold splitNormal. intros [= <- <-]. apply take_drop. Qed.

Lemma splitNormal_left_nonempty box sortBy l r0 :
  colors box <> [] -> splitNormal box sortBy = (l, r0) -> l <> [].
Proof.
  unfold splitNormal. intros Hne [= <- <-].
  pose proof (sortColors_length sortBy (colors box)) as Hlen.
  destruct (sortColors sortBy (colors box)); simpl in *; [|discriminate].
  destruct (colors box); [congruence|discriminate].
Qed.

Lemma childBoxes_colors box sortBy l r0 lb rb :
  childBoxes box sortBy l r0 = (lb, rb) -> colors lb = l /\ colors rb = r0.
Proof.
  unfold childBoxes. intros [= <- <-].
  destruct (last l), (head r0), sortBy; simpl; auto.
Qed.

Lemma splitSingle_ok box sortBy l r0 :
  boxOk box -> splitSingle box sortBy = Normal (l, r0) ->
  Forall sampleOk l /\ Forall sampleOk r0.
Proof.
  unfold boxOk, splitSingle. intros Hok.
  destruct (colors box) as [|c cs] eqn:E; simpl; [discriminate|].
  inversion Hok as [|? ? Hc _]; subst.
  destruct (channel sortBy c <=? _), (_ <? channel sortBy c); intros [= <- <-];
    split; (constructor; [exact Hc|constructor]).
Qed.

Lemma splitNormal_ok box sortBy l r0 :
  boxOk box -> splitNormal box sortBy = (l, r0) ->
  Forall sampleOk l /\ Forall sampleOk r0.
Proof.
  intros Hok H. apply splitNormal_app in H.
  apply Forall_app. rewrite H. unfold boxOk in Hok.
  rewrite sortColors_Permutation. exact Hok.
Qed.

Lemma splitBox_ok box lb rb :
  boxOk box -> splitBox box = Normal (lb, rb) -> boxOk lb /\ boxOk rb.
Proof.
  intros Hok. unfold splitBox.
  destruct (length (colors box) <=? 1)%nat.
  - destruct (splitSingle box (longestAxis box)) as [[l r0]| |] eqn:E; simpl; try discriminate.
    intros H. apply Normal_inj, childBoxes_colors in H as [<- <-].
    eapply splitSingle_ok; eauto.
  - destruct (splitNormal box (longestAxis box)) as [l r0] eqn:E. simpl.
    intros H. apply Normal_inj, childBoxes_colors in H as [<- <-].
    eapply splitNormal_ok; eauto.
Qed.

Lemma duplicateBoxes_ok n : forall existing boxes boxes',
  Forall boxOk boxes -> duplicateBoxes n existing boxes = Normal boxes' ->
  Forall boxOk boxes'.
Proof.
  induction n as [|n IH]; intros existing boxes boxes' Hok; simpl.
  - intros [= <-]. exact Hok.
  - destruct (boxes !! _) as [src|] eqn:E; [|discriminate].
    apply IH. apply Forall_app. split; [exact Hok|].
    constructor; [|constructor]. eapply Forall_lookup_1; eauto.
Qed.

Lemma duplicateBoxes_fuel n : forall existing boxes,
  duplicateBoxes n existing boxes <> OutOfFuel.
Proof.
  induction n as [|n IH]; intros existing boxes; simpl; [discriminate|].
  destruct (boxes !! _); [apply IH|discriminate].
Qed.

Lemma splice2_ok boxes i lb rb :
  Forall boxOk boxes -> boxOk lb -> boxOk rb -> Forall boxOk (splice2 boxes i lb rb).
Proof.
  intros H Hl Hr. unfold splice2. apply Forall_app. split.
  - apply Forall_take, H.
  - constructor; [exact Hl|]. constructor; [exact Hr|]. apply Forall_drop, H.
Qed.

Lemma splice2_length boxes i lb rb :
  (i < length boxes)%nat -> length (splice2 boxes i lb rb) = S (length boxes).
Proof.
  intros H. unfold splice2. rewrite length_app, length_take. simpl.
  rewrite length_drop. lia.
Qed.

Lemma splitLoop_ok fuel maxColors : forall boxes boxes',
  Forall boxOk boxes -> splitLoop fuel maxColors boxes = Normal boxes' ->
  Forall boxOk boxes'.
Proof.
  induction fuel as [|fuel IH]; intros boxes boxes' Hok; simpl; [discriminate|].
  destruct (length boxes <? maxColors - 1)%nat; [|intros [= <-]; exact Hok].
  destruct (chooseBox boxes) as [i|]; [|apply duplicateBoxes_ok, Hok].
  destruct (boxes !! i) as [box|] eqn:E; [|discriminate].
  destruct (splitBox box) as [[lb rb]| |] eqn:Es; simpl; try discriminate.
  apply IH. apply splitBox_ok in Es as [Hl Hr]; [|eapply Forall_lookup_1; eauto].
  apply splice2_ok; assumption.
Qed.

Lemma splitSingle_fuel box sortBy : splitSingle box sortBy <> OutOfFuel.
Proof. unfold splitSingle. destruct (colors box !! 0%nat); discriminate. Qed.

Lemma splitBox_fuel box : splitBox box <> OutOfFuel.
Proof.
  unfold splitBox. destruct (length (colors box) <=? 1)%nat.
  - destruct (splitSingle box (longestAxis box)) as [[l r0]| |] eqn:E; simpl; try discriminate.
    exfalso. eapply splitSingle_fuel; eauto.
  - destruct (splitNormal box (longestAxis box)); simpl. discriminate.
Qed.

(** The fuel handed to the loop is enough. *)
Lemma splitLoop_fuel fuel maxColors : forall boxes,
  (maxColors - 1 - length boxes < fuel)%nat ->
  splitLoop fuel maxColors boxes <> OutOfFuel.
Proof.
  induction fuel as [|fuel IH]; intros boxes Hfuel; simpl; [lia|].
  destruct (Nat.ltb_spec (length boxes) (maxColors - 1)); [|discriminate].
  destruct (chooseBox boxes) as [i|]; [|apply duplicateBoxes_fuel].
  destruct (boxes !! i) as [box|] eqn:E; [|discriminate].
  destruct (splitBox box) as [[lb rb]| |] eqn:Es; simpl; try discriminate.
  - apply IH. rewrite splice2_length by (eapply lookup_lt_Some; eauto). lia.
  - exfalso. eapply splitBox_fuel; eauto.
Qed.

(** *** Averaging *)

Lemma weighted_total_bound (f : Sample.t -> Z) (cs : list Sample.t) :
  (forall c, sampleOk c -> 0 <= f c <= 255) ->
  Forall sampleOk cs ->
  forall accT accC, 0 <= accT <= 255 * accC ->
    0 <= fold_left (fun acc c => acc + f c * Sample.count c) cs accT
      <= 255 * fold_left (fun acc c => acc + Sample.count c) cs accC.
Proof.
  intros Hf. induction 1 as [|c cs Hc _ IH]; intros accT accC Hacc; simpl; [exact Hacc|].
  apply IH. pose proof (Hf c Hc). destruct Hc as (_ & _ & _ & Hcount). nia.
Qed.

Lemma totalCount_pos (cs : list Sample.t) :
  Forall sampleOk cs -> forall acc,
    acc + Z.of_nat (length cs) <= fold_left (fun acc c => acc + Sample.count c) cs acc.
Proof.
  induction 1 as [|c cs Hc _ IH]; intros acc; simpl; [lia|].
  specialize (IH (acc + Sample.count c)). destruct Hc as (_ & _ & _ & Hcount). lia.
Qed.

Lemma roundDiv_bound n d : 1 <= d -> 0 <= n <= 255 * d -> 0 <= roundDiv n d <= 255.
Proof.
  intros Hd Hn. unfold roundDiv. split.
  - apply Z.div_pos; lia.
  - enough ((2 * n + d) / (2 * d) < 256) by lia.
    apply Z.div_lt_upper_bound; lia.
Qed.

Lemma averageColor_ok box : boxOk box -> colors box <> [] -> rgbOk (averageColor box).
Proof.
  intros Hok Hne. unfold boxOk in Hok.
  assert (Hc : 1 <= totalCountOf (colors box)).
  { pose proof (totalCount_pos _ Hok 0) as H. unfold totalCountOf.
    destruct (colors box); [congruence|]. simpl length in H. lia. }
  unfold averageColor, rgbOk; simpl.
  repeat split; apply roundDiv_bound; try exact Hc; try apply weighted_total_bound;
    try exact Hok; try lia; intros c (? & ? & ? & ?); try lia.
Qed.

Lemma boxEntry_ok box : boxOk box -> Forall rgbOk (boxEntry box).
Proof.
  intros Hok. unfold boxEntry. destruct (colors box) as [|c cs] eqn:E.
  - constructor; [|constructor]. unfold rgbOk, black; simpl. lia.
  - case_bool_decide; constructor; [|constructor].
    apply averageColor_ok; [exact Hok|congruence].
Qed.

(** The averaging loop appends the entries of the boxes in order and stops
    at [maxColors] entries. *)
Lemma averageBoxes_take maxColors boxes : forall palette,
  (length palette <= maxColors)%nat ->
  averageBoxes maxColors boxes palette = take maxColors (palette ++ flat_map boxEntry boxes).
Proof.
  induction boxes as [|box boxes IH]; intros palette Hlen; simpl.
  - rewrite app_nil_r, take_ge by exact Hlen. reflexivity.
  - destruct (Nat.leb_spec maxColors (length palette)) as [Hfull|Hroom].
    + rewrite take_app_le by lia. rewrite take_ge by lia. reflexivity.
    + unfold boxEntry at 1. destruct (colors box) as [|c cs].
      * destruct (Nat.ltb_spec (length palette) maxColors); [|lia].
        rewrite IH by (rewrite length_app; simpl; lia).
        rewrite <- app_assoc. reflexivity.
      * case_bool_decide.
        -- rewrite IH by lia. reflexivity.
        -- rewrite IH by (rewrite length_app; simpl; lia).
           rewrite <- app_assoc. reflexivity.
Qed.

Lemma take_pad {A} (n : nat) (l : list A) (x : A) :
  take n (take n l ++ replicate (n - length (take n l)) x) = take n (l ++ replicate n x).
Proof.
  destruct (Nat.le_gt_cases n (length l)) as [Hle|Hgt].
  - rewrite length_take, Nat.min_l by exact Hle. rewrite Nat.sub_diag. simpl.
    rewrite app_nil_r, take_take, Nat.min_id, take_app_le by exact Hle. reflexivity.
  - rewrite (take_ge l) by lia. rewrite !take_app_ge by lia.
    f_equal. rewrite !take_replicate. f_equal. lia.
Qed.

(** The shape of every palette that the builder returns. *)
Lemma medianCutQuantize_shape data maxColors palette :
  medianCutQuantize data maxColors = Normal palette ->
  exists boxes,
    boxesAfterSplitting data maxColors = Normal boxes /\
    palette = take maxColors (black :: flat_map boxEntry boxes ++ replicate maxColors black) /\
    (Forall (fun v => 0 <= v <= 255) data -> Forall boxOk boxes).
Proof.
  unfold medianCutQuantize, boxesAfterSplitting. cbv zeta.
  destruct (length (collectColors data ∅ []) =? 0)%nat.
  - intros [= <-]. exists []. split; [reflexivity|]. split; [|constructor].
    change (black :: flat_map boxEntry [] ++ replicate maxColors black)
      with (replicate (S maxColors) black).
    rewrite take_replicate. f_equal. lia.
  - destruct (splitLoop _ _ _) as [boxes| |] eqn:E; simpl; try discriminate.
    intros [= <-]. exists boxes. split; [reflexivity|]. split.
    + destruct maxColors as [|n]; [reflexivity|].
      rewrite averageBoxes_take by (simpl; lia).
      change ([black] ++ flat_map boxEntry boxes) with (black :: flat_map boxEntry boxes).
      rewrite take_pad. reflexivity.
    + intros Hdata. eapply splitLoop_ok; [|exact E].
      constructor; [|constructor]. unfold boxOk, initialBox; simpl.
      eapply collectColors_ok; [reflexivity|exact Hdata|constructor].
Qed.

Lemma medianCutQuantize_length data maxColors palette :
  medianCutQuantize data maxColors = Normal palette -> length palette = maxColors.
Proof.
  intros H. apply medianCutQuantize_shape in H as (boxes & _ & -> & _).
  rewrite length_take. simpl. rewrite length_app, length_replicate. lia.
Qed.

Lemma medianCutQuantize_first data maxColors palette :
  (0 < maxColors)%nat ->
  medianCutQuantize data maxColors = Normal palette -> palette !! 0%nat = Some black.
Proof.
  intros Hn H. apply medianCutQuantize_shape in H as (boxes & _ & -> & _).
  destruct maxColors; [lia|reflexivity].
Qed.

Lemma medianCutQuantize_bytes data maxColors palette :
  Forall (fun v => 0 <= v <= 255) data ->
  medianCutQuantize data maxColors = Normal palette -> Forall rgbOk palette.
Proof.
  intros Hdata H. apply medianCutQuantize_shape in H as (boxes & _ & -> & Hok).
  specialize (Hok Hdata).
  apply Forall_take. constructor; [unfold rgbOk, black; simpl; lia|].
  apply Forall_app. split.
  - apply Forall_flat_map. eapply Forall_impl; [exact Hok|]. apply boxEntry_ok.
  - apply Forall_replicate. unfold rgbOk, black; simpl; lia.
Qed.

Lemma medianCutQuantize_fuel data maxColors : medianCutQuantize data maxColors <> OutOfFuel.
Proof.
  unfold medianCutQuantize.
  destruct (length (collectColors data ∅ []) =? 0)%nat; [discriminate|].
  destruct (splitLoop _ _ _) as [boxes| |] eqn:E; simpl; try discriminate.
  exfalso. eapply splitLoop_fuel; [|exact E]. simpl. lia.
Qed.

(** *** The builder can throw *)

(** C2. The claim that the palette builder never raises fails on the
    source: for a 2x2 image with one black pixel and three pixels
    (1,0,0), all opaque, the fallback search selects a box without samples
    and reading a channel of its first sample throws, for either palette
    size. *)
Theorem medianCutQuantize_throws_on_near_black :
  medianCutQuantize (data nearBlack2x2) 16 = Throw TypeError /\
  medianCutQuantize (data nearBlack2x2) 256 = Throw TypeError.
Proof. split; vm_compute; reflexivity. Qed.

(** *** Black in the palette *)

(** C3 as stated fails: for a fully transparent pixel the builder returns
    16 black entries, so black is also at index 1. *)
Lemma palette_black_not_unique :
  ~ (forall (data : list Z) (N : nat) (palette : list RGB),
       N = 16%nat \/ N = 256%nat ->
       medianCutQuantize data N = Normal palette ->
       palette !! 0%nat = Some black /\
       forall i, (0 < i)%nat -> palette !! i <> Some black).
Proof.
  intros H.
  destruct (H (data transparent1x1) 16%nat (replicate 16 black)) as [_ H1].
  - left. reflexivity.
  - vm_compute. reflexivity.
  - apply (H1 1%nat); [lia|reflexivity].
Qed.

(** C3 (amended). Whenever the builder returns a palette of positive size,
    entry 0 is black, and the palette consists of that entry, then the
    entries of the boxes left by the splitting loop, in order, then black
    filler, cut to N entries; a box that has samples never contributes
    black: when its average rounds to (0,0,0) it contributes nothing. *)
Theorem palette_black_first_and_skipped (data : list Z) (N : nat) (palette : list RGB) :
  (0 < N)%nat ->
  medianCutQuantize data N = Normal palette ->
  palette !! 0%nat = Some black /\
  exists boxes,
    boxesAfterSplitting data N = Normal boxes /\
    palette = take N (black :: flat_map boxEntry boxes ++ replicate N black) /\
    forall box, box ∈ boxes -> colors box <> [] ->
      (black ∉ boxEntry box) /\
      (averageColor box = black -> boxEntry box = []).
Proof.
  intros HN H. split; [eapply medianCutQuantize_first; eauto|].
  apply medianCutQuantize_shape in H as (boxes & Hboxes & -> & _).
  exists boxes. split; [exact Hboxes|]. split; [reflexivity|].
  intros box _ Hne. unfold boxEntry.
  destruct (colors box); [congruence|].
  case_bool_decide as Hb; split; try congruence.
  - apply not_elem_of_nil.
  - intros Hin. apply list_elem_of_singleton in Hin. congruence.
Qed.

Lemma palette_black_first_and_skipped_witness :
  exists palette,
    medianCutQuantize (data gray2x2) 16 = Normal palette /\
    palette !! 0%nat = Some black /\
    exists boxes,
      boxesAfterSplitting (data gray2x2) 16 = Normal boxes /\
      palette = take 16 (black :: flat_map boxEntry boxes ++ replicate 16 black) /\
      forall box, box ∈ boxes -> colors box <> [] ->
        (black ∉ boxEntry box) /\
        (averageColor box = black -> boxEntry box = []).
Proof.
  eexists. split; [vm_compute; reflexivity|].
  apply (palette_black_first_and_skipped (data gray2x2) 16); [lia|vm_compute; reflexivity].
Defined.

(** *** Bounds of the children *)

Lemma setMax_spec sortBy v box :
  boxMax sortBy (setMax sortBy v box) = v /\
  boxMin sortBy (setMax sortBy v box) = boxMin sortBy box /\
  colors (setMax sortBy v box) = colors box /\
  inheritsOtherAxes sortBy box (setMax sortBy v box).
Proof.
  unfold inheritsOtherAxes. destruct sortBy; simpl; repeat split; auto;
    destruct a; simpl; congruence.
Qed.

Lemma setMin_spec sortBy v box :
  boxMin sortBy (setMin sortBy v box) = v /\
  boxMax sortBy (setMin sortBy v box) = boxMax sortBy box /\
  colors (setMin sortBy v box) = colors box /\
  inheritsOtherAxes sortBy box (setMin sortBy v box).
Proof.
  unfold inheritsOtherAxes. destruct sortBy; simpl; repeat split; auto;
    destruct a; simpl; congruence.
Qed.

Lemma withColors_spec cs box a :
  boxMin a (withColors cs box) = boxMin a box /\ boxMax a (withColors cs box) = boxMax a box.
Proof. destruct a; simpl; auto. Qed.

Lemma sorted_last_max sortBy l c :
  StronglySorted (channelLe sortBy) l -> last l = Some c ->
  isMaxOf sortBy (channel sortBy c) l.
Proof.
  intros Hs Hl. apply last_Some in Hl as [l' ->]. split.
  - exists c. split; [|reflexivity]. apply elem_of_app. right. apply list_elem_of_singleton. reflexivity.
  - intros x Hx. apply elem_of_app in Hx as [Hx|Hx].
    + apply (StronglySorted_app_1_elem_of (channelLe sortBy) l' [c] x c Hs Hx).
      apply list_elem_of_singleton. reflexivity.
    + apply list_elem_of_singleton in Hx as ->. lia.
Qed.

Lemma sorted_head_min sortBy l c :
  StronglySorted (channelLe sortBy) l -> head l = Some c ->
  isMinOf sortBy (channel sortBy c) l.
Proof.
  intros Hs Hl. destruct l as [|d l]; [discriminate|]. injection Hl as ->.
  inversion Hs as [|? ? _ Hall]; subst. split.
  - exists c. split; [left|reflexivity].
  - intros x Hx. apply elem_of_cons in Hx as [->|Hx]; [lia|].
    rewrite Forall_forall in Hall. apply Hall, Hx.
Qed.

(** C4 as stated fails: splitting the initial box of the samples r = 10
    and r = 20 gives a left child that holds the sample r = 10 and has the
    red range 0..10: its minimum is the parent's, not the smallest red of
    its samples. *)
Lemma twoReds_left_min_not_recomputed :
  ~ (forall box leftBox rightBox,
       (1 < length (colors box))%nat ->
       splitBox box = Normal (leftBox, rightBox) ->
       recomputedFromOwnSamples (longestAxis box) box leftBox /\
       recomputedFromOwnSamples (longestAxis box) box rightBox).
Proof.
  intros H.
  destruct (H twoReds
              (mkBox [Sample.mk 10 0 0 1] 0 10 0 255 0 255)
              (mkBox [Sample.mk 20 0 0 1] 20 255 0 255 0 255))
    as [(_ & Hl & _) _].
  - simpl. lia.
  - vm_compute. reflexivity.
  - destruct Hl as [[(c & Hc & Hv) _] _]; [discriminate|].
    simpl in Hc, Hv. apply list_elem_of_singleton in Hc as ->. discriminate Hv.
Qed.

(** C4 (amended). A box with more than one sample is always split, on its
    longest axis; both children inherit the parent's range on the other two
    axes; the left child keeps the parent's minimum on the split axis and
    takes the largest value among its own samples as maximum; the right
    child keeps the parent's maximum and, when it has samples, takes the
    smallest value among them as minimum; a right child without samples
    keeps the parent's range. *)
Theorem splitBox_children_bounds (box : Box) :
  (1 < length (colors box))%nat ->
  exists leftBox rightBox,
    splitBox box = Normal (leftBox, rightBox) /\
    let sortBy := longestAxis box in
    inheritsOtherAxes sortBy box leftBox /\
    inheritsOtherAxes sortBy box rightBox /\
    boxMin sortBy leftBox = boxMin sortBy box /\
    isMaxOf sortBy (boxMax sortBy leftBox) (colors leftBox) /\
    boxMax sortBy rightBox = boxMax sortBy box /\
    (colors rightBox <> [] -> isMinOf sortBy (boxMin sortBy rightBox) (colors rightBox)) /\
    (colors rightBox = [] -> boxMin sortBy rightBox = boxMin sortBy box).
Proof.
  intros Hlen. unfold splitBox.
  destruct (Nat.leb_spec (length (colors box)) 1) as [|_]; [lia|].
  set (sortBy := longestAxis box).
  destruct (splitNormal box sortBy) as [l r0] eqn:E. simpl.
  unfold childBoxes. eexists _, _. split; [reflexivity|].
  assert (Hne : l <> []).
  { eapply splitNormal_left_nonempty; [|exact E]. destruct (colors box); simpl in *; [lia|discriminate]. }
  pose proof (sortColors_sorted sortBy (colors box)) as Hs.
  rewrite <- (splitNormal_app _ _ _ _ E) in Hs.
  pose proof (StronglySorted_app_1_l _ _ _ Hs) as Hsl.
  pose proof (StronglySorted_app_1_r _ _ _ Hs) as Hsr.
  destruct (last l) as [cl|] eqn:El; [|apply last_None in El; congruence].
  pose proof (setMax_spec sortBy (channel sortBy cl) (withColors l box)) as (Hmax & Hmin & Hcol & Hoth).
  assert (Hleft : inheritsOtherAxes sortBy box
                    (setMax sortBy (channel sortBy cl) (withColors l box))).
  { intros a Ha. destruct (Hoth a Ha) as [-> ->]. apply withColors_spec. }
  assert (HleftMin : boxMin sortBy (setMax sortBy (channel sortBy cl) (withColors l box))
                     = boxMin sortBy box).
  { rewrite Hmin. apply withColors_spec. }
  assert (HleftMax : isMaxOf sortBy
             (boxMax sortBy (setMax sortBy (channel sortBy cl) (withColors l box)))
             (colors (setMax sortBy (channel sortBy cl) (withColors l box)))).
  { rewrite Hmax, Hcol. simpl. apply sorted_last_max; assumption. }
  cbv zeta. fold sortBy.
  destruct (head r0) as [cr|] eqn:Er.
  - pose proof (setMin_spec sortBy (channel sortBy cr) (withColors r0 box))
      as (Hmin' & Hmax' & Hcol' & Hoth').
    split; [exact Hleft|]. split.
    { intros a Ha. destruct (Hoth' a Ha) as [-> ->]. apply withColors_spec. }
    split; [exact HleftMin|]. split; [exact HleftMax|]. split.
    { rewrite Hmax'. apply withColors_spec. }
    split.
    + intros _. rewrite Hmin', Hcol'. simpl. apply (sorted_head_min sortBy r0 cr Hsr Er).
    + rewrite Hcol'. simpl. intros ->. discriminate.
  - split; [exact Hleft|]. split.
    { intros a Ha. apply withColors_spec. }
    split; [exact HleftMin|]. split; [exact HleftMax|]. split.
    { apply withColors_spec. }
    split.
    + simpl. intros Hr. destruct r0; [congruence|discriminate].
    + intros _. apply withColors_spec.
Qed.

Lemma splitBox_children_bounds_witness :
  (1 < length (colors twoReds))%nat /\
  exists leftBox rightBox,
    splitBox twoReds = Normal (leftBox, rightBox) /\
    let sortBy := longestAxis twoReds in
    inheritsOtherAxes sortBy twoReds leftBox /\
    inheritsOtherAxes sortBy twoReds rightBox /\
    boxMin sortBy leftBox = boxMin sortBy twoReds /\
    isMaxOf sortBy (boxMax sortBy leftBox) (colors leftBox) /\
    boxMax sortBy rightBox = boxMax sortBy twoReds /\
    (colors rightBox <> [] -> isMinOf sortBy (boxMin sortBy rightBox) (colors rightBox)) /\
    (colors rightBox = [] -> boxMin sortBy rightBox = boxMin sortBy twoReds).
Proof.
  split; [simpl; lia|]. apply (splitBox_children_bounds twoReds). simpl. lia.
Defined.

(** *** A uniform image *)

(** C8. For the 2x2 image whose four pixels are (128,128,128,255), the
    8-bit encoder (with or without dithering) assigns the same index to the
    four pixels, the four pixel bytes of the file hold that index, and the
    palette entry at that index, in the builder's palette, in the palette
    table of the file and as decoded, is exactly (128,128,128). *)
Theorem uniform_gray_8bit (dither : bool) :
  exists (k : Z) (colorArray : list RGB) (file : list Z),
    build8BitPalette (data gray2x2) = Normal colorArray /\
    pixelIndices8Bit gray2x2 dither = Normal [k; k; k; k] /\
    colorArray !! Z.to_nat k = Some (mkRGB 128 128 128) /\
    encodeBMP8Bit gray2x2 dither = Normal file /\
    (file !! 1078%nat = Some k /\ file !! 1079%nat = Some k /\
     file !! 1082%nat = Some k /\ file !! 1083%nat = Some k) /\
    (file !! (54 + 4 * Z.to_nat k)%nat = Some 128 /\
     file !! (54 + 4 * Z.to_nat k + 1)%nat = Some 128 /\
     file !! (54 + 4 * Z.to_nat k + 2)%nat = Some 128) /\
    extractBMP8BitColors file 2 2 = Normal (replicate 4 (Some (mkRGB 128 128 128))).
Proof.
  exists 1. destruct dither.
  - eexists. eexists. split; [vm_compute; reflexivity|].
    split; [vm_compute; reflexivity|]. split; [vm_compute; reflexivity|].
    split; [vm_compute; reflexivity|]. repeat split; vm_compute; reflexivity.
  - eexists. eexists. split; [vm_compute; reflexivity|].
    split; [vm_compute; reflexivity|]. split; [vm_compute; reflexivity|].
    split; [vm_compute; reflexivity|]. repeat split; vm_compute; reflexivity.
Qed.


(** ** The disperser *)

Lemma deref_wr_eq σ l i v : deref (wr σ l i v) l = <[i := v]> (deref σ l).
Proof.
  unfold deref, wr. rewrite list_lookup_alter_eq.
  destruct (σ !! l); reflexivity.
Qed.

Lemma deref_wr_ne σ l l' i v : l' <> l -> wr σ l i v !! l' = σ !! l'.
Proof. intros H. unfold wr. apply list_lookup_alter_ne. congruence. Qed.

Lemma pixel_byte_div (p c : nat) : (c < 4)%nat -> ((4 * p + c) / 4 = p)%nat.
Proof. intros H. symmetry. apply (Nat.div_unique _ 4 p c); lia. Qed.

Lemma pixel_byte_mod (p c : nat) : (c < 4)%nat -> ((4 * p + c) mod 4 = c)%nat.
Proof. intros H. symmetry. apply (Nat.mod_unique _ 4 p c); lia. Qed.

Lemma frame_refl σ d : frame σ d σ.
Proof. repeat split. Qed.

Lemma frame_alpha σ0 d σ p :
  frame σ0 d σ -> rd σ d (4 * p + 3) = rd σ0 d (4 * p + 3).
Proof.
  intros (_ & _ & _ & H). unfold rd, readByte. rewrite H; [reflexivity|].
  left. apply pixel_byte_mod. lia.
Qed.

(** A write into a colour byte of an opaque pixel keeps the frame. *)
Lemma frame_wr σ0 d σ p c v :
  frame σ0 d σ -> (c < 3)%nat -> 128 <= rd σ0 d (4 * p + 3) ->
  frame σ0 d (wr σ d (4 * p + c) v).
Proof.
  intros (Hlen & Hother & Hl & Hfrozen) Hc Hopaque. split; [|split; [|split]].
  - unfold wr. rewrite length_alter. exact Hlen.
  - intros l Hne. rewrite deref_wr_ne by exact Hne. apply Hother, Hne.
  - rewrite deref_wr_eq, length_insert. exact Hl.
  - intros j Hj. rewrite deref_wr_eq.
    rewrite list_lookup_insert_ne; [apply Hfrozen, Hj|].
    intros <-. destruct Hj as [Hj|Hj].
    + rewrite pixel_byte_mod in Hj by lia. lia.
    + rewrite pixel_byte_div in Hj by lia. unfold rd in Hopaque. lia.
Qed.

Lemma frame_wr0 σ0 d σ p v :
  frame σ0 d σ -> 128 <= rd σ0 d (4 * p + 3) -> frame σ0 d (wr σ d (4 * p) v).
Proof.
  intros H Hop. replace (4 * p)%nat with (4 * p + 0)%nat at 1 by lia.
  apply frame_wr; [exact H|lia|exact Hop].
Qed.

Section DitheringFacts.
Variable d : ref.
Variables width height : nat.
Variable colorArray : list RGB.
Variable findClosest : Z -> Z -> Z -> nat.
Variable σ0 : store.

Lemma distributeError_frame errR errG errB x1 y1 w16 σ :
  frame σ0 d σ -> frame σ0 d (distributeError d width height errR errG errB x1 y1 w16 σ).
Proof.
  intros H. unfold distributeError.
  destruct ((0 <=? x1) && (x1 <? Z.of_nat width) && (0 <=? y1) && (y1 <? Z.of_nat height))
    eqn:Hin; [|exact H].
  apply andb_prop in Hin as [Hin Hy2]. apply andb_prop in Hin as [Hin Hy1].
  apply andb_prop in Hin as [Hx1 Hx2].
  set (p := Z.to_nat (y1 * Z.of_nat width + x1)).
  assert (Hidx : Z.to_nat ((y1 * Z.of_nat width + x1) * 4) = (4 * p)%nat) by (unfold p; nia).
  rewrite Hidx.
  destruct (Z.leb_spec 128 (rd σ d (4 * p + 3))) as [Hop|_]; [|exact H].
  rewrite (frame_alpha σ0 d σ p H) in Hop.
  apply frame_wr; [|lia|exact Hop]. apply frame_wr; [|lia|exact Hop].
  apply frame_wr0; [exact H|exact Hop].
Qed.

Lemma ditherPixel_frame y x σ :
  (forall r0 g0 b0, is_Some (colorArray !! findClosest r0 g0 b0)) ->
  frame σ0 d σ ->
  exists σ', ditherPixel d width height colorArray findClosest y x σ = Normal σ' /\
             frame σ0 d σ'.
Proof.
  intros Hvalid H. unfold ditherPixel.
  replace ((y * width + x) * 4)%nat with (4 * (y * width + x))%nat by lia.
  set (p := (y * width + x)%nat).
  destruct (Z.ltb_spec (rd σ d (4 * p + 3)) 128) as [_|Hop]; [eauto|].
  rewrite (frame_alpha σ0 d σ p H) in Hop.
  destruct (Hvalid (rd σ d (4 * p)) (rd σ d (4 * p + 1)) (rd σ d (4 * p + 2))) as [c ->].
  eexists. split; [reflexivity|].
  repeat apply distributeError_frame.
  apply frame_wr; [|lia|exact Hop]. apply frame_wr; [|lia|exact Hop].
  apply frame_wr0; [exact H|exact Hop].
Qed.

Lemma ditherLoop_frame σ :
  (forall r0 g0 b0, is_Some (colorArray !! findClosest r0 g0 b0)) ->
  frame σ0 d σ ->
  exists σ', ditherLoop d width height colorArray findClosest σ = Normal σ' /\
             frame σ0 d σ'.
Proof.
  intros Hvalid H. unfold ditherLoop.
  apply (forM_seq_inv (fun _ σ => frame σ0 d σ)); [|exact H].
  intros y σ1 _ H1.
  apply (forM_seq_inv (fun _ σ => frame σ0 d σ)); [|exact H1].
  intros x σ2 _ H2. apply ditherPixel_frame; assumption.
Qed.

End DitheringFacts.

(** C7. Called on an array of 4·width·height bytes with a matcher that
    always returns an index of the palette, the disperser returns a
    reference that did not exist before, every array of the store it was
    called in (its input among them) is byte-for-byte unchanged, and in the
    new array each pixel whose input alpha is below 128 has exactly its
    input R, G, B and A. *)
Theorem applyFloydSteinbergDithering_frame (σ : store) (data : ref) (buf : list Z)
    (width height : nat) (colorArray : list RGB) (findClosest : Z -> Z -> Z -> nat) :
  σ !! data = Some buf ->
  length buf = (4 * width * height)%nat ->
  (forall r0 g0 b0, is_Some (colorArray !! findClosest r0 g0 b0)) ->
  exists σ' ditheredData buf',
    applyFloydSteinbergDithering σ data width height colorArray findClosest
      = Normal (σ', ditheredData) /\
    σ !! ditheredData = None /\
    (forall l, (l < length σ)%nat -> σ' !! l = σ !! l) /\
    σ' !! data = Some buf /\
    σ' !! ditheredData = Some buf' /\
    length buf' = length buf /\
    forall x y, (x < width)%nat -> (y < height)%nat ->
      let i := ((y * width + x) * 4)%nat in
      readByte buf (i + 3) < 128 ->
      buf' !! i = buf !! i /\ buf' !! (i + 1)%nat = buf !! (i + 1)%nat /\
      buf' !! (i + 2)%nat = buf !! (i + 2)%nat /\ buf' !! (i + 3)%nat = buf !! (i + 3)%nat.
Proof.
  intros Hdata Hlen Hvalid. unfold applyFloydSteinbergDithering, alloc.
  assert (Hd : deref σ data = buf) by (unfold deref; rewrite Hdata; reflexivity).
  rewrite Hd.
  destruct (ditherLoop_frame (length σ) width height colorArray findClosest
              (σ ++ [buf]) (σ ++ [buf]) Hvalid (frame_refl _ _))
    as (σ' & -> & Hl & Hother & Hbl & Hfrozen).
  assert (Hnew : deref (σ ++ [buf]) (length σ) = buf).
  { unfold deref. rewrite lookup_app_r by lia. rewrite Nat.sub_diag. reflexivity. }
  rewrite Hnew in Hbl, Hfrozen.
  assert (Hsome : exists buf', σ' !! length σ = Some buf').
  { apply lookup_lt_is_Some. rewrite Hl, length_app. simpl. lia. }
  destruct Hsome as [buf' Hbuf'].
  assert (Hd' : deref σ' (length σ) = buf') by (unfold deref; rewrite Hbuf'; reflexivity).
  rewrite Hd' in Hbl, Hfrozen.
  assert (Hold : forall l, (l < length σ)%nat -> σ' !! l = σ !! l).
  { intros l Hlt. rewrite Hother by lia. apply lookup_app_l, Hlt. }
  exists σ', (length σ), buf'. simpl.
  split; [reflexivity|]. split; [apply lookup_ge_None; lia|].
  split; [exact Hold|]. split.
  { rewrite Hold; [exact Hdata|]. eapply lookup_lt_Some, Hdata. }
  split; [exact Hbuf'|]. split; [exact Hbl|].
  intros x y _ _ Halpha.
  replace ((y * width + x) * 4)%nat with (4 * (y * width + x))%nat in * by lia.
  set (p := (y * width + x)%nat) in *.
  assert (Hf : forall c, (c < 4)%nat -> frozen buf (4 * p + c)).
  { intros c Hc. right. rewrite pixel_byte_div by exact Hc. exact Halpha. }
  replace (4 * p)%nat with (4 * p + 0)%nat at 1 2 by lia.
  repeat split; apply Hfrozen, Hf; lia.
Qed.

Lemma applyFloydSteinbergDithering_frame_witness :
  exists σ' ditheredData buf',
    applyFloydSteinbergDithering [halfTransparent2x1] 0%nat 2 1 twoEntryPalette
      (findClosestColor twoEntryPalette) = Normal (σ', ditheredData) /\
    [halfTransparent2x1] !! ditheredData = None /\
    (forall l, (l < length [halfTransparent2x1])%nat -> σ' !! l = [halfTransparent2x1] !! l) /\
    σ' !! 0%nat = Some halfTransparent2x1 /\
    σ' !! ditheredData = Some buf' /\
    length buf' = length halfTransparent2x1 /\
    forall x y, (x < 2)%nat -> (y < 1)%nat ->
      let i := ((y * 2 + x) * 4)%nat in
      readByte halfTransparent2x1 (i + 3) < 128 ->
      buf' !! i = halfTransparent2x1 !! i /\
      buf' !! (i + 1)%nat = halfTransparent2x1 !! (i + 1)%nat /\
      buf' !! (i + 2)%nat = halfTransparent2x1 !! (i + 2)%nat /\
      buf' !! (i + 3)%nat = halfTransparent2x1 !! (i + 3)%nat.
Proof.
  apply (applyFloydSteinbergDithering_frame [halfTransparent2x1] 0%nat halfTransparent2x1
           2 1 twoEntryPalette (findClosestColor twoEntryPalette)).
  - reflexivity.
  - reflexivity.
  - intros r0 g0 b0. apply findClosestColor_valid. discriminate.
Defined.

(** The disperser as a function of the contents: it returns, and the
    result agrees with the input on the alpha bytes and on the pixels whose
    alpha is below 128. *)
Lemma ditherData_preserved data width height colorArray findClosest :
  (forall r0 g0 b0, is_Some (colorArray !! findClosest r0 g0 b0)) ->
  exists out, ditherData data width height colorArray findClosest = Normal out /\
              preserved data out.
Proof.
  intros Hvalid. unfold ditherData, applyFloydSteinbergDithering, alloc.
  change (deref [data] 0) with data. simpl length.
  destruct (ditherLoop_frame 1 width height colorArray findClosest
              ([data] ++ [data]) ([data] ++ [data]) Hvalid (frame_refl _ _))
    as (σ' & -> & _ & _ & Hp).
  simpl. eexists. split; [reflexivity|]. exact Hp.
Qed.

Lemma preserved_alpha buf0 buf q :
  preserved buf0 buf -> readByte buf (q * 4 + 3) = readByte buf0 (q * 4 + 3).
Proof.
  intros [_ H]. unfold readByte. rewrite H; [reflexivity|].
  left. replace (q * 4 + 3)%nat with (4 * q + 3)%nat by lia. apply pixel_byte_mod. lia.
Qed.

(** ** Index assignment *)

Lemma assignIndices_spec data width height findClosest :
  length (assignIndices data width height findClosest) = (width * height)%nat /\
  forall q, (q < width * height)%nat ->
    assignIndices data width height findClosest !! q = Some (indexOf data findClosest q).
Proof.
  unfold assignIndices.
  set (P := fun (n : nat) (out : list Z) =>
              length out = (width * height)%nat /\
              forall q, (q < n)%nat -> out !! q = Some (indexOf data findClosest q)).
  assert (H : P (height * width)%nat
                (fold_left
                   (fun pixelIndices y =>
                      fold_left
                        (fun pixelIndices x => assignIndex data width findClosest y x pixelIndices)
                        (seq 0 width) pixelIndices)
                   (seq 0 height) (replicate (width * height) 0))).
  { apply (fold_left_seq_inv (fun y out => P (y * width)%nat out)).
    - intros y out Hy HP.
      replace (S y * width)%nat with (y * width + width)%nat by lia.
      apply (fold_left_seq_inv (fun x out => P (y * width + x)%nat out));
        [|rewrite Nat.add_0_r; exact HP].
      intros x out' Hx [Hlen Hq]. unfold P, assignIndex.
      assert (Hin : (y * width + x < length out')%nat) by (rewrite Hlen; nia).
      split.
      + destruct (_ <? 128); rewrite length_insert; exact Hlen.
      + intros q Hlt. destruct (decide (q = y * width + x)%nat) as [->|Hne].
        * unfold indexOf. destruct (_ <? 128); rewrite list_lookup_insert_eq by exact Hin;
            reflexivity.
        * destruct (_ <? 128); rewrite list_lookup_insert_ne by congruence; apply Hq; lia.
    - split; [apply length_replicate|]. intros q Hq. lia. }
  destruct H as [Hlen Hq]. split; [exact Hlen|].
  intros q Hlt. apply Hq. lia.
Qed.

Lemma preserved_refl buf : preserved buf buf.
Proof. split; auto. Qed.

Lemma typedArraySet_full (n : nat) (source : list Z) :
  length source = n -> typedArraySet (replicate n 0) source = Normal source.
Proof.
  intros H. unfold typedArraySet. rewrite length_replicate.
  destruct (Nat.leb_spec (length source) n); [|lia].
  rewrite drop_ge by (rewrite length_replicate; lia). rewrite app_nil_r. reflexivity.
Qed.

(** The buffer that indices are assigned from: the image's own data, or
    its dithered copy; either way it has the image's size and alpha. *)
Lemma indexSource_spec imageData colorArray dither :
  wfImage imageData -> colorArray <> [] ->
  exists src, indexSource imageData colorArray dither = Normal src /\
              preserved (data imageData) src.
Proof.
  intros (_ & _ & Hlen & _) Hne. unfold indexSource. destruct dither.
  - destruct (ditherData_preserved (data imageData) (width imageData) (height imageData)
                colorArray (findClosestColor colorArray)) as (out & -> & Hp).
    { intros. apply findClosestColor_valid, Hne. }
    simpl. exists out. split; [|exact Hp].
    apply typedArraySet_full. destruct Hp as [-> _]. exact Hlen.
  - exists (data imageData). split; [reflexivity|apply preserved_refl].
Qed.

Lemma indexSource4Bit_spec imageData colorArray aggressive :
  wfImage imageData -> colorArray <> [] ->
  exists src, indexSource4Bit imageData colorArray aggressive
              = Normal (mkImageData (width imageData) (height imageData) src) /\
              preserved (data imageData) src.
Proof.
  intros (_ & _ & Hlen & _) Hne. unfold indexSource4Bit. destruct aggressive.
  - destruct (ditherData_preserved (data imageData) (width imageData) (height imageData)
                colorArray (findClosestColor colorArray)) as (out & -> & Hp).
    { intros. apply findClosestColor_valid, Hne. }
    simpl. exists out. split; [|exact Hp].
    rewrite typedArraySet_full; [reflexivity|]. destruct Hp as [-> _]. exact Hlen.
  - exists (data imageData). split; [destruct imageData; reflexivity|apply preserved_refl].
Qed.

Lemma palette_nonempty data (N : nat) colorArray :
  (0 < N)%nat -> medianCutQuantize data N = Normal colorArray -> colorArray <> [].
Proof.
  intros HN H. apply medianCutQuantize_length in H. intros ->. simpl in H. lia.
Qed.

Lemma wfImage_mixed3x2 : wfImage mixed3x2.
Proof.
  repeat split; simpl; try lia.
  repeat (constructor; [lia|]). constructor.
Qed.

(** ** Sequential writes *)

Lemma setUint8_ok view offset v :
  (offset < length view)%nat ->
  setUint8 view offset v = Normal (<[offset := v mod 256]> view).
Proof. intros H. unfold setUint8. destruct (Nat.ltb_spec offset (length view)); [reflexivity|lia]. Qed.

Lemma setUint16_ok view offset v :
  (offset + 2 <= length view)%nat ->
  exists view', setUint16 view offset v = Normal view' /\ length view' = length view.
Proof.
  intros H. unfold setUint16.
  destruct (Nat.leb_spec (offset + 2) (length view)); [|lia].
  eexists. split; [reflexivity|]. rewrite !length_insert. reflexivity.
Qed.

Lemma setUint32_ok view offset v :
  (offset + 4 <= length view)%nat ->
  exists view', setUint32 view offset v = Normal view' /\ length view' = length view.
Proof.
  intros H. unfold setUint32.
  destruct (Nat.leb_spec (offset + 4) (length view)); [|lia].
  eexists. split; [reflexivity|]. rewrite !length_insert. reflexivity.
Qed.

Lemma setUint8_len view offset v :
  (offset + 1 <= length view)%nat ->
  exists view', setUint8 view offset v = Normal view' /\ length view' = length view.
Proof.
  intros H. rewrite setUint8_ok by lia. eexists. split; [reflexivity|].
  apply length_insert.
Qed.

Lemma writeHeaders_ok view fileSize pixelDataOffset width height bitsPerPixel
    pixelArraySize paletteColors :
  (54 <= length view)%nat ->
  exists view',
    writeHeaders view fileSize pixelDataOffset width height bitsPerPixel
      pixelArraySize paletteColors = Normal view' /\
    length view' = length view.
Proof.
  intros H. unfold writeHeaders, setInt32.
  repeat match goal with
  | |- context [setUint8 ?v ?o ?x] =>
      let v' := fresh "view" in let E := fresh "E" in let L := fresh "L" in
      destruct (setUint8_len v o x) as (v' & E & L); [simpl; lia|];
      rewrite E; clear E; simpl cbind
  | |- context [setUint16 ?v ?o ?x] =>
      let v' := fresh "view" in let E := fresh "E" in let L := fresh "L" in
      destruct (setUint16_ok v o x) as (v' & E & L); [simpl; lia|];
      rewrite E; clear E; simpl cbind
  | |- context [setUint32 ?v ?o ?x] =>
      let v' := fresh "view" in let E := fresh "E" in let L := fresh "L" in
      destruct (setUint32_ok v o x) as (v' & E & L); [simpl; lia|];
      rewrite E; clear E; simpl cbind
  end.
  eexists. split; [reflexivity|]. lia.
Qed.

Lemma emits_put v : emits (put v) [v mod 256].
Proof.
  intros view offset H. simpl in H. unfold put. simpl fst. simpl snd.
  rewrite setUint8_ok by lia. simpl.
  rewrite insert_take_drop by lia.
  replace (offset + 1)%nat with (S offset) by lia. reflexivity.
Qed.

Lemma emits_nil : emits Normal [].
Proof.
  intros view offset _. simpl. rewrite Nat.add_0_r, take_drop. reflexivity.
Qed.

Lemma emits_bind w1 w2 l1 l2 :
  emits w1 l1 -> emits w2 l2 -> emits (fun s => let* s' := w1 s in w2 s') (l1 ++ l2).
Proof.
  intros H1 H2 view offset Hlen. rewrite length_app in Hlen.
  rewrite H1 by lia. simpl.
  rewrite H2.
  2:{ rewrite !length_app, length_take, length_drop. lia. }
  f_equal. f_equal.
  - rewrite take_app_ge by (rewrite length_take; lia).
    rewrite length_take, Nat.min_l by lia.
    rewrite take_app_ge by lia.
    replace (offset + length l1 - offset - length l1)%nat with 0%nat by lia.
    rewrite take_0, app_nil_r.
    rewrite drop_app_ge by (rewrite length_take; lia).
    rewrite length_take, Nat.min_l by lia.
    rewrite drop_app_ge by lia.
    rewrite drop_drop. rewrite <- !app_assoc. rewrite length_app. do 3 f_equal. f_equal. lia.
  - rewrite length_app. lia.
Qed.

Lemma emits_forM {A} (xs : list A) (body : A -> list Z * nat -> completion (list Z * nat))
    (f : A -> list Z) :
  (forall x, x ∈ xs -> emits (body x) (f x)) ->
  emits (forM xs body) (flat_map f xs).
Proof.
  induction xs as [|x xs IH]; intros H; simpl.
  - apply emits_nil.
  - apply (emits_bind (body x) (forM xs body)).
    + apply H. left.
    + apply IH. intros x' Hx'. apply H. right. exact Hx'.
Qed.

Lemma emits_padding n : emits (putPadding n) (replicate n 0).
Proof.
  unfold putPadding.
  replace (replicate n 0) with (flat_map (fun _ : nat => [0 mod 256]) (seq 0 n)).
  - apply emits_forM. intros _ _. apply emits_put.
  - change (0 mod 256) with 0. generalize 0%nat.
    induction n as [|n IH]; intros s; simpl; [reflexivity|]. rewrite IH. reflexivity.
Qed.

(** A writer that fills the rest of the view. *)
Lemma emits_run w bytes view offset :
  emits w bytes -> (offset + length bytes = length view)%nat ->
  w (view, offset) = Normal (take offset view ++ bytes, length view).
Proof.
  intros H Hlen. rewrite H by lia.
  rewrite drop_ge by lia. rewrite app_nil_r, Hlen. reflexivity.
Qed.

(** Rows of equal length laid out one after the other. *)
Lemma lookup_flat_map_rows {A} (f : nat -> list A) (len n : nat) :
  forall start i k,
    (forall j, (j < n)%nat -> length (f (start + j)%nat) = len) ->
    (i < n)%nat -> (k < len)%nat ->
    flat_map f (seq start n) !! (i * len + k)%nat = f (start + i)%nat !! k.
Proof.
  induction n as [|n IH]; intros start i k Hlen Hi Hk; [lia|].
  simpl. pose proof (Hlen 0%nat ltac:(lia)) as H0. rewrite Nat.add_0_r in H0.
  destruct i as [|i].
  - simpl. rewrite Nat.add_0_r. apply lookup_app_l. lia.
  - rewrite lookup_app_r by (rewrite H0; lia).
    replace (S i * len + k - length (f start))%nat with (i * len + k)%nat by (rewrite H0; lia).
    replace (start + S i)%nat with (S start + i)%nat by lia.
    apply IH; [|lia|lia].
    intros j Hj. replace (S start + j)%nat with (start + S j)%nat by lia. apply Hlen. lia.
Qed.

Lemma length_flat_map_rows {A} (f : nat -> list A) (len n : nat) :
  forall start,
    (forall j, (j < n)%nat -> length (f (start + j)%nat) = len) ->
    length (flat_map f (seq start n)) = (n * len)%nat.
Proof.
  induction n as [|n IH]; intros start Hlen; [reflexivity|].
  simpl. rewrite length_app. pose proof (Hlen 0%nat ltac:(lia)) as H0.
  rewrite Nat.add_0_r in H0. rewrite H0. rewrite (IH (S start)); [lia|].
  intros j Hj. replace (S start + j)%nat with (start + S j)%nat by lia. apply Hlen. lia.
Qed.

(** ** Row sizes *)

Lemma rowSize_bits (bits width : nat) :
  (bits * width <= 8 * ((bits * width + 31) / 32 * 4))%nat.
Proof.
  pose proof (Nat.div_mod_eq (bits * width + 31) 32) as H.
  pose proof (Nat.mod_upper_bound (bits * width + 31) 32 ltac:(lia)) as H'.
  lia.
Qed.

Lemma half_up_le (width n : nat) : (width <= 2 * n)%nat -> ((width + 1) / 2 <= n)%nat.
Proof.
  intros H. pose proof (Nat.div_mod_eq (width + 1) 2) as H1.
  pose proof (Nat.mod_upper_bound (width + 1) 2 ltac:(lia)) as H2. lia.
Qed.

Lemma readByte_byte (buf : list Z) (j : nat) :
  Forall (fun v => 0 <= v <= 255) buf -> 0 <= readByte buf j <= 255.
Proof.
  intros H. unfold readByte. destruct (buf !! j) as [v|] eqn:E; simpl; [|lia].
  eapply Forall_lookup_1 in E; [|exact H]. exact E.
Qed.

Lemma lookup_after_header {A} (hdr : list A) (f : nat -> list A) (n0 len n i k : nat) :
  length hdr = n0 ->
  (forall j, (j < n)%nat -> length (f j) = len) ->
  (i < n)%nat -> (k < len)%nat ->
  (hdr ++ flat_map f (seq 0 n)) !! (n0 + i * len + k)%nat = f i !! k.
Proof.
  intros Hh Hlen Hi Hk. rewrite lookup_app_r by lia.
  replace (n0 + i * len + k - length hdr)%nat with (i * len + k)%nat by lia.
  apply (lookup_flat_map_rows f len n 0 i k); [|exact Hi|exact Hk].
  intros j Hj. apply Hlen, Hj.
Qed.

(** ** The 24-bit encoder *)

Lemma pixelBytes24_row_length imageData y :
  length
    (flat_map
       (fun x =>
          let i := ((y * width imageData + x) * 4)%nat in
          [readByte (data imageData) (i + 2) mod 256;
           readByte (data imageData) (i + 1) mod 256;
           readByte (data imageData) i mod 256])
       (seq 0 (width imageData))
     ++ replicate ((24 * width imageData + 31) / 32 * 4 - width imageData * 3) 0)
  = ((24 * width imageData + 31) / 32 * 4)%nat.
Proof.
  rewrite length_app, length_replicate.
  rewrite (length_flat_map_rows _ 3 (width imageData) 0) by reflexivity.
  pose proof (rowSize_bits 24 (width imageData)). lia.
Qed.

Lemma encodeBMP_file imageData :
  exists hdr, length hdr = 54%nat /\
              encodeBMP imageData = Normal (hdr ++ pixelBytes24 imageData).
Proof.
  unfold encodeBMP. cbv zeta.
  destruct (writeHeaders_ok
              (replicate (54 + (24 * width imageData + 31) / 32 * 4 * height imageData) 0)
              (54 + (24 * width imageData + 31) / 32 * 4 * height imageData) 54
              (width imageData) (height imageData) 24
              ((24 * width imageData + 31) / 32 * 4 * height imageData) 0)
    as (view & -> & Hlen).
  { rewrite length_replicate. lia. }
  rewrite length_replicate in Hlen. unfold cbind at 1.
  match goal with |- context [forM ?xs ?body (view, 54%nat)] =>
    assert (Hemit : emits (forM xs body) (pixelBytes24 imageData)) end.
  { unfold pixelBytes24. cbv zeta. apply emits_forM. intros y _.
    apply (emits_bind (forM (seq 0 (width imageData)) _) (putPadding _)).
    - apply emits_forM. intros x _.
      apply (emits_bind (put _) (fun s => let* s2 := put _ s in put _ s2) [_] [_; _]).
      + apply emits_put.
      + apply (emits_bind (put _) (put _) [_] [_]); apply emits_put.
    - apply emits_padding. }
  rewrite (emits_run _ _ view 54 Hemit).
  - simpl. exists (take 54 view). split; [|reflexivity].
    rewrite length_take. lia.
  - unfold pixelBytes24. cbv zeta.
    rewrite (length_flat_map_rows _ ((24 * width imageData + 31) / 32 * 4)
               (height imageData) 0).
    + rewrite Hlen. lia.
    + intros j _. apply pixelBytes24_row_length.
Qed.

(** C5. The 24-bit encoder returns a file of 54 + rowSize·height bytes in
    which, for every pixel (x, y) whatever its alpha, the bytes at offset
    54 + y·rowSize + 3·x are the source's B, G and R; decoding the file
    gives back the RGB of the source at every pixel. *)
Theorem encodeBMP_lossless (imageData : ImageData) :
  wfImage imageData ->
  exists file,
    encodeBMP imageData = Normal file /\
    forall x y, (x < width imageData)%nat -> (y < height imageData)%nat ->
      let rowSize := ((24 * width imageData + 31) / 32 * 4)%nat in
      let offset := (54 + y * rowSize + 3 * x)%nat in
      let i := ((y * width imageData + x) * 4)%nat in
      file !! offset = Some (readByte (data imageData) (i + 2)) /\
      file !! (offset + 1)%nat = Some (readByte (data imageData) (i + 1)) /\
      file !! (offset + 2)%nat = Some (readByte (data imageData) i) /\
      decodeBMP24Pixel file (width imageData) x y = Some (pixelRGB imageData x y).
Proof.
  intros (_ & _ & _ & Hbytes).
  destruct (encodeBMP_file imageData) as (hdr & Hhdr & ->).
  eexists. split; [reflexivity|]. intros x y Hx Hy. cbv zeta.
  set (rowSize := ((24 * width imageData + 31) / 32 * 4)%nat).
  assert (Hbyte : forall c, (c < 3)%nat ->
            (hdr ++ pixelBytes24 imageData) !! (54 + y * rowSize + (3 * x + c))%nat
            = Some (readByte (data imageData) ((y * width imageData + x) * 4 + (2 - c)))).
  { intros c Hc. unfold pixelBytes24.
    pose proof (rowSize_bits 24 (width imageData)) as Hrow. fold rowSize in Hrow.
    cbv zeta. fold rowSize.
    rewrite (lookup_after_header hdr _ 54 rowSize (height imageData) y (3 * x + c));
      [|exact Hhdr|intros j _; apply pixelBytes24_row_length|exact Hy|lia].
    rewrite lookup_app_l by (rewrite (length_flat_map_rows _ 3 _ 0) by reflexivity; lia).
    replace (3 * x + c)%nat with (x * 3 + c)%nat by lia.
    rewrite (lookup_flat_map_rows _ 3 (width imageData) 0 x c); [|reflexivity|exact Hx|exact Hc].
    assert (Hm : forall j, readByte (data imageData) j mod 256 = readByte (data imageData) j).
    { intros j. apply Z.mod_small. pose proof (readByte_byte (data imageData) j Hbytes). lia. }
    rewrite Nat.add_0_l, !Hm.
    destruct c as [|[|[|c]]]; [| | |lia]; simpl;
      rewrite ?Nat.add_0_r; reflexivity. }
  pose proof (Hbyte 0%nat ltac:(lia)) as H0.
  pose proof (Hbyte 1%nat ltac:(lia)) as H1.
  pose proof (Hbyte 2%nat ltac:(lia)) as H2.
  rewrite Nat.add_0_r in H0. rewrite !Nat.add_assoc in H1, H2. simpl Nat.sub in *.
  rewrite Nat.add_0_r in H2.
  split; [exact H0|]. split; [exact H1|]. split; [exact H2|].
  unfold decodeBMP24Pixel. fold rowSize. rewrite H0, H1, H2. reflexivity.
Qed.

Lemma encodeBMP_lossless_witness :
  exists file,
    encodeBMP mixed3x2 = Normal file /\
    file !! (54 + 1 * 12 + 3 * 2)%nat = Some 250 /\
    decodeBMP24Pixel file 3 2 0 = Some (mkRGB 20 0 0).
Proof.
  destruct (encodeBMP_lossless mixed3x2 wfImage_mixed3x2) as (file & Hfile & Hpix).
  exists file. split; [exact Hfile|]. split.
  - apply (Hpix 2%nat 1%nat); simpl; lia.
  - apply (Hpix 2%nat 0%nat); simpl; lia.
Defined.

(** ** The palette encoders *)

Lemma paletteBytes_length entries colorArray :
  length (paletteBytes entries colorArray) = (entries * 4)%nat.
Proof. unfold paletteBytes. apply (length_flat_map_rows _ 4 entries 0). reflexivity. Qed.

Lemma emits_putPalette entries colorArray :
  emits (putPalette entries colorArray) (paletteBytes entries colorArray).
Proof.
  unfold putPalette, paletteBytes. apply emits_forM. intros i _. cbv zeta.
  apply (emits_bind (put _)
           (fun s => let* s1 := put _ s in let* s2 := put _ s1 in put _ s2) [_] [_; _; _]).
  - apply emits_put.
  - apply (emits_bind (put _) (fun s => let* s2 := put _ s in put _ s2) [_] [_; _]).
    + apply emits_put.
    + apply (emits_bind (put _) (put 0) [_] [0]); [apply emits_put|exact (emits_put 0)].
Qed.

Lemma palette_then_pixels view entries colorArray
    (w : list Z * nat -> completion (list Z * nat)) (pixels : list Z) :
  length view = (54 + entries * 4 + length pixels)%nat ->
  emits w pixels ->
  (let* s := putPalette entries colorArray (view, 54%nat) in
   let* s' := w s in Normal (fst s'))
  = Normal (take 54 view ++ paletteBytes entries colorArray ++ pixels).
Proof.
  intros Hlen Hw.
  pose proof (emits_bind _ _ _ _ (emits_putPalette entries colorArray) Hw) as H.
  specialize (H view 54%nat). cbv beta in H.
  rewrite length_app, paletteBytes_length in H. specialize (H ltac:(lia)).
  rewrite <- (cbind_assoc (putPalette entries colorArray (view, 54%nat)) w
                (fun s' => Normal (fst s'))).
  match type of H with _ = ?rhs =>
    assert (E : cbind (putPalette entries colorArray (view, 54%nat)) w = rhs) by exact H
  end.
  rewrite E. simpl.
  rewrite drop_ge by lia. rewrite app_nil_r. reflexivity.
Qed.

Lemma indexBytes8_row_length pixelIndices width y :
  length
    (flat_map (fun x => [readByte pixelIndices (y * width + x) mod 256]) (seq 0 width)
     ++ replicate ((8 * width + 31) / 32 * 4 - width) 0)
  = ((8 * width + 31) / 32 * 4)%nat.
Proof.
  rewrite length_app, length_replicate.
  rewrite (length_flat_map_rows _ 1 width 0) by reflexivity.
  pose proof (rowSize_bits 8 width). lia.
Qed.

Lemma indexBytes4_row_length pixelIndices width y :
  length
    (flat_map (fun k => [packedByte pixelIndices width y k mod 256]) (seq 0 ((width + 1) / 2))
     ++ replicate ((4 * width + 31) / 32 * 4 - (width + 1) / 2) 0)
  = ((4 * width + 31) / 32 * 4)%nat.
Proof.
  rewrite length_app, length_replicate.
  rewrite (length_flat_map_rows _ 1 ((width + 1) / 2) 0) by reflexivity.
  pose proof (rowSize_bits 4 width).
  pose proof (half_up_le width ((4 * width + 31) / 32 * 4) ltac:(lia)). lia.
Qed.

Lemma encodeBMP8Bit_file imageData dither colorArray src :
  build8BitPalette (data imageData) = Normal colorArray ->
  indexSource imageData colorArray dither = Normal src ->
  exists hdr, length hdr = 54%nat /\
    encodeBMP8Bit imageData dither =
      Normal (hdr ++ paletteBytes 256 colorArray ++
              indexBytes8 (assignIndices src (width imageData) (height imageData)
                             (findClosestColor colorArray))
                (width imageData) (height imageData)).
Proof.
  intros Hpal Hsrc. unfold encodeBMP8Bit. cbv zeta. rewrite Hpal. unfold cbind at 1.
  rewrite Hsrc. unfold cbind at 1.
  destruct (writeHeaders_ok
              (replicate (54 + 256 * 4 + (8 * width imageData + 31) / 32 * 4 * height imageData) 0)
              (54 + 256 * 4 + (8 * width imageData + 31) / 32 * 4 * height imageData)
              (54 + 256 * 4) (width imageData) (height imageData) 8
              ((8 * width imageData + 31) / 32 * 4 * height imageData) 256)
    as (view & -> & Hlen).
  { rewrite length_replicate. lia. }
  rewrite length_replicate in Hlen. unfold cbind at 1.
  rewrite (palette_then_pixels view 256 colorArray _
             (indexBytes8 (assignIndices src (width imageData) (height imageData)
                             (findClosestColor colorArray))
                (width imageData) (height imageData))).
  - exists (take 54 view). split; [|reflexivity]. rewrite length_take. lia.
  - unfold indexBytes8. cbv zeta.
    rewrite (length_flat_map_rows _ ((8 * width imageData + 31) / 32 * 4)
               (height imageData) 0); [lia|].
    intros j _. apply indexBytes8_row_length.
  - unfold indexBytes8. cbv zeta. apply emits_forM. intros y _.
    apply (emits_bind (forM (seq 0 (width imageData)) _) (putPadding _)).
    + apply emits_forM. intros x _. apply emits_put.
    + apply emits_padding.
Qed.

Lemma encodeBMP4BitFromData_file imageData colorArray findClosest :
  exists hdr, length hdr = 54%nat /\
    encodeBMP4BitFromData imageData colorArray findClosest =
      Normal (hdr ++ paletteBytes 16 colorArray ++
              indexBytes4 (assignIndices (data imageData) (width imageData)
                             (height imageData) findClosest)
                (width imageData) (height imageData)).
Proof.
  unfold encodeBMP4BitFromData. cbv zeta.
  destruct (writeHeaders_ok
              (replicate (54 + 16 * 4 + (4 * width imageData + 31) / 32 * 4 * height imageData) 0)
              (54 + 16 * 4 + (4 * width imageData + 31) / 32 * 4 * height imageData)
              (54 + 16 * 4) (width imageData) (height imageData) 4
              ((4 * width imageData + 31) / 32 * 4 * height imageData) 16)
    as (view & -> & Hlen).
  { rewrite length_replicate. lia. }
  rewrite length_replicate in Hlen. unfold cbind at 1.
  rewrite (palette_then_pixels view 16 colorArray _
             (indexBytes4 (assignIndices (data imageData) (width imageData)
                             (height imageData) findClosest)
                (width imageData) (height imageData))).
  - exists (take 54 view). split; [|reflexivity]. rewrite length_take. lia.
  - unfold indexBytes4. cbv zeta.
    rewrite (length_flat_map_rows _ ((4 * width imageData + 31) / 32 * 4)
               (height imageData) 0); [lia|].
    intros j _. apply indexBytes4_row_length.
  - unfold indexBytes4. cbv zeta. apply emits_forM. intros y _.
    apply (emits_bind (forM (seq 0 ((width imageData + 1) / 2)) _) (putPadding _)).
    + apply emits_forM. intros k _. unfold packedByte. cbv zeta. apply emits_put.
    + apply emits_padding.
Qed.

Lemma encodeBMP4Bit_file imageData aggressive colorArray src :
  build4BitPalette (data imageData) = Normal colorArray ->
  indexSource4Bit imageData colorArray aggressive
    = Normal (mkImageData (width imageData) (height imageData) src) ->
  exists hdr, length hdr = 54%nat /\
    encodeBMP4Bit imageData aggressive =
      Normal (hdr ++ paletteBytes 16 colorArray ++
              indexBytes4 (assignIndices src (width imageData) (height imageData)
                             (findClosestColor colorArray))
                (width imageData) (height imageData)).
Proof.
  intros Hpal Hsrc. unfold encodeBMP4Bit. rewrite Hpal. unfold cbind at 1.
  rewrite Hsrc. unfold cbind at 1.
  apply (encodeBMP4BitFromData_file
           (mkImageData (width imageData) (height imageData) src)).
Qed.

(** ** Nibbles *)

Lemma nibble_pack_all :
  forallb
    (fun a =>
       forallb
         (fun c =>
            let packed := Z.lor (Z.shiftl a 4) c in
            (packed <? 256) && (0 <=? packed) && (Z.shiftr packed 4 =? a)
            && (Z.land packed 15 =? c)
            && (Z.land (Z.shiftr packed 4) 15 =? a))
         (map Z.of_nat (seq 0 16)))
    (map Z.of_nat (seq 0 16)) = true.
Proof. vm_compute. reflexivity. Qed.

Lemma nibble_pack a c :
  0 <= a < 16 -> 0 <= c < 16 ->
  let packed := Z.lor (Z.shiftl a 4) c in
  0 <= packed < 256 /\ Z.shiftr packed 4 = a /\ Z.land packed 15 = c /\
  Z.land (Z.shiftr packed 4) 15 = a.
Proof.
  intros Ha Hc.
  assert (Hin : forall v, 0 <= v < 16 -> In v (map Z.of_nat (seq 0 16))).
  { intros v Hv. apply in_map_iff. exists (Z.to_nat v). split; [lia|]. apply in_seq. lia. }
  pose proof nibble_pack_all as H.
  rewrite forallb_forall in H. specialize (H a (Hin a Ha)).
  rewrite forallb_forall in H. specialize (H c (Hin c Hc)).
  cbv zeta in *.
  repeat (apply andb_prop in H; destruct H as [H ?]).
  repeat split; lia.
Qed.

Lemma indexOf_range data colorArray q :
  colorArray <> [] -> (length colorArray <= 256)%nat ->
  0 <= indexOf data (findClosestColor colorArray) q < Z.of_nat (length colorArray).
Proof.
  intros Hne Hlen. unfold indexOf. cbv zeta.
  destruct (_ <? 128).
  - destruct colorArray; [congruence|simpl; lia].
  - match goal with |- context [findClosestColor colorArray ?a ?c ?e] =>
      pose proof (findClosestColor_valid a c e colorArray Hne) as Hv end.
    apply lookup_lt_is_Some in Hv.
    rewrite Z.mod_small; lia.
Qed.

(** C9. Once the 16-entry palette is built, the 4-bit encoder returns a
    file in which the byte number k of row y, at offset
    118 + y·rowSize + k, holds the index of pixel x = 2k in its high nibble
    and, in its low nibble, the index of pixel x = 2k + 1, or 0 when that
    pixel is beyond the width (the last byte of a row of odd width); every
    index is below 16. *)
Theorem encodeBMP4Bit_packing (imageData : ImageData) (aggressive : bool)
    (colorArray : list RGB) :
  wfImage imageData ->
  build4BitPalette (data imageData) = Normal colorArray ->
  exists file pixelIndices,
    encodeBMP4Bit imageData aggressive = Normal file /\
    pixelIndices4Bit imageData aggressive = Normal pixelIndices /\
    (forall q, (q < width imageData * height imageData)%nat ->
               0 <= readByte pixelIndices q < 16) /\
    forall y k, (y < height imageData)%nat -> (k < (width imageData + 1) / 2)%nat ->
      let rowSize := ((4 * width imageData + 31) / 32 * 4)%nat in
      exists byte,
        file !! (118 + y * rowSize + k)%nat = Some byte /\
        0 <= byte < 256 /\
        Z.shiftr byte 4 = readByte pixelIndices (y * width imageData + 2 * k) /\
        Z.land byte 15 =
          (if (2 * k + 1 <? width imageData)%nat
           then readByte pixelIndices (y * width imageData + 2 * k + 1)
           else 0).
Proof.
  intros Hwf Hpal.
  pose proof (palette_nonempty _ 16 _ ltac:(lia) Hpal) as Hne.
  pose proof (medianCutQuantize_length _ _ _ Hpal) as Hlen16.
  destruct (indexSource4Bit_spec imageData colorArray aggressive Hwf Hne) as (src & Hsrc & _).
  destruct (encodeBMP4Bit_file imageData aggressive colorArray src Hpal Hsrc)
    as (hdr & Hhdr & Hfile).
  set (indices := assignIndices src (width imageData) (height imageData)
                    (findClosestColor colorArray)) in *.
  destruct (assignIndices_spec src (width imageData) (height imageData)
              (findClosestColor colorArray)) as [Hilen Hq].
  fold indices in Hilen, Hq.
  assert (Hrange : forall q, 0 <= readByte indices q < 16).
  { intros q. unfold readByte. destruct (indices !! q) as [v|] eqn:E; simpl; [|lia].
    rewrite Hq in E by (apply lookup_lt_Some in E; lia).
    injection E as <-.
    pose proof (indexOf_range src colorArray q Hne ltac:(lia)). lia. }
  exists (hdr ++ paletteBytes 16 colorArray ++
          indexBytes4 indices (width imageData) (height imageData)), indices.
  split; [exact Hfile|]. split.
  { unfold pixelIndices4Bit. rewrite Hpal. unfold cbind at 1. rewrite Hsrc. reflexivity. }
  split; [intros q _; apply Hrange|].
  intros y k Hy Hk. cbv zeta.
  set (rowSize := ((4 * width imageData + 31) / 32 * 4)%nat).
  exists (packedByte indices (width imageData) y k).
  assert (Hpack : 0 <= packedByte indices (width imageData) y k < 256 /\
            Z.shiftr (packedByte indices (width imageData) y k) 4
              = readByte indices (y * width imageData + 2 * k) /\
            Z.land (packedByte indices (width imageData) y k) 15
              = (if (2 * k + 1 <? width imageData)%nat
                 then readByte indices (y * width imageData + 2 * k + 1) else 0)).
  { unfold packedByte. cbv zeta.
    destruct (nibble_pack (readByte indices (y * width imageData + 2 * k))
                (if (2 * k + 1 <? width imageData)%nat
                 then readByte indices (y * width imageData + 2 * k + 1) else 0))
      as (H1 & H2 & H3 & _).
    - apply Hrange.
    - destruct (2 * k + 1 <? width imageData)%nat; [apply Hrange|lia].
    - cbv zeta in *. auto. }
  destruct Hpack as (Hb & Hhi & Hlo).
  split; [|split; [exact Hb|split; [exact Hhi|exact Hlo]]].
  rewrite app_assoc. unfold indexBytes4. cbv zeta. fold rowSize.
  replace (118 + y * rowSize + k)%nat with (118 + y * rowSize + k)%nat by reflexivity.
  rewrite (lookup_after_header (hdr ++ paletteBytes 16 colorArray) _ 118 rowSize
             (height imageData) y k).
  - rewrite lookup_app_l by (rewrite (length_flat_map_rows _ 1 _ 0) by reflexivity; lia).
    replace k with (k * 1 + 0)%nat at 1 by lia.
    rewrite (lookup_flat_map_rows _ 1 ((width imageData + 1) / 2) 0 k 0);
      [|reflexivity|exact Hk|lia].
    simpl. rewrite Z.mod_small by lia. reflexivity.
  - rewrite length_app, paletteBytes_length. lia.
  - intros j _. apply indexBytes4_row_length.
  - exact Hy.
  - pose proof (rowSize_bits 4 (width imageData)).
    pose proof (half_up_le (width imageData) rowSize ltac:(unfold rowSize; lia)). lia.
Qed.

Lemma encodeBMP4Bit_packing_witness :
  exists file byte,
    encodeBMP4Bit mixed3x2 true = Normal file /\
    file !! (118 + 0 * 4 + 1)%nat = Some byte /\
    Z.land byte 15 = 0.
Proof.
  destruct (build4BitPalette (data mixed3x2)) as [pal| |] eqn:E;
    [|vm_compute in E; discriminate E|vm_compute in E; discriminate E].
  destruct (encodeBMP4Bit_packing mixed3x2 true pal wfImage_mixed3x2 E)
    as (file & indices & Hfile & _ & _ & Hbytes).
  destruct (Hbytes 0%nat 1%nat) as (byte & Hbyte & _ & _ & Hlow); [simpl; lia|simpl; lia|].
  exists file, byte. split; [exact Hfile|]. split; [exact Hbyte|exact Hlow].
Defined.

(** ** The requantiser *)

Example toUint8Clamp16_rounding :
  toUint8Clamp16 (16 * 10 + 8) = 10 /\ toUint8Clamp16 (16 * 11 + 8) = 12 /\
  toUint8Clamp16 (16 * 10 + 7) = 10 /\ toUint8Clamp16 (16 * 10 + 9) = 11 /\
  toUint8Clamp16 (-5) = 0 /\ toUint8Clamp16 (16 * 300) = 255.
Proof. repeat split; reflexivity. Qed.

Lemma toUint8Clamp_byte v : 0 <= v <= 255 -> toUint8Clamp v = v.
Proof. intros H. unfold toUint8Clamp. lia. Qed.

Lemma set4_spec (out : list Z) (i : nat) (v0 v1 v2 v3 : Z) :
  (i + 3 < length out)%nat ->
  let out' := <[(i + 3)%nat := v3]> (<[(i + 2)%nat := v2]> (<[(i + 1)%nat := v1]> (<[i := v0]> out))) in
  length out' = length out /\
  out' !! i = Some v0 /\ out' !! (i + 1)%nat = Some v1 /\
  out' !! (i + 2)%nat = Some v2 /\ out' !! (i + 3)%nat = Some v3 /\
  forall j, (j < i)%nat -> out' !! j = out !! j.
Proof.
  intros H. cbv zeta. split; [rewrite !length_insert; reflexivity|].
  split. { rewrite !list_lookup_insert_ne by lia. apply list_lookup_insert_eq. lia. }
  split. { rewrite !list_lookup_insert_ne by lia. apply list_lookup_insert_eq.
           rewrite !length_insert. lia. }
  split. { rewrite !list_lookup_insert_ne by lia. apply list_lookup_insert_eq.
           rewrite !length_insert. lia. }
  split. { apply list_lookup_insert_eq. rewrite !length_insert. lia. }
  intros j Hj. rewrite !list_lookup_insert_ne by lia. reflexivity.
Qed.

Lemma quantizeImageData_spec src w h colorArray findClosest :
  (forall r0 g0 b0, is_Some (colorArray !! findClosest r0 g0 b0)) ->
  Forall rgbOk colorArray ->
  exists out,
    quantizeImageData (mkImageData w h src) colorArray findClosest
      = Normal (mkImageData w h out) /\
    length out = (4 * w * h)%nat /\
    forall q, (q < w * h)%nat ->
      out !! (q * 4)%nat = Some (r (quantizedRGB src colorArray findClosest q)) /\
      out !! (q * 4 + 1)%nat = Some (g (quantizedRGB src colorArray findClosest q)) /\
      out !! (q * 4 + 2)%nat = Some (b (quantizedRGB src colorArray findClosest q)) /\
      out !! (q * 4 + 3)%nat = Some (toUint8Clamp (readByte src (q * 4 + 3))).
Proof.
  intros Hvalid Hpal. unfold quantizeImageData, newImageData. cbn [width height data].
  set (P := fun (n : nat) (out : list Z) =>
              length out = (4 * w * h)%nat /\
              forall q, (q < n)%nat ->
                out !! (q * 4)%nat = Some (r (quantizedRGB src colorArray findClosest q)) /\
                out !! (q * 4 + 1)%nat = Some (g (quantizedRGB src colorArray findClosest q)) /\
                out !! (q * 4 + 2)%nat = Some (b (quantizedRGB src colorArray findClosest q)) /\
                out !! (q * 4 + 3)%nat = Some (toUint8Clamp (readByte src (q * 4 + 3)))).
  match goal with |- context [cbind (forM (seq 0 h) ?body ?init) _] =>
    destruct (forM_seq_inv (fun y out => P (y * w)%nat out) h body) with (s0 := init)
      as (out & -> & Hlen & Hq)
  end.
  - intros y out Hy HP.
    replace (S y * w)%nat with (y * w + w)%nat by lia.
    apply (forM_seq_inv (fun x out => P (y * w + x)%nat out));
      [|rewrite Nat.add_0_r; exact HP].
    intros x out' Hx [Hlen Hq]. unfold quantizePixel, setClamped. cbv zeta.
    replace (y * w + S x)%nat with (S (y * w + x)) by lia.
    set (p := (y * w + x)%nat).
    assert (Hin : (p * 4 + 3 < length out')%nat) by (rewrite Hlen; unfold p; nia).
    assert (Hstep : forall v0 v1 v2,
              v0 = r (quantizedRGB src colorArray findClosest p) ->
              v1 = g (quantizedRGB src colorArray findClosest p) ->
              v2 = b (quantizedRGB src colorArray findClosest p) ->
              P (S p)
                (<[(p * 4 + 3)%nat := toUint8Clamp (readByte src (p * 4 + 3))]>
                   (<[(p * 4 + 2)%nat := v2]> (<[(p * 4 + 1)%nat := v1]>
                      (<[(p * 4)%nat := v0]> out'))))).
    { intros v0 v1 v2 -> -> ->.
      destruct (set4_spec out' (p * 4)
                  (r (quantizedRGB src colorArray findClosest p))
                  (g (quantizedRGB src colorArray findClosest p))
                  (b (quantizedRGB src colorArray findClosest p))
                  (toUint8Clamp (readByte src (p * 4 + 3))) Hin)
        as (Hl & H0 & H1 & H2 & H3 & Hother).
      split; [rewrite Hl; exact Hlen|].
      intros q Hlt. destruct (decide (q = p)) as [->|Hne]; [auto|].
      rewrite !Hother by lia. apply Hq. fold p. lia. }
    unfold quantizedRGB in Hstep. cbv zeta in Hstep.
    destruct (readByte src (p * 4 + 3) <? 128).
    + eexists. split; [reflexivity|]. apply Hstep; reflexivity.
    + destruct (Hvalid (readByte src (p * 4)) (readByte src (p * 4 + 1))
                  (readByte src (p * 4 + 2))) as [c Hc].
      rewrite Hc in Hstep |- *. simpl in Hstep.
      eexists. split; [reflexivity|].
      eapply Forall_lookup_1 in Hc; [|exact Hpal]. destruct Hc as (Hr & Hg & Hb).
      apply Hstep; apply toUint8Clamp_byte; assumption.
  - split; [rewrite length_replicate; lia|]. intros q Hq. lia.
  - simpl. exists out. split; [reflexivity|]. split; [exact Hlen|].
    intros q Hlt. apply Hq. lia.
Qed.

(** ** Decoding *)

Lemma getUint8_ok view offset v : view !! offset = Some v -> getUint8 view offset = Normal v.
Proof. intros H. unfold getUint8. rewrite H. reflexivity. Qed.

Lemma paletteBytes_lookup entries colorArray i c :
  (i < entries)%nat -> (c < 4)%nat ->
  paletteBytes entries colorArray !! (i * 4 + c)%nat =
    [b (default black (colorArray !! i)) mod 256;
     g (default black (colorArray !! i)) mod 256;
     r (default black (colorArray !! i)) mod 256; 0] !! c.
Proof.
  intros Hi Hc. unfold paletteBytes.
  rewrite (lookup_flat_map_rows _ 4 entries 0 i c); [reflexivity|reflexivity|exact Hi|exact Hc].
Qed.

Lemma readPalette_file hdr colorArray rest entries :
  length hdr = 54%nat -> length colorArray = entries -> Forall rgbOk colorArray ->
  readPalette (hdr ++ paletteBytes entries colorArray ++ rest) entries = Normal colorArray.
Proof.
  intros Hhdr Hlen Hok. unfold readPalette.
  match goal with |- forM _ ?body _ = _ =>
    destruct (forM_seq_inv (fun i palette => palette = take i colorArray) entries body)
      with (s0 := @nil RGB) as (palette & -> & ->)
  end.
  - intros i palette Hi ->.
    destruct (lookup_lt_is_Some_2 colorArray i ltac:(lia)) as [c Hc].
    eapply Forall_lookup_1 in Hok as (Hr & Hg & Hb); [|exact Hc].
    assert (Hbyte : forall k, (k < 4)%nat ->
              (hdr ++ paletteBytes entries colorArray ++ rest) !! (54 + i * 4 + k)%nat
              = [b c; g c; r c; 0] !! k).
    { intros k Hk. rewrite lookup_app_r by lia.
      replace (54 + i * 4 + k - length hdr)%nat with (i * 4 + k)%nat by lia.
      rewrite lookup_app_l by (rewrite paletteBytes_length; lia).
      rewrite paletteBytes_lookup by assumption. rewrite Hc. simpl.
      rewrite !Z.mod_small by lia. reflexivity. }
    pose proof (Hbyte 0%nat ltac:(lia)) as H0. rewrite Nat.add_0_r in H0.
    rewrite (getUint8_ok _ _ _ H0). unfold cbind at 1.
    rewrite (getUint8_ok _ _ _ (Hbyte 1%nat ltac:(lia))). unfold cbind at 1.
    rewrite (getUint8_ok _ _ _ (Hbyte 2%nat ltac:(lia))). unfold cbind at 1.
    eexists. split; [reflexivity|].
    rewrite (take_S_r _ _ _ Hc). destruct c; reflexivity.
  - reflexivity.
  - rewrite take_ge by lia. reflexivity.
Qed.

Lemma map_seq_snoc {A} (f : nat -> A) (n : nat) :
  map f (seq 0 n) ++ [f n] = map f (seq 0 (S n)).
Proof. rewrite seq_S, map_app. reflexivity. Qed.

Lemma indexBytes8_lookup hdr indices width height y x :
  length hdr = 1078%nat -> (y < height)%nat -> (x < width)%nat ->
  (hdr ++ indexBytes8 indices width height) !!
    (1078 + y * ((8 * width + 31) / 32 * 4) + x)%nat
  = Some (readByte indices (y * width + x) mod 256).
Proof.
  intros Hhdr Hy Hx. unfold indexBytes8. cbv zeta.
  pose proof (rowSize_bits 8 width) as Hrow.
  rewrite (lookup_after_header hdr _ 1078 ((8 * width + 31) / 32 * 4) height y x);
    [|exact Hhdr|intros j _; apply indexBytes8_row_length|exact Hy|lia].
  rewrite lookup_app_l by (rewrite (length_flat_map_rows _ 1 _ 0) by reflexivity; lia).
  replace x with (x * 1 + 0)%nat at 1 by lia.
  rewrite (lookup_flat_map_rows _ 1 width 0 x 0); [reflexivity|reflexivity|exact Hx|lia].
Qed.

Lemma extractBMP8BitColors_file hdr colorArray indices w h :
  length hdr = 54%nat -> length colorArray = 256%nat -> Forall rgbOk colorArray ->
  (forall q, 0 <= readByte indices q < 256) ->
  extractBMP8BitColors (hdr ++ paletteBytes 256 colorArray ++ indexBytes8 indices w h) w h
  = Normal (map (fun q => colorArray !! Z.to_nat (readByte indices q)) (seq 0 (w * h))).
Proof.
  intros Hhdr Hlen Hok Hidx. unfold extractBMP8BitColors. cbv zeta.
  rewrite (readPalette_file hdr colorArray _ 256 Hhdr Hlen Hok). unfold cbind at 1.
  set (file := hdr ++ paletteBytes 256 colorArray ++ indexBytes8 indices w h).
  set (rowSize := ((8 * w + 31) / 32 * 4)%nat).
  set (pix := fun q => colorArray !! Z.to_nat (readByte indices q)).
  assert (Hfile : forall y x, (y < h)%nat -> (x < w)%nat ->
            file !! (1078 + y * rowSize + x)%nat = Some (readByte indices (y * w + x))).
  { intros y x Hy Hx. unfold file. rewrite app_assoc.
    rewrite (indexBytes8_lookup _ indices w h y x);
      [|rewrite length_app, paletteBytes_length; lia|exact Hy|exact Hx].
    rewrite Z.mod_small by apply Hidx. reflexivity. }
  pose proof (rowSize_bits 8 w) as Hrow. fold rowSize in Hrow.
  match goal with |- cbind (forM _ ?body ?init) _ = _ =>
    destruct (forM_seq_inv
                (fun y s => s = (map pix (seq 0 (y * w)), (1078 + y * rowSize)%nat)) h body)
      with (s0 := init) as (s & -> & ->)
  end.
  - intros y s Hy ->.
    match goal with |- context [forM (seq 0 w) ?inner ?init] =>
      destruct (forM_seq_inv
                  (fun x s => s = (map pix (seq 0 (y * w + x)), (1078 + y * rowSize + x)%nat))
                  w inner) with (s0 := init) as (s & -> & ->)
    end.
    + intros x s Hx ->. cbn [fst snd].
      rewrite (getUint8_ok _ _ _ (Hfile y x Hy Hx)). unfold cbind at 1.
      eexists. split; [reflexivity|].
      rewrite (map_seq_snoc pix). f_equal; [f_equal; f_equal; lia|lia].
    + rewrite !Nat.add_0_r. reflexivity.
    + unfold cbind at 1. cbn [fst snd]. eexists. split; [reflexivity|].
      f_equal; [f_equal; f_equal; lia|lia].
  - reflexivity.
  - simpl. do 3 f_equal. lia.
Qed.

Lemma indexBytes4_lookup hdr indices width height y k :
  length hdr = 118%nat -> (y < height)%nat -> (k < (width + 1) / 2)%nat ->
  (hdr ++ indexBytes4 indices width height) !!
    (118 + y * ((4 * width + 31) / 32 * 4) + k)%nat
  = Some (packedByte indices width y k mod 256).
Proof.
  intros Hhdr Hy Hk. unfold indexBytes4. cbv zeta.
  pose proof (rowSize_bits 4 width) as Hrow.
  pose proof (half_up_le width ((4 * width + 31) / 32 * 4) ltac:(lia)) as Hhalf.
  rewrite (lookup_after_header hdr _ 118 ((4 * width + 31) / 32 * 4) height y k);
    [|exact Hhdr|intros j _; apply indexBytes4_row_length|exact Hy|lia].
  rewrite lookup_app_l by (rewrite (length_flat_map_rows _ 1 _ 0) by reflexivity; lia).
  replace k with (k * 1 + 0)%nat at 1 by lia.
  rewrite (lookup_flat_map_rows _ 1 ((width + 1) / 2) 0 k 0);
    [reflexivity|reflexivity|exact Hk|lia].
Qed.

Lemma half_up_bounds (w k : nat) :
  (k < (w + 1) / 2)%nat -> (2 * k < w)%nat.
Proof.
  intros H. pose proof (Nat.div_mod_eq (w + 1) 2) as H1.
  pose proof (Nat.mod_upper_bound (w + 1) 2 ltac:(lia)) as H2. lia.
Qed.

Lemma half_up_covers (w : nat) : (w <= 2 * ((w + 1) / 2))%nat.
Proof.
  pose proof (Nat.div_mod_eq (w + 1) 2) as H1.
  pose proof (Nat.mod_upper_bound (w + 1) 2 ltac:(lia)) as H2. lia.
Qed.

Lemma extractBMP4BitColors_file hdr colorArray indices w h :
  length hdr = 54%nat -> length colorArray = 16%nat -> Forall rgbOk colorArray ->
  (forall q, 0 <= readByte indices q < 16) ->
  extractBMP4BitColors (hdr ++ paletteBytes 16 colorArray ++ indexBytes4 indices w h) w h
  = Normal (map (fun q => colorArray !! Z.to_nat (readByte indices q)) (seq 0 (w * h))).
Proof.
  intros Hhdr Hlen Hok Hidx. unfold extractBMP4BitColors. cbv zeta.
  rewrite (readPalette_file hdr colorArray _ 16 Hhdr Hlen Hok). unfold cbind at 1.
  set (file := hdr ++ paletteBytes 16 colorArray ++ indexBytes4 indices w h).
  set (rowSize := ((4 * w + 31) / 32 * 4)%nat).
  set (pix := fun q => colorArray !! Z.to_nat (readByte indices q)).
  assert (Hfile : forall y k, (y < h)%nat -> (k < (w + 1) / 2)%nat ->
            exists byte,
              file !! (118 + y * rowSize + k)%nat = Some byte /\
              Z.land (Z.shiftr byte 4) 15 = readByte indices (y * w + 2 * k) /\
              Z.land byte 15 =
                (if (2 * k + 1 <? w)%nat then readByte indices (y * w + 2 * k + 1) else 0)).
  { intros y k Hy Hk. unfold file. rewrite app_assoc.
    rewrite (indexBytes4_lookup _ indices w h y k);
      [|rewrite length_app, paletteBytes_length; lia|exact Hy|exact Hk].
    unfold packedByte. cbv zeta.
    destruct (nibble_pack (readByte indices (y * w + 2 * k))
                (if (2 * k + 1 <? w)%nat then readByte indices (y * w + 2 * k + 1) else 0))
      as (H1 & H2 & H3 & H4).
    - apply Hidx.
    - destruct (2 * k + 1 <? w)%nat; [apply Hidx|lia].
    - cbv zeta in *. eexists. split; [reflexivity|].
      rewrite Z.mod_small by lia. auto. }
  match goal with |- cbind (forM _ ?body ?init) _ = _ =>
    destruct (forM_seq_inv
                (fun y s => s = (map pix (seq 0 (y * w)), (118 + y * rowSize)%nat)) h body)
      with (s0 := init) as (s & -> & ->)
  end.
  - intros y s Hy ->.
    match goal with |- context [forM (seq 0 ((w + 1) / 2)) ?inner ?init] =>
      destruct (forM_seq_inv
                  (fun k s => s = (map pix (seq 0 (y * w + Nat.min (2 * k) w)),
                                   (118 + y * rowSize + k)%nat))
                  ((w + 1) / 2) inner) with (s0 := init) as (s & -> & ->)
    end.
    + intros k s Hk ->. cbn [fst snd].
      destruct (Hfile y k Hy Hk) as (byte & Hbyte & Hhi & Hlo).
      rewrite (getUint8_ok _ _ _ Hbyte). unfold cbind at 1.
      pose proof (half_up_bounds w k Hk) as H2k.
      rewrite Hhi, Hlo.
      replace (y * w + Nat.min (2 * k) w)%nat with (y * w + 2 * k)%nat by lia.
      eexists. split; [reflexivity|].
      destruct (Nat.ltb_spec (2 * k + 1) w) as [Hlt|Hge].
      * change (colorArray !! Z.to_nat (readByte indices (y * w + 2 * k)))
          with (pix (y * w + 2 * k)%nat).
        change (colorArray !! Z.to_nat (readByte indices (y * w + 2 * k + 1)))
          with (pix (y * w + 2 * k + 1)%nat).
        rewrite (map_seq_snoc pix).
        replace (y * w + 2 * k + 1)%nat with (S (y * w + 2 * k)) by lia.
        rewrite (map_seq_snoc pix).
        f_equal; [f_equal; f_equal; lia|lia].
      * change (colorArray !! Z.to_nat (readByte indices (y * w + 2 * k)))
          with (pix (y * w + 2 * k)%nat).
        rewrite (map_seq_snoc pix). f_equal; [f_equal; f_equal; lia|lia].
    + rewrite !Nat.add_0_r. reflexivity.
    + unfold cbind at 1. cbn [fst snd]. eexists. split; [reflexivity|].
      pose proof (half_up_covers w) as Hc.
      pose proof (rowSize_bits 4 w) as Hrow. fold rowSize in Hrow.
      pose proof (half_up_le w rowSize ltac:(lia)) as Hhalf.
      f_equal; [f_equal; f_equal; lia|lia].
  - reflexivity.
  - simpl. do 3 f_equal. lia.
Qed.

(** ** Transparent pixels in the palette encoders *)

Lemma assignIndices_range data w h colorArray :
  colorArray <> [] -> (length colorArray <= 256)%nat ->
  forall q, 0 <= readByte (assignIndices data w h (findClosestColor colorArray)) q
            < Z.of_nat (length colorArray).
Proof.
  intros Hne Hlen q.
  destruct (assignIndices_spec data w h (findClosestColor colorArray)) as [Hl Hq].
  unfold readByte.
  destruct (assignIndices data w h (findClosestColor colorArray) !! q) as [v|] eqn:E; simpl.
  - rewrite Hq in E by (apply lookup_lt_Some in E; lia).
    injection E as <-. apply indexOf_range; assumption.
  - destruct colorArray; [congruence|simpl; lia].
Qed.

Lemma assignIndices_readByte data w h findClosest q :
  (q < w * h)%nat ->
  readByte (assignIndices data w h findClosest) q = indexOf data findClosest q.
Proof.
  intros Hq. destruct (assignIndices_spec data w h findClosest) as [_ H].
  unfold readByte. rewrite H by exact Hq. reflexivity.
Qed.

Lemma half_of_even (m : nat) : ((2 * m) / 2 = m)%nat.
Proof. symmetry. apply (Nat.div_unique _ 2 m 0); lia. Qed.

Lemma half_of_odd (m : nat) : ((2 * m + 1) / 2 = m)%nat.
Proof. symmetry. apply (Nat.div_unique _ 2 m 1); lia. Qed.

Lemma half_lt_half_up (x w : nat) : (x < w)%nat -> (x / 2 < (w + 1) / 2)%nat.
Proof.
  intros H.
  pose proof (Nat.div_mod_eq x 2) as H1.
  pose proof (Nat.mod_upper_bound x 2 ltac:(lia)) as H2.
  pose proof (Nat.div_mod_eq (w + 1) 2) as H3.
  pose proof (Nat.mod_upper_bound (w + 1) 2 ltac:(lia)) as H4. lia.
Qed.

(** C6. Once the palette is built, both palette encoders produce their
    index array, with one entry per pixel, and their file; every pixel
    whose alpha is below 128 (in the image, and equally in the possibly
    dithered buffer that indices are assigned from) has index 0 in the
    array, and the file stores 0 for it: as the pixel's byte at 8 bits, as
    the pixel's nibble at 4 bits; this for either flag value. *)
Theorem transparent_pixels_get_index_zero (imageData : ImageData) (flag : bool) :
  wfImage imageData ->
  (forall colorArray, build8BitPalette (data imageData) = Normal colorArray ->
     exists src pixelIndices file,
       indexSource imageData colorArray flag = Normal src /\
       pixelIndices8Bit imageData flag = Normal pixelIndices /\
       encodeBMP8Bit imageData flag = Normal file /\
       length pixelIndices = (width imageData * height imageData)%nat /\
       forall x y, (x < width imageData)%nat -> (y < height imageData)%nat ->
         (pixelAlpha imageData x y =
            readByte src ((y * width imageData + x) * 4 + 3)) /\
         (pixelAlpha imageData x y < 128 ->
            pixelIndices !! (y * width imageData + x)%nat = Some 0 /\
            file !! (1078 + y * ((8 * width imageData + 31) / 32 * 4) + x)%nat = Some 0)) /\
  (forall colorArray, build4BitPalette (data imageData) = Normal colorArray ->
     exists src pixelIndices file,
       indexSource4Bit imageData colorArray flag = Normal src /\
       pixelIndices4Bit imageData flag = Normal pixelIndices /\
       encodeBMP4Bit imageData flag = Normal file /\
       length pixelIndices = (width imageData * height imageData)%nat /\
       forall x y, (x < width imageData)%nat -> (y < height imageData)%nat ->
         (pixelAlpha imageData x y =
            readByte (data src) ((y * width imageData + x) * 4 + 3)) /\
         (pixelAlpha imageData x y < 128 ->
            pixelIndices !! (y * width imageData + x)%nat = Some 0 /\
            exists byte,
              file !! (118 + y * ((4 * width imageData + 31) / 32 * 4) + x / 2)%nat
                = Some byte /\
              (if Nat.even x then Z.shiftr byte 4 else Z.land byte 15) = 0)).
Proof.
  intros Hwf. split.
  - intros colorArray Hpal.
    pose proof (palette_nonempty _ 256 _ ltac:(lia) Hpal) as Hne.
    destruct (indexSource_spec imageData colorArray flag Hwf Hne) as (src & Hsrc & Hp).
    destruct (assignIndices_spec src (width imageData) (height imageData)
                (findClosestColor colorArray)) as [Hlen Hq].
    destruct (encodeBMP8Bit_file imageData flag colorArray src Hpal Hsrc)
      as (hdr & Hhdr & Hfile).
    eexists src, _, _.
    split; [exact Hsrc|]. split.
    { unfold pixelIndices8Bit. rewrite Hpal. unfold cbind at 1. rewrite Hsrc. reflexivity. }
    split; [exact Hfile|]. split; [exact Hlen|].
    intros x y Hx Hy.
    assert (Ha : pixelAlpha imageData x y = readByte src ((y * width imageData + x) * 4 + 3)).
    { unfold pixelAlpha. symmetry. apply preserved_alpha, Hp. }
    split; [exact Ha|]. intros Halpha.
    assert (Hzero : indexOf src (findClosestColor colorArray) (y * width imageData + x) = 0).
    { unfold indexOf. rewrite <- Ha.
      destruct (Z.ltb_spec (pixelAlpha imageData x y) 128); [reflexivity|lia]. }
    split.
    + rewrite Hq by nia. rewrite Hzero. reflexivity.
    + rewrite app_assoc.
      rewrite indexBytes8_lookup;
        [|rewrite length_app, paletteBytes_length; lia|exact Hy|exact Hx].
      rewrite assignIndices_readByte by nia. rewrite Hzero. reflexivity.
  - intros colorArray Hpal.
    pose proof (palette_nonempty _ 16 _ ltac:(lia) Hpal) as Hne.
    pose proof (medianCutQuantize_length _ _ _ Hpal) as Hlen16.
    destruct (indexSource4Bit_spec imageData colorArray flag Hwf Hne) as (src & Hsrc & Hp).
    destruct (assignIndices_spec src (width imageData) (height imageData)
                (findClosestColor colorArray)) as [Hlen Hq].
    destruct (encodeBMP4Bit_file imageData flag colorArray src Hpal Hsrc)
      as (hdr & Hhdr & Hfile).
    eexists (mkImageData (width imageData) (height imageData) src), _, _.
    split; [exact Hsrc|]. split.
    { unfold pixelIndices4Bit. rewrite Hpal. unfold cbind at 1. rewrite Hsrc. reflexivity. }
    split; [exact Hfile|]. split; [exact Hlen|].
    intros x y Hx Hy. cbn [data].
    assert (Ha : pixelAlpha imageData x y = readByte src ((y * width imageData + x) * 4 + 3)).
    { unfold pixelAlpha. symmetry. apply preserved_alpha, Hp. }
    split; [exact Ha|]. intros Halpha.
    assert (Hzero : indexOf src (findClosestColor colorArray) (y * width imageData + x) = 0).
    { unfold indexOf. rewrite <- Ha.
      destruct (Z.ltb_spec (pixelAlpha imageData x y) 128); [reflexivity|lia]. }
    split; [rewrite Hq by nia; rewrite Hzero; reflexivity|].
    set (indices := assignIndices src (width imageData) (height imageData)
                      (findClosestColor colorArray)) in *.
    assert (Hidx : readByte indices (y * width imageData + x) = 0).
    { unfold indices. rewrite assignIndices_readByte by nia. exact Hzero. }
    assert (Hrange : forall q, 0 <= readByte indices q < 16).
    { intros q. pose proof (assignIndices_range src (width imageData) (height imageData)
                              colorArray Hne ltac:(lia) q). fold indices in H. lia. }
    pose proof (half_lt_half_up x (width imageData) Hx) as Hk.
    exists (packedByte indices (width imageData) y (x / 2)).
    split.
    { rewrite app_assoc.
      rewrite indexBytes4_lookup;
        [|rewrite length_app, paletteBytes_length; lia|exact Hy|exact Hk].
      unfold packedByte. cbv zeta.
      destruct (nibble_pack (readByte indices (y * width imageData + 2 * (x / 2)))
                  (if (2 * (x / 2) + 1 <? width imageData)%nat
                   then readByte indices (y * width imageData + 2 * (x / 2) + 1) else 0))
        as (H1 & _).
      - apply Hrange.
      - destruct (2 * (x / 2) + 1 <? width imageData)%nat; [apply Hrange|lia].
      - cbv zeta in H1. rewrite Z.mod_small by lia. reflexivity. }
    unfold packedByte. cbv zeta.
    destruct (nibble_pack (readByte indices (y * width imageData + 2 * (x / 2)))
                (if (2 * (x / 2) + 1 <? width imageData)%nat
                 then readByte indices (y * width imageData + 2 * (x / 2) + 1) else 0))
      as (_ & H2 & H3 & _).
    + apply Hrange.
    + destruct (2 * (x / 2) + 1 <? width imageData)%nat; [apply Hrange|lia].
    + cbv zeta in H2, H3.
      destruct (Nat.even x) eqn:Ev.
      * apply Nat.even_spec in Ev as [m ->]. rewrite H2, half_of_even. exact Hidx.
      * assert (Hodd : Nat.odd x = true) by (rewrite <- Nat.negb_even, Ev; reflexivity).
        apply Nat.odd_spec in Hodd as [m ->].
        rewrite H3, half_of_odd.
        destruct (Nat.ltb_spec (2 * m + 1) (width imageData)) as [_|Hge]; [|lia].
        rewrite <- Hidx. f_equal. lia.
Qed.

Lemma transparent_pixels_get_index_zero_witness :
  wfImage mixed3x2 /\
  (exists pixelIndices file,
     pixelIndices8Bit mixed3x2 true = Normal pixelIndices /\
     encodeBMP8Bit mixed3x2 true = Normal file /\
     pixelIndices !! 2%nat = Some 0 /\ file !! 1080%nat = Some 0) /\
  (exists pixelIndices file byte,
     pixelIndices4Bit mixed3x2 true = Normal pixelIndices /\
     encodeBMP4Bit mixed3x2 true = Normal file /\
     pixelIndices !! 2%nat = Some 0 /\
     file !! 119%nat = Some byte /\ Z.shiftr byte 4 = 0).
Proof.
  split; [exact wfImage_mixed3x2|].
  destruct (transparent_pixels_get_index_zero mixed3x2 true wfImage_mixed3x2) as [H8 H4].
  split.
  - destruct (build8BitPalette (data mixed3x2)) as [pal| |] eqn:E;
      [|vm_compute in E; discriminate E|vm_compute in E; discriminate E].
    destruct (H8 pal eq_refl) as (src & idx & file & _ & Hidx & Hfile & _ & Hpix).
    destruct (Hpix 2%nat 0%nat) as [_ Hz]; [simpl; lia|simpl; lia|].
    destruct Hz as [Hz1 Hz2]; [vm_compute; reflexivity|].
    exists idx, file. split; [exact Hidx|]. split; [exact Hfile|].
    split; [exact Hz1|exact Hz2].
  - destruct (build4BitPalette (data mixed3x2)) as [pal| |] eqn:E;
      [|vm_compute in E; discriminate E|vm_compute in E; discriminate E].
    destruct (H4 pal eq_refl) as (src & idx & file & _ & Hidx & Hfile & _ & Hpix).
    destruct (Hpix 2%nat 0%nat) as [_ Hz]; [simpl; lia|simpl; lia|].
    destruct Hz as [Hz1 (byte & Hb & Hn)]; [vm_compute; reflexivity|].
    exists idx, file, byte. split; [exact Hidx|]. split; [exact Hfile|].
    split; [exact Hz1|]. split; [exact Hb|exact Hn].
Defined.

(** ** Preview against encoding *)

Lemma lookup_map_seq {A} (f : nat -> A) (n q : nat) :
  (q < n)%nat -> map f (seq 0 n) !! q = Some (f q).
Proof.
  induction n as [|n IH]; intros Hq; [lia|].
  rewrite <- map_seq_snoc.
  destruct (decide (q = n)) as [->|Hne].
  - rewrite lookup_app_r by (rewrite length_map, length_seq; lia).
    rewrite length_map, length_seq, Nat.sub_diag. reflexivity.
  - rewrite lookup_app_l by (rewrite length_map, length_seq; lia). apply IH. lia.
Qed.

(** For an opaque pixel, the palette entry that the stored index refers to
    is the colour that the requantiser writes. *)
Lemma decoded_matches_quantized src colorArray q :
  colorArray <> [] -> (length colorArray <= 256)%nat ->
  128 <= readByte src (q * 4 + 3) ->
  decodedEntry src colorArray (findClosestColor colorArray) q
  = Some (quantizedRGB src colorArray (findClosestColor colorArray) q).
Proof.
  intros Hne Hlen Hop. unfold decodedEntry, indexOf, quantizedRGB. cbv zeta.
  destruct (Z.ltb_spec (readByte src (q * 4 + 3)) 128) as [|_]; [lia|].
  match goal with |- context [findClosestColor colorArray ?a ?c ?e] =>
    destruct (findClosestColor_valid a c e colorArray Hne) as [col Hcol];
    pose proof (lookup_lt_Some _ _ _ Hcol) as Hlt
  end.
  rewrite Z.mod_small by lia. rewrite Nat2Z.id, Hcol. reflexivity.
Qed.

Lemma generatePreview8Bit_eq imageData dither colorArray src :
  build8BitPalette (data imageData) = Normal colorArray ->
  indexSource imageData colorArray dither = Normal src ->
  generatePreview8Bit imageData dither
  = quantizeImageData (mkImageData (width imageData) (height imageData) src)
      colorArray (findClosestColor colorArray).
Proof.
  intros Hpal Hsrc. unfold generatePreview8Bit. cbn [data width height newImageData].
  rewrite Hpal. unfold cbind at 1. unfold indexSource in Hsrc. destruct dither.
  - destruct (ditherData _ _ _ _ _) as [d| |];
      cbv beta iota delta [cbind] in Hsrc; try discriminate Hsrc.
    cbv beta iota delta [cbind]. cbn [data newImageData] in Hsrc. rewrite Hsrc. reflexivity.
  - injection Hsrc as <-. reflexivity.
Qed.

Lemma generatePreview4Bit_eq imageData aggressive colorArray src :
  wfImage imageData ->
  build4BitPalette (data imageData) = Normal colorArray ->
  indexSource4Bit imageData colorArray aggressive
    = Normal (mkImageData (width imageData) (height imageData) src) ->
  generatePreview4Bit imageData aggressive
  = quantizeImageData (mkImageData (width imageData) (height imageData) src)
      colorArray (findClosestColor colorArray).
Proof.
  intros (_ & _ & Hlen & _) Hpal Hsrc. unfold generatePreview4Bit.
  cbn [data width height newImageData].
  rewrite Hpal. unfold cbind at 1. unfold indexSource4Bit in Hsrc. destruct aggressive.
  - destruct (ditherData _ _ _ _ _) as [d| |];
      cbv beta iota delta [cbind] in Hsrc; try discriminate Hsrc.
    cbv beta iota delta [cbind]. cbn [data newImageData] in Hsrc.
    destruct (typedArraySet _ d) as [buf| |]; try discriminate Hsrc.
    injection Hsrc as <-. reflexivity.
  - unfold cbind at 1. rewrite typedArraySet_full by exact Hlen.
    destruct imageData as [w h d]. simpl in *. injection Hsrc as <-. reflexivity.
Qed.

Lemma quantized_pixel_agreement imageData colorArray src :
  colorArray <> [] -> (length colorArray <= 256)%nat -> Forall rgbOk colorArray ->
  preserved (data imageData) src ->
  exists out,
    quantizeImageData (mkImageData (width imageData) (height imageData) src)
      colorArray (findClosestColor colorArray)
      = Normal (mkImageData (width imageData) (height imageData) out) /\
    forall x y, (x < width imageData)%nat -> (y < height imageData)%nat ->
      128 <= pixelAlpha imageData x y ->
      decodedEntry src colorArray (findClosestColor colorArray) (y * width imageData + x)
      = Some (pixelRGB (mkImageData (width imageData) (height imageData) out) x y).
Proof.
  intros Hne Hlen Hok Hp.
  destruct (quantizeImageData_spec src (width imageData) (height imageData) colorArray
              (findClosestColor colorArray)) as (out & Hq & Hl & Hpix).
  { intros. apply findClosestColor_valid, Hne. }
  { exact Hok. }
  exists out. split; [exact Hq|].
  intros x y Hx Hy Halpha.
  unfold pixelAlpha in Halpha. rewrite <- (preserved_alpha _ _ _ Hp) in Halpha.
  rewrite (decoded_matches_quantized src colorArray _ Hne Hlen Halpha).
  destruct (Hpix (y * width imageData + x)%nat ltac:(nia)) as (H0 & H1 & H2 & _).
  unfold pixelRGB, readByte. cbn [data width].
  rewrite H0, H1, H2. simpl.
  destruct (quantizedRGB src colorArray (findClosestColor colorArray) _); reflexivity.
Qed.

(** C1. For a well-formed image and either flag value:
    at 24 bits, the encoder returns a file whose stored B,G,R triple at
    each pixel is the RGB of the preview; at 8 and at 4 bits, once the
    palette is built, the preview and the encoder both return, the decoder
    of the tests reads the file back as one entry per pixel, and at every
    pixel whose alpha is at least 128 the palette entry referenced by the
    stored index is the RGB of the preview at that pixel; when the palette
    builder throws, the preview and the encoder throw the same error and
    there is nothing to compare. *)
Theorem preview_matches_encoding (imageData : ImageData) (flag : bool) :
  wfImage imageData ->
  (exists file,
     encodeBMP imageData = Normal file /\
     forall x y, (x < width imageData)%nat -> (y < height imageData)%nat ->
       128 <= pixelAlpha imageData x y ->
       decodeBMP24Pixel file (width imageData) x y
       = Some (pixelRGB (generatePreview24Bit imageData) x y)) /\
  (forall colorArray, build8BitPalette (data imageData) = Normal colorArray ->
     exists preview file bmpColors,
       generatePreview8Bit imageData flag = Normal preview /\
       encodeBMP8Bit imageData flag = Normal file /\
       extractBMP8BitColors file (width imageData) (height imageData) = Normal bmpColors /\
       width preview = width imageData /\
       length bmpColors = (width imageData * height imageData)%nat /\
       forall x y, (x < width imageData)%nat -> (y < height imageData)%nat ->
         128 <= pixelAlpha imageData x y ->
         bmpColors !! (y * width imageData + x)%nat = Some (Some (pixelRGB preview x y))) /\
  (forall e, build8BitPalette (data imageData) = Throw e ->
     generatePreview8Bit imageData flag = Throw e /\
     encodeBMP8Bit imageData flag = Throw e) /\
  (forall colorArray, build4BitPalette (data imageData) = Normal colorArray ->
     exists preview file bmpColors,
       generatePreview4Bit imageData flag = Normal preview /\
       encodeBMP4Bit imageData flag = Normal file /\
       extractBMP4BitColors file (width imageData) (height imageData) = Normal bmpColors /\
       width preview = width imageData /\
       length bmpColors = (width imageData * height imageData)%nat /\
       forall x y, (x < width imageData)%nat -> (y < height imageData)%nat ->
         128 <= pixelAlpha imageData x y ->
         bmpColors !! (y * width imageData + x)%nat = Some (Some (pixelRGB preview x y))) /\
  (forall e, build4BitPalette (data imageData) = Throw e ->
     generatePreview4Bit imageData flag = Throw e /\
     encodeBMP4Bit imageData flag = Throw e).
Proof.
  intros Hwf. pose proof Hwf as (_ & _ & _ & Hbytes). split; [|split; [|split; [|split]]].
  - destruct (encodeBMP_file imageData) as (hdr & Hhdr & Hfile).
    exists (hdr ++ pixelBytes24 imageData). split; [exact Hfile|].
    intros x y Hx Hy _.
    assert (Hm : forall j, readByte (data imageData) j mod 256 = readByte (data imageData) j).
    { intros j. apply Z.mod_small. pose proof (readByte_byte (data imageData) j Hbytes). lia. }
    pose proof (rowSize_bits 24 (width imageData)) as Hrow.
    assert (Hbyte : forall c, (c < 3)%nat ->
              (hdr ++ pixelBytes24 imageData) !!
                (54 + y * ((24 * width imageData + 31) / 32 * 4) + (3 * x + c))%nat
              = [readByte (data imageData) ((y * width imageData + x) * 4 + 2);
                 readByte (data imageData) ((y * width imageData + x) * 4 + 1);
                 readByte (data imageData) ((y * width imageData + x) * 4)] !! c).
    { intros c Hc. unfold pixelBytes24. cbv zeta.
      rewrite (lookup_after_header hdr _ 54 ((24 * width imageData + 31) / 32 * 4)
                 (height imageData) y (3 * x + c));
        [|exact Hhdr|intros j _; apply pixelBytes24_row_length|exact Hy|lia].
      rewrite lookup_app_l by (rewrite (length_flat_map_rows _ 3 _ 0) by reflexivity; lia).
      replace (3 * x + c)%nat with (x * 3 + c)%nat by lia.
      rewrite (lookup_flat_map_rows _ 3 (width imageData) 0 x c);
        [|reflexivity|exact Hx|exact Hc].
      rewrite Nat.add_0_l, !Hm. reflexivity. }
    unfold decodeBMP24Pixel.
    pose proof (Hbyte 0%nat ltac:(lia)) as H0. rewrite Nat.add_0_r in H0.
    pose proof (Hbyte 1%nat ltac:(lia)) as H1. rewrite Nat.add_assoc in H1.
    pose proof (Hbyte 2%nat ltac:(lia)) as H2. rewrite Nat.add_assoc in H2.
    rewrite H0, H1, H2. reflexivity.
  - intros colorArray Hpal.
    pose proof (palette_nonempty _ 256 _ ltac:(lia) Hpal) as Hne.
    pose proof (medianCutQuantize_length _ _ _ Hpal) as Hlen.
    pose proof (medianCutQuantize_bytes _ _ _ Hbytes Hpal) as Hok.
    destruct (indexSource_spec imageData colorArray flag Hwf Hne) as (src & Hsrc & Hp).
    destruct (quantized_pixel_agreement imageData colorArray src Hne ltac:(lia) Hok Hp)
      as (out & Hq & Hpix).
    destruct (encodeBMP8Bit_file imageData flag colorArray src Hpal Hsrc)
      as (hdr & Hhdr & Hfile).
    eexists _, _, _.
    split; [rewrite (generatePreview8Bit_eq _ _ _ _ Hpal Hsrc); exact Hq|].
    split; [exact Hfile|].
    split.
    { apply extractBMP8BitColors_file; [exact Hhdr|exact Hlen|exact Hok|].
      intros q. pose proof (assignIndices_range src (width imageData) (height imageData)
                              colorArray Hne ltac:(lia) q). lia. }
    split; [reflexivity|]. split; [rewrite length_map, length_seq; reflexivity|].
    intros x y Hx Hy Halpha.
    rewrite lookup_map_seq by nia. rewrite assignIndices_readByte by nia.
    f_equal. apply Hpix; assumption.
  - intros e Hpal. unfold generatePreview8Bit, encodeBMP8Bit. cbn [data width height].
    rewrite Hpal. split; reflexivity.
  - intros colorArray Hpal.
    pose proof (palette_nonempty _ 16 _ ltac:(lia) Hpal) as Hne.
    pose proof (medianCutQuantize_length _ _ _ Hpal) as Hlen.
    pose proof (medianCutQuantize_bytes _ _ _ Hbytes Hpal) as Hok.
    destruct (indexSource4Bit_spec imageData colorArray flag Hwf Hne) as (src & Hsrc & Hp).
    destruct (quantized_pixel_agreement imageData colorArray src Hne ltac:(lia) Hok Hp)
      as (out & Hq & Hpix).
    destruct (encodeBMP4Bit_file imageData flag colorArray src Hpal Hsrc)
      as (hdr & Hhdr & Hfile).
    eexists _, _, _.
    split; [rewrite (generatePreview4Bit_eq _ _ _ _ Hwf Hpal Hsrc); exact Hq|].
    split; [exact Hfile|].
    split.
    { apply extractBMP4BitColors_file; [exact Hhdr|exact Hlen|exact Hok|].
      intros q. pose proof (assignIndices_range src (width imageData) (height imageData)
                              colorArray Hne ltac:(lia) q). lia. }
    split; [reflexivity|]. split; [rewrite length_map, length_seq; reflexivity|].
    intros x y Hx Hy Halpha.
    rewrite lookup_map_seq by nia. rewrite assignIndices_readByte by nia.
    f_equal. apply Hpix; assumption.
  - intros e Hpal. unfold generatePreview4Bit, encodeBMP4Bit. cbn [data width height].
    rewrite Hpal. split; reflexivity.
Qed.

Lemma preview_matches_encoding_witness :
  wfImage mixed3x2 /\
  (exists preview file bmpColors,
     generatePreview8Bit mixed3x2 true = Normal preview /\
     encodeBMP8Bit mixed3x2 true = Normal file /\
     extractBMP8BitColors file 3 2 = Normal bmpColors /\
     bmpColors !! 4%nat = Some (Some (pixelRGB preview 1 1))) /\
  (exists preview file bmpColors,
     generatePreview4Bit mixed3x2 true = Normal preview /\
     encodeBMP4Bit mixed3x2 true = Normal file /\
     extractBMP4BitColors file 3 2 = Normal bmpColors /\
     bmpColors !! 4%nat = Some (Some (pixelRGB preview 1 1))).
Proof.
  split; [exact wfImage_mixed3x2|].
  destruct (preview_matches_encoding mixed3x2 true wfImage_mixed3x2)
    as (_ & H8 & _ & H4 & _).
  split.
  - destruct (build8BitPalette (data mixed3x2)) as [pal| |] eqn:E;
      [|vm_compute in E; discriminate E|vm_compute in E; discriminate E].
    destruct (H8 pal eq_refl) as (preview & file & colors & Hp & Hf & Hc & _ & _ & Hpix).
    exists preview, file, colors. split; [exact Hp|]. split; [exact Hf|].
    split; [exact Hc|].
    apply (Hpix 1%nat 1%nat); [simpl; lia|simpl; lia|vm_compute; discriminate].
  - destruct (build4BitPalette (data mixed3x2)) as [pal| |] eqn:E;
      [|vm_compute in E; discriminate E|vm_compute in E; discriminate E].
    destruct (H4 pal eq_refl) as (preview & file & colors & Hp & Hf & Hc & _ & _ & Hpix).
    exists preview, file, colors. split; [exact Hp|]. split; [exact Hf|].
    split; [exact Hc|].
    apply (Hpix 1%nat 1%nat); [simpl; lia|simpl; lia|vm_compute; discriminate].
Defined.

(** * Further properties *)

(** ** Binary64: values above zero *)

Module Float64Positive.
Import Float64 Float64Facts Float64Class.

Lemma digits2_pos_bounds (p : positive) :
  2 ^ (Z.pos (digits2_pos p) - 1) <= Z.pos p < 2 ^ Z.pos (digits2_pos p).
Proof.
  assert (E : forall q, Z.pos (PosDef.Pos.succ q) = Z.pos q + 1)
    by (intros q; change PosDef.Pos.succ with Pos.succ; lia).
  induction p as [p IH|p IH|]; simpl digits2_pos; rewrite ?E.
  - replace (Z.pos (digits2_pos p) + 1 - 1) with (Z.succ (Z.pos (digits2_pos p) - 1)) by lia.
    rewrite Z.pow_succ_r, Z.pow_add_r by lia. lia.
  - replace (Z.pos (digits2_pos p) + 1 - 1) with (Z.succ (Z.pos (digits2_pos p) - 1)) by lia.
    rewrite Z.pow_succ_r, Z.pow_add_r by lia. lia.
  - simpl. lia.
Qed.

Lemma shr_1_half mrs : 0 <= shr_m mrs -> shr_m (shr_1 mrs) = shr_m mrs / 2.
Proof.
  destruct mrs as [[|[p|p|]|p] rb sb]; cbn [shr_1 shr_m]; intros H; try lia;
    try reflexivity.
  - apply Z.div_unique with 1; lia.
  - apply Z.div_unique with 0; lia.
Qed.

Lemma iter_shr_1_div p : forall mrs,
  0 <= shr_m mrs -> shr_m (SpecFloat.iter_pos shr_1 p mrs) = shr_m mrs / 2 ^ Z.pos p.
Proof.
  induction p as [p IH|p IH|]; intros mrs H; simpl SpecFloat.iter_pos.
  - rewrite IH, IH, shr_1_half by auto using iter_shr_1_nonneg, shr_1_nonneg.
    rewrite !Z.div_div by lia. f_equal.
    rewrite Pos2Z.inj_xI, <- Z.pow_add_r, <- (Z.pow_1_r 2) at 1 by lia.
    rewrite <- Z.pow_add_r by lia. f_equal. lia.
  - rewrite IH, IH by auto using iter_shr_1_nonneg.
    rewrite !Z.div_div by lia. f_equal.
    rewrite Pos2Z.inj_xO, <- Z.pow_add_r by lia. f_equal. lia.
  - rewrite shr_1_half by exact H. reflexivity.
Qed.

(** Shifting a positive mantissa to its canonical exponent leaves it
    positive when the exponent is in range. *)
Lemma shr_fexp_pos m e l :
  0 < m -> emin <= e ->
  0 < shr_m (fst (shr_fexp prec emax m e l)) /\ emin <= snd (shr_fexp prec emax m e l).
Proof.
  intros Hm He. unfold shr_fexp, shr.
  assert (H0 : shr_m (shr_record_of_loc m l) = m) by (destruct l as [|[]]; reflexivity).
  destruct m as [|p|p]; try lia. simpl Zdigits2.
  pose proof (digits2_pos_bounds p) as [Hlo _].
  set (d := Z.pos (digits2_pos p)) in *.
  unfold fexp, emin in *.
  destruct (Z.max (d + e - prec) (SpecFloat.emin prec emax) - e) as [|n|n] eqn:E; cbn [fst snd].
  - rewrite H0. lia.
  - rewrite iter_shr_1_div by (rewrite H0; lia). rewrite H0.
    assert (Hn : Z.pos n = d - prec) by lia.
    split; [|lia].
    apply Z.div_str_pos. split; [lia|].
    etransitivity; [|exact Hlo].
    apply Z.pow_le_mono_r; unfold prec in *; lia.
  - rewrite H0. lia.
Qed.

Lemma round_nearest_even_ge m l : m <= round_nearest_even m l.
Proof. destruct l as [|[]]; simpl; try destruct (Z.even m); lia. Qed.

Lemma binary_round_aux_aboveZero m e l :
  0 < m -> emin <= e ->
  aboveZero (binary_round_aux prec emax false m e l) /\
  regular (binary_round_aux prec emax false m e l).
Proof.
  intros Hm He. unfold binary_round_aux.
  pose proof (shr_fexp_pos m e l Hm He) as [H1 H1e].
  destruct (shr_fexp prec emax m e l) as [mrs' e']. simpl in H1, H1e.
  pose proof (round_nearest_even_ge (shr_m mrs') (loc_of_shr_record mrs')) as Hr.
  pose proof (shr_fexp_pos (round_nearest_even (shr_m mrs') (loc_of_shr_record mrs'))
                e' loc_Exact ltac:(lia) H1e) as [H2 H2e].
  destruct (shr_fexp prec emax _ e' loc_Exact) as [mrs'' e'']. simpl in H2, H2e.
  destruct (shr_m mrs'') as [|q|q]; try lia.
  destruct (e'' <=? emax - prec); simpl; auto.
Qed.

Lemma binary_round_aboveZero m e :
  emin <= e ->
  aboveZero (binary_round prec emax false m e) /\ regular (binary_round prec emax false m e).
Proof.
  intros He. unfold binary_round, shl_align.
  destruct (fexp prec emax (Z.pos (digits2_pos m) + e) - e) eqn:E;
    apply binary_round_aux_aboveZero; try lia.
  unfold fexp. fold emin. lia.
Qed.

(** A sum of two values that are not negative, one of them above zero, is
    above zero. *)
Lemma add_aboveZero x y :
  nonneg x -> nonneg y -> regular x -> regular y ->
  aboveZero x \/ aboveZero y ->
  aboveZero (add x y) /\ regular (add x y).
Proof.
  intros Hx Hy Rx Ry Hpos. unfold add.
  destruct x as [s1|s1| |s1 m1 e1], y as [s2|s2| |s2 m2 e2]; simpl in *;
    subst; try contradiction; try (destruct Hpos; contradiction);
    try (split; [exact I|exact I]); try (split; [exact I|assumption]);
    try (destruct s1; destruct Hpos; contradiction);
    try (destruct s2; destruct Hpos; contradiction).
  apply binary_round_aboveZero. lia.
Qed.

Lemma add_regular x y :
  nonneg x -> nonneg y -> regular x -> regular y -> regular (add x y).
Proof.
  intros Hx Hy Rx Ry.
  destruct x as [s1|s1| |s1 m1 e1], y as [s2|s2| |s2 m2 e2];
    try (simpl in *; subst; try contradiction; exact I || assumption).
  - simpl in *. destruct s1, s2; exact I.
  - apply add_aboveZero; auto. simpl in Hx. subst. left. exact I.
Qed.

Lemma sqrt_aboveZero x : regular x -> aboveZero x -> aboveZero (sqrt x).
Proof.
  intros Rx Hx. unfold sqrt.
  destruct x as [s1|[]| |[] m1 e1]; simpl in *; try contradiction; try exact I.
  unfold SFsqrt_core_binary.
  set (e' := Z.min _ (Z.div2 e1)).
  assert (He' : emin <= e' /\ 2 * e' <= e1).
  { subst e'. unfold fexp. fold emin. rewrite Z.div2_div. unfold emin, SpecFloat.emin, prec, emax in *.
    pose proof (Z.div_mod e1 2 ltac:(lia)). pose proof (Z.mod_pos_bound e1 2 ltac:(lia)). lia. }
  assert (Hm' : 0 < match e1 - 2 * e' with
                    | Z.pos _ => Z.shiftl (Z.pos m1) (e1 - 2 * e')
                    | 0 => Z.pos m1
                    | Z.neg _ => 0
                    end).
  { destruct (e1 - 2 * e') eqn:E; try lia.
    rewrite Z.shiftl_mul_pow2 by lia. apply Z.mul_pos_pos; [lia|]. apply Z.pow_pos_nonneg; lia. }
  match goal with |- context [Z.sqrtrem ?n] =>
    pose proof (Z.sqrtrem_spec n ltac:(lia)) as Hs;
    pose proof (sqrtrem_fst_nonneg n) as Hq;
    destruct (Z.sqrtrem n) as [q rr] end.
  simpl in Hq.
  apply binary_round_aux_aboveZero; [|lia].
  destruct Hs as [Hs1 Hs2]. nia.
Qed.

Lemma aboveZerob_spec x : aboveZerob x = true -> aboveZero x /\ regular x.
Proof.
  destruct x as [s|[]| |[] m e]; simpl; try discriminate; auto.
  intros H. apply Z.leb_le in H. auto.
Qed.

Lemma aboveZero_ltb x : nonneg x -> aboveZero x -> ltb (S754_zero false) x = true.
Proof. destruct x as [s|[]| |[] m e]; simpl; intros; try contradiction; reflexivity. Qed.

(** The opposite commutes with rounding and with the product. *)
Lemma binary_round_aux_opp s m e l :
  binary_round_aux prec emax (negb s) m e l = SFopp (binary_round_aux prec emax s m e l).
Proof.
  unfold binary_round_aux.
  destruct (shr_fexp prec emax m e l) as [mrs' e'].
  destruct (shr_fexp prec emax _ e' loc_Exact) as [mrs'' e''].
  destruct (shr_m mrs''); try reflexivity.
  destruct (e'' <=? emax - prec); reflexivity.
Qed.

Lemma mul_opp_r x y : mul x (SFopp y) = SFopp (mul x y).
Proof.
  unfold mul.
  destruct x as [s1|s1| |s1 m1 e1], y as [s2|s2| |s2 m2 e2]; simpl;
    try reflexivity; try (destruct s1, s2; reflexivity).
  rewrite <- binary_round_aux_opp. destruct s1, s2; reflexivity.
Qed.

Lemma mul_opp_l x y : mul (SFopp x) y = SFopp (mul x y).
Proof.
  unfold mul.
  destruct x as [s1|s1| |s1 m1 e1], y as [s2|s2| |s2 m2 e2]; simpl;
    try reflexivity; try (destruct s1, s2; reflexivity).
  rewrite <- binary_round_aux_opp. destruct s1, s2; reflexivity.
Qed.

Lemma opp_involutive x : SFopp (SFopp x) = x.
Proof. destruct x as [[]|[]| |[] m e]; reflexivity. Qed.

Lemma of_Z_opp z : of_Z (- z) = (if z =? 0 then of_Z z else SFopp (of_Z z)).
Proof.
  unfold of_Z, binary_normalize, binary_round.
  destruct z as [|p|p]; simpl; try reflexivity.
  - destruct (shl_align p 0 _) as [mz ez]. apply (binary_round_aux_opp false).
  - destruct (shl_align p 0 _) as [mz ez].
    rewrite (binary_round_aux_opp false), opp_involutive. reflexivity.
Qed.

End Float64Positive.

(** The summands of the distance do not depend on the sign of the
    difference. *)
Lemma weightedSquare_opp weight d : weightedSquare weight (- d) = weightedSquare weight d.
Proof.
  unfold weightedSquare. rewrite Float64Positive.of_Z_opp.
  destruct (d =? 0); [reflexivity|].
  rewrite !Float64Positive.mul_opp_r, Float64Positive.mul_opp_l.
  apply Float64Positive.opp_involutive.
Qed.

(** ** The distance between byte colours *)

Lemma perceptualDistance_summands r1 g1 b1 r2 g2 b2 :
  perceptualDistance r1 g1 b1 r2 g2 b2 =
  Float64.sqrt
    (Float64.add
       (Float64.add (weightedSquare Float64.lit_0_3 (r1 - r2))
                    (weightedSquare Float64.lit_0_59 (g1 - g2)))
       (weightedSquare Float64.lit_0_11 (b1 - b2))).
Proof. reflexivity. Qed.

(** The three summands over the differences of two bytes, by evaluation:
    +0 at 0, above zero elsewhere. *)
Lemma weightedSquare_table :
  forallb
    (fun n =>
       forallb
         (fun weight =>
            if (n =? 0)%nat
            then match weightedSquare weight 0 with S754_zero false => true | _ => false end
            else Float64Class.aboveZerob (weightedSquare weight (Z.of_nat n)))
         [Float64.lit_0_3; Float64.lit_0_59; Float64.lit_0_11])
    (seq 0 256) = true.
Proof. vm_compute. reflexivity. Qed.

Lemma weightedSquare_byte weight d :
  weight ∈ [Float64.lit_0_3; Float64.lit_0_59; Float64.lit_0_11] ->
  -255 <= d <= 255 ->
  (d = 0 -> weightedSquare weight d = S754_zero false) /\
  (d <> 0 -> Float64Class.aboveZero (weightedSquare weight d) /\
             Float64Class.regular (weightedSquare weight d)).
Proof.
  intros Hw Hd.
  assert (H : forall n, (n <= 255)%nat ->
            if (n =? 0)%nat
            then match weightedSquare weight 0 with S754_zero false => true | _ => false end
                 = true
            else Float64Class.aboveZerob (weightedSquare weight (Z.of_nat n)) = true).
  { intros n Hn.
    pose proof weightedSquare_table as T.
    rewrite List.forallb_forall in T.
    specialize (T n ltac:(apply in_seq; lia)). cbv beta in T.
    rewrite List.forallb_forall in T.
    specialize (T weight ltac:(apply list_elem_of_In; exact Hw)).
    destruct (n =? 0)%nat; exact T. }
  split.
  - intros ->. specialize (H 0%nat ltac:(lia)). simpl in H.
    destruct (weightedSquare weight 0) as [[]| | |]; try discriminate. reflexivity.
  - intros Hne.
    assert (Habs : weightedSquare weight d = weightedSquare weight (Z.of_nat (Z.abs_nat d))).
    { destruct (Z.le_gt_cases 0 d).
      - f_equal. lia.
      - rewrite <- weightedSquare_opp. f_equal. lia. }
    rewrite Habs.
    specialize (H (Z.abs_nat d) ltac:(lia)).
    destruct (Nat.eqb_spec (Z.abs_nat d) 0); [lia|].
    apply Float64Positive.aboveZerob_spec, H.
Qed.

Lemma weightedSquare_nonneg weight d :
  weight ∈ [Float64.lit_0_3; Float64.lit_0_59; Float64.lit_0_11] ->
  Float64.nonneg (weightedSquare weight d).
Proof.
  intros Hw. unfold weightedSquare.
  repeat (apply elem_of_cons in Hw as [->|Hw]);
    [apply Float64Facts.weighted_square_nonneg..|].
  apply elem_of_nil in Hw. contradiction.
Qed.

Lemma weightedSquare_regular weight d :
  weight ∈ [Float64.lit_0_3; Float64.lit_0_59; Float64.lit_0_11] ->
  -255 <= d <= 255 -> Float64Class.regular (weightedSquare weight d).
Proof.
  intros Hw Hd. destruct (weightedSquare_byte weight d Hw Hd) as [H0 H1].
  destruct (decide (d = 0)) as [E|E]; [rewrite (H0 E); exact I|apply H1, E].
Qed.

(** X1. The distance is symmetric in its two colours. *)
Theorem perceptualDistance_sym (r1 g1 b1 r2 g2 b2 : Z) :
  perceptualDistance r1 g1 b1 r2 g2 b2 = perceptualDistance r2 g2 b2 r1 g1 b1.
Proof.
  rewrite !perceptualDistance_summands.
  replace (r2 - r1) with (- (r1 - r2)) by lia.
  replace (g2 - g1) with (- (g1 - g2)) by lia.
  replace (b2 - b1) with (- (b1 - b2)) by lia.
  rewrite !weightedSquare_opp. reflexivity.
Qed.

Lemma perceptualDistance_self r1 g1 b1 :
  perceptualDistance r1 g1 b1 r1 g1 b1 = S754_zero false.
Proof. rewrite perceptualDistance_summands, !Z.sub_diag. vm_compute. reflexivity. Qed.

Lemma perceptualDistance_aboveZero (c d : RGB) :
  rgbOk c -> rgbOk d -> c <> d ->
  Float64Class.aboveZero (perceptualDistance (r c) (g c) (b c) (r d) (g d) (b d)).
Proof.
  intros (Hr & Hg & Hb) (Hr' & Hg' & Hb') Hne.
  rewrite perceptualDistance_summands.
  set (wr := weightedSquare Float64.lit_0_3 (r c - r d)).
  set (wg := weightedSquare Float64.lit_0_59 (g c - g d)).
  set (wb := weightedSquare Float64.lit_0_11 (b c - b d)).
  assert (M3 : Float64.lit_0_3 ∈ [Float64.lit_0_3; Float64.lit_0_59; Float64.lit_0_11])
    by (apply elem_of_cons; auto).
  assert (M59 : Float64.lit_0_59 ∈ [Float64.lit_0_3; Float64.lit_0_59; Float64.lit_0_11])
    by (apply elem_of_cons; right; apply elem_of_cons; auto).
  assert (M11 : Float64.lit_0_11 ∈ [Float64.lit_0_3; Float64.lit_0_59; Float64.lit_0_11])
    by (do 2 (apply elem_of_cons; right); apply elem_of_cons; auto).
  assert (Nr : Float64.nonneg wr) by (apply weightedSquare_nonneg, M3).
  assert (Ng : Float64.nonneg wg) by (apply weightedSquare_nonneg, M59).
  assert (Nb : Float64.nonneg wb) by (apply weightedSquare_nonneg, M11).
  assert (Rr : Float64Class.regular wr) by (apply weightedSquare_regular; [exact M3|lia]).
  assert (Rg : Float64Class.regular wg) by (apply weightedSquare_regular; [exact M59|lia]).
  assert (Rb : Float64Class.regular wb) by (apply weightedSquare_regular; [exact M11|lia]).
  assert (Hdiff : r c - r d <> 0 \/ g c - g d <> 0 \/ b c - b d <> 0).
  { destruct (decide (r c = r d)) as [E1|E1]; [|left; lia].
    destruct (decide (g c = g d)) as [E2|E2]; [|right; left; lia].
    destruct (decide (b c = b d)) as [E3|E3]; [|right; right; lia].
    exfalso. apply Hne. destruct c, d; simpl in *; congruence. }
  assert (Hsum : Float64Class.aboveZero (Float64.add (Float64.add wr wg) wb) /\
                 Float64Class.regular (Float64.add (Float64.add wr wg) wb)).
  { destruct Hdiff as [H|[H|H]].
    - destruct (Float64Positive.add_aboveZero wr wg Nr Ng Rr Rg) as [P1 R1].
      { left. apply (weightedSquare_byte _ _ M3); lia. }
      apply Float64Positive.add_aboveZero; auto using Float64Facts.add_nonneg.
    - destruct (Float64Positive.add_aboveZero wr wg Nr Ng Rr Rg) as [P1 R1].
      { right. apply (weightedSquare_byte _ _ M59); lia. }
      apply Float64Positive.add_aboveZero; auto using Float64Facts.add_nonneg.
    - apply Float64Positive.add_aboveZero; auto using Float64Facts.add_nonneg.
      + apply Float64Positive.add_regular; assumption.
      + right. apply (weightedSquare_byte _ _ M11); lia. }
  apply Float64Positive.sqrt_aboveZero; apply Hsum.
Qed.

(** X2. Between two colours with byte channels the distance is +0 when
    they are the same colour and strictly above zero when they differ. *)
Theorem perceptualDistance_separates (c d : RGB) :
  rgbOk c -> rgbOk d ->
  (c = d -> perceptualDistance (r c) (g c) (b c) (r d) (g d) (b d) = S754_zero false) /\
  (c <> d ->
   Float64.ltb (S754_zero false)
     (perceptualDistance (r c) (g c) (b c) (r d) (g d) (b d)) = true).
Proof.
  intros Hc Hd. split.
  - intros <-. apply perceptualDistance_self.
  - intros Hne. apply Float64Positive.aboveZero_ltb.
    + apply perceptualDistance_nonneg.
    + apply perceptualDistance_aboveZero; assumption.
Qed.

Lemma perceptualDistance_separates_witness :
  (mkRGB 10 20 30 = mkRGB 10 20 31 ->
   perceptualDistance 10 20 30 10 20 31 = S754_zero false) /\
  (mkRGB 10 20 30 <> mkRGB 10 20 31 ->
   Float64.ltb (S754_zero false) (perceptualDistance 10 20 30 10 20 31) = true).
Proof.
  apply (perceptualDistance_separates (mkRGB 10 20 30) (mkRGB 10 20 31));
    unfold rgbOk; simpl; lia.
Defined.

(** ** Exact matches *)

Lemma leb_zero_not_above x :
  Float64.nonneg x -> Float64.leb x (S754_zero false) = true ->
  Float64.ltb (S754_zero false) x = true -> False.
Proof.
  intros Hx Hle Hlt.
  apply Float64Facts.leb_lex in Hle; [|exact Hx|exact I].
  apply Float64Facts.ltb_lex in Hlt; [|exact I|exact Hx].
  contradiction.
Qed.

Lemma ltb_zero_false x :
  Float64.nonneg x -> Float64.ltb x (S754_zero false) = true -> False.
Proof.
  intros Hx Hlt.
  apply Float64Facts.ltb_lex in Hlt; [|exact Hx|exact I].
  destruct x; simpl in *; lia.
Qed.

(** The matcher finds a colour of the palette where it first occurs. *)
Lemma findClosestColor_first_occurrence (colorArray : list RGB) (c : RGB) :
  Forall rgbOk colorArray -> c ∈ colorArray ->
  colorArray !! findClosestColor colorArray (r c) (g c) (b c) = Some c /\
  forall j, (j < findClosestColor colorArray (r c) (g c) (b c))%nat ->
            colorArray !! j <> Some c.
Proof.
  intros Hok Hin.
  assert (Hc : rgbOk c) by (rewrite Forall_forall in Hok; auto).
  unfold findClosestColor.
  destruct (closestFrom_scanned (r c) (g c) (b c) colorArray [] Float64.infinity 0%nat
              (scanned_init _ _ _)) as (m & Hn & Hmin & Hfirst & Hbest).
  change ([] ++ colorArray) with colorArray in *.
  change (length (@nil RGB)) with 0%nat in *. cbv zeta in *.
  apply list_elem_of_lookup in Hin as [k Hk].
  pose proof (Hmin k c Hk) as Hm0.
  rewrite perceptualDistance_self in Hm0.
  destruct Hbest as [(E & _)|(cb & Hcb & Hle)].
  { subst. rewrite lookup_nil in Hk. discriminate. }
  split.
  - rewrite Hcb. f_equal.
    destruct (decide (c = cb)) as [E|Hne]; [symmetry; exact E|exfalso].
    assert (Hcb' : rgbOk cb).
    { rewrite Forall_forall in Hok. apply Hok. eapply list_elem_of_lookup_2, Hcb. }
    apply (leb_zero_not_above (perceptualDistance (r c) (g c) (b c) (r cb) (g cb) (b cb))).
    + apply perceptualDistance_nonneg.
    + apply (Float64Facts.leb_trans _ m); auto using perceptualDistance_nonneg. exact I.
    + apply Float64Positive.aboveZero_ltb; [apply perceptualDistance_nonneg|].
      apply perceptualDistance_aboveZero; assumption.
  - intros j Hj Hjc.
    pose proof (Hfirst j c Hj Hjc) as Hlt.
    rewrite perceptualDistance_self in Hlt.
    exact (ltb_zero_false m Hn Hlt).
Qed.

(** X3. When the colour looked for is itself an entry of a palette of
    byte colours, the matcher returns the first index at which it
    occurs: exact matches are always found. *)
Theorem findClosestColor_exact (colorArray : list RGB) (c : RGB) :
  Forall rgbOk colorArray -> c ∈ colorArray ->
  colorArray !! findClosestColor colorArray (r c) (g c) (b c) = Some c /\
  forall j, (j < findClosestColor colorArray (r c) (g c) (b c))%nat ->
            colorArray !! j <> Some c.
Proof. apply findClosestColor_first_occurrence. Qed.

Lemma findClosestColor_exact_witness :
  [black; mkRGB 200 100 50; mkRGB 200 100 50]
    !! findClosestColor [black; mkRGB 200 100 50; mkRGB 200 100 50] 200 100 50
  = Some (mkRGB 200 100 50) /\
  forall j,
    (j < findClosestColor [black; mkRGB 200 100 50; mkRGB 200 100 50] 200 100 50)%nat ->
    [black; mkRGB 200 100 50; mkRGB 200 100 50] !! j <> Some (mkRGB 200 100 50).
Proof.
  apply (findClosestColor_exact [black; mkRGB 200 100 50; mkRGB 200 100 50]
           (mkRGB 200 100 50)).
  - repeat constructor; simpl; lia.
  - apply elem_of_cons. right. apply elem_of_cons. left. reflexivity.
Defined.

(** ** The headers *)

Lemma writeHeaders_bytes rest fileSize pixelDataOffset w h bitsPerPixel
    pixelArraySize paletteColors :
  writeHeaders (replicate 54 0 ++ rest) fileSize pixelDataOffset w h bitsPerPixel
    pixelArraySize paletteColors
  = Normal (headerBytes fileSize pixelDataOffset w h bitsPerPixel pixelArraySize
              paletteColors ++ rest).
Proof. reflexivity. Qed.

Lemma replicate_header (n : nat) : replicate (54 + n) 0 = replicate 54 0 ++ replicate n 0.
Proof. apply replicate_add. Qed.

Lemma headerBytes_length fileSize pixelDataOffset w h bitsPerPixel pixelArraySize paletteColors :
  length (headerBytes fileSize pixelDataOffset w h bitsPerPixel pixelArraySize paletteColors)
  = 54%nat.
Proof. reflexivity. Qed.

(** The file of the 24-bit encoder, byte for byte. *)
Lemma encodeBMP_bytes imageData :
  encodeBMP imageData =
  Normal (headerBytes (54 + rowSizeOf 24 (width imageData) * height imageData) 54
            (width imageData) (height imageData) 24
            (rowSizeOf 24 (width imageData) * height imageData) 0
          ++ pixelBytes24 imageData).
Proof.
  unfold encodeBMP, rowSizeOf. cbv zeta.
  rewrite replicate_header, writeHeaders_bytes. unfold cbind at 1.
  match goal with |- context [forM ?xs ?body (?view, 54%nat)] =>
    assert (Hemit : emits (forM xs body) (pixelBytes24 imageData)) end.
  { unfold pixelBytes24. cbv zeta. apply emits_forM. intros y _.
    apply (emits_bind (forM (seq 0 (width imageData)) _) (putPadding _)).
    - apply emits_forM. intros x _.
      apply (emits_bind (put _) (fun s => let* s2 := put _ s in put _ s2) [_] [_; _]).
      + apply emits_put.
      + apply (emits_bind (put _) (put _) [_] [_]); apply emits_put.
    - apply emits_padding. }
  rewrite (emits_run _ _ _ 54 Hemit).
  - simpl cbind. cbn [fst]. do 2 f_equal.
  - rewrite length_app, length_replicate, headerBytes_length.
    unfold pixelBytes24. cbv zeta.
    rewrite (length_flat_map_rows _ ((24 * width imageData + 31) / 32 * 4)
               (height imageData) 0).
    + lia.
    + intros j _. apply pixelBytes24_row_length.
Qed.

Lemma le32_sum v :
  v mod 256 + 256 * ((v / 256) mod 256) + 65536 * ((v / 65536) mod 256)
  + 16777216 * ((v / 16777216) mod 256) = v mod 4294967296.
Proof.
  replace (v / 65536) with (v / 256 / 256) by (rewrite Z.div_div by lia; reflexivity).
  replace (v / 16777216) with (v / 256 / 256 / 256) by (rewrite !Z.div_div by lia; reflexivity).
  pose proof (Z.div_mod v 256 ltac:(lia)).
  pose proof (Z.div_mod (v / 256) 256 ltac:(lia)).
  pose proof (Z.div_mod (v / 256 / 256) 256 ltac:(lia)).
  pose proof (Z.div_mod (v / 256 / 256 / 256) 256 ltac:(lia)).
  pose proof (Z.mod_pos_bound v 256 ltac:(lia)).
  pose proof (Z.mod_pos_bound (v / 256) 256 ltac:(lia)).
  pose proof (Z.mod_pos_bound (v / 256 / 256) 256 ltac:(lia)).
  pose proof (Z.mod_pos_bound (v / 256 / 256 / 256) 256 ltac:(lia)).
  apply Z.mod_unique with (v / 256 / 256 / 256 / 256); [left|]; lia.
Qed.

Lemma le16_sum v : v mod 256 + 256 * ((v / 256) mod 256) = v mod 65536.
Proof.
  pose proof (Z.div_mod v 256 ltac:(lia)).
  pose proof (Z.div_mod (v / 256) 256 ltac:(lia)).
  pose proof (Z.mod_pos_bound v 256 ltac:(lia)).
  pose proof (Z.mod_pos_bound (v / 256) 256 ltac:(lia)).
  apply Z.mod_unique with (v / 256 / 256); [left|]; lia.
Qed.

(** What [readBMPHeader] finds in a file that starts with the bytes of
    [writeHeaders]. *)
Lemma readBMPHeader_bytes rest fileSize pixelDataOffset w h bitsPerPixel
    pixelArraySize paletteColors :
  readBMPHeader
    (headerBytes fileSize pixelDataOffset w h bitsPerPixel pixelArraySize paletteColors
     ++ rest)
  = Normal
      (BMPHeader.mk [0x42; 0x4d]
         (Z.of_nat fileSize mod 4294967296)
         (Z.of_nat pixelDataOffset mod 4294967296)
         40
         (let u := Z.of_nat w mod 4294967296 in
          if u <? 2147483648 then u else u - 4294967296)
         (let u := (- Z.of_nat h) mod 4294967296 in
          if u <? 2147483648 then u else u - 4294967296)
         1
         (bitsPerPixel mod 65536)
         0
         (Z.of_nat pixelArraySize mod 4294967296)
         (paletteColors mod 4294967296)).
Proof.
  cbv [readBMPHeader getUint32 getInt32 getUint16 getUint8 cbind headerBytes le32 le16
       app lookup list_lookup Nat.add].
  rewrite !le32_sum, !le16_sum. reflexivity.
Qed.

Lemma replicate_header_palette (p n : nat) :
  replicate (54 + p + n) 0 = replicate 54 0 ++ replicate (p + n) 0.
Proof. rewrite <- Nat.add_assoc. apply replicate_add. Qed.

(** The file of the 8-bit encoder, byte for byte. *)
Lemma encodeBMP8Bit_bytes imageData dither colorArray src :
  build8BitPalette (data imageData) = Normal colorArray ->
  indexSource imageData colorArray dither = Normal src ->
  encodeBMP8Bit imageData dither =
  Normal (headerBytes (54 + 256 * 4 + rowSizeOf 8 (width imageData) * height imageData)
            (54 + 256 * 4) (width imageData) (height imageData) 8
            (rowSizeOf 8 (width imageData) * height imageData) 256
          ++ paletteBytes 256 colorArray
          ++ indexBytes8 (assignIndices src (width imageData) (height imageData)
                            (findClosestColor colorArray))
               (width imageData) (height imageData)).
Proof.
  intros Hpal Hsrc. unfold encodeBMP8Bit, rowSizeOf. cbv zeta. rewrite Hpal. unfold cbind at 1.
  rewrite Hsrc. unfold cbind at 1.
  rewrite replicate_header_palette, writeHeaders_bytes. unfold cbind at 1.
  rewrite (palette_then_pixels _ 256 colorArray _
             (indexBytes8 (assignIndices src (width imageData) (height imageData)
                             (findClosestColor colorArray))
                (width imageData) (height imageData))).
  - do 2 f_equal.
  - rewrite length_app, length_replicate, headerBytes_length.
    unfold indexBytes8. cbv zeta.
    rewrite (length_flat_map_rows _ ((8 * width imageData + 31) / 32 * 4)
               (height imageData) 0); [lia|].
    intros j _. apply indexBytes8_row_length.
  - unfold indexBytes8. cbv zeta. apply emits_forM. intros y _.
    apply (emits_bind (forM (seq 0 (width imageData)) _) (putPadding _)).
    + apply emits_forM. intros x _. apply emits_put.
    + apply emits_padding.
Qed.

(** The file of the 4-bit encoder, byte for byte. *)
Lemma encodeBMP4BitFromData_bytes imageData colorArray findClosest :
  encodeBMP4BitFromData imageData colorArray findClosest =
  Normal (headerBytes (54 + 16 * 4 + rowSizeOf 4 (width imageData) * height imageData)
            (54 + 16 * 4) (width imageData) (height imageData) 4
            (rowSizeOf 4 (width imageData) * height imageData) 16
          ++ paletteBytes 16 colorArray
          ++ indexBytes4 (assignIndices (data imageData) (width imageData)
                            (height imageData) findClosest)
               (width imageData) (height imageData)).
Proof.
  unfold encodeBMP4BitFromData, rowSizeOf. cbv zeta.
  rewrite replicate_header_palette, writeHeaders_bytes. unfold cbind at 1.
  rewrite (palette_then_pixels _ 16 colorArray _
             (indexBytes4 (assignIndices (data imageData) (width imageData)
                             (height imageData) findClosest)
                (width imageData) (height imageData))).
  - do 2 f_equal.
  - rewrite length_app, length_replicate, headerBytes_length.
    unfold indexBytes4. cbv zeta.
    rewrite (length_flat_map_rows _ ((4 * width imageData + 31) / 32 * 4)
               (height imageData) 0); [lia|].
    intros j _. apply indexBytes4_row_length.
  - unfold indexBytes4. cbv zeta. apply emits_forM. intros y _.
    apply (emits_bind (forM (seq 0 ((width imageData + 1) / 2)) _) (putPadding _)).
    + apply emits_forM. intros k _. unfold packedByte. cbv zeta. apply emits_put.
    + apply emits_padding.
Qed.

Lemma encodeBMP4Bit_bytes imageData aggressive colorArray src :
  build4BitPalette (data imageData) = Normal colorArray ->
  indexSource4Bit imageData colorArray aggressive
    = Normal (mkImageData (width imageData) (height imageData) src) ->
  encodeBMP4Bit imageData aggressive =
  Normal (headerBytes (54 + 16 * 4 + rowSizeOf 4 (width imageData) * height imageData)
            (54 + 16 * 4) (width imageData) (height imageData) 4
            (rowSizeOf 4 (width imageData) * height imageData) 16
          ++ paletteBytes 16 colorArray
          ++ indexBytes4 (assignIndices src (width imageData) (height imageData)
                            (findClosestColor colorArray))
               (width imageData) (height imageData)).
Proof.
  intros Hpal Hsrc. unfold encodeBMP4Bit. rewrite Hpal. unfold cbind at 1.
  rewrite Hsrc. unfold cbind at 1.
  apply (encodeBMP4BitFromData_bytes
           (mkImageData (width imageData) (height imageData) src)).
Qed.

Lemma int32_roundtrip v :
  -2147483648 <= v < 2147483648 ->
  (let u := v mod 4294967296 in if u <? 2147483648 then u else u - 4294967296) = v.
Proof.
  intros Hv. cbv zeta.
  destruct (Z.le_gt_cases 0 v) as [H|H].
  - rewrite Z.mod_small by lia. destruct (Z.ltb_spec v 2147483648); lia.
  - assert (E : v mod 4294967296 = v + 4294967296).
    { symmetry. apply Z.mod_unique with (-1); [left|]; lia. }
    rewrite E. destruct (Z.ltb_spec (v + 4294967296) 2147483648); lia.
Qed.

Lemma pixelBytes24_length imageData :
  length (pixelBytes24 imageData)
  = (rowSizeOf 24 (width imageData) * height imageData)%nat.
Proof.
  unfold pixelBytes24, rowSizeOf. cbv zeta.
  rewrite (length_flat_map_rows _ ((24 * width imageData + 31) / 32 * 4)
             (height imageData) 0); [lia|].
  intros j _. apply pixelBytes24_row_length.
Qed.

Lemma indexBytes8_length pixelIndices w h :
  length (indexBytes8 pixelIndices w h) = (rowSizeOf 8 w * h)%nat.
Proof.
  unfold indexBytes8, rowSizeOf. cbv zeta.
  rewrite (length_flat_map_rows _ ((8 * w + 31) / 32 * 4) h 0); [lia|].
  intros j _. apply indexBytes8_row_length.
Qed.

Lemma indexBytes4_length pixelIndices w h :
  length (indexBytes4 pixelIndices w h) = (rowSizeOf 4 w * h)%nat.
Proof.
  unfold indexBytes4, rowSizeOf. cbv zeta.
  rewrite (length_flat_map_rows _ ((4 * w + 31) / 32 * 4) h 0); [lia|].
  intros j _. apply indexBytes4_row_length.
Qed.

(** A row holds its pixels: its size is the least multiple of four bytes
    that has room for [bits] bits per pixel. *)
Lemma rowSizeOf_spec (bits w : nat) :
  (rowSizeOf bits w mod 4 = 0)%nat /\
  (bits * w <= 8 * rowSizeOf bits w)%nat /\
  (8 * rowSizeOf bits w < bits * w + 32)%nat.
Proof.
  unfold rowSizeOf.
  pose proof (Nat.div_mod_eq (bits * w + 31) 32) as H.
  pose proof (Nat.mod_upper_bound (bits * w + 31) 32 ltac:(lia)) as H'.
  split; [|lia].
  apply Nat.Div0.mod_mul.
Qed.

(** X4. The 24-bit encoder always returns a file of 54 + rowSize·height
    bytes, and what the header reader of the tests finds in it is the
    signature BM, the length of the file, the pixel offset 54, a 40-byte
    DIB header, the width, the negated height (rows are stored top-down),
    one plane, 24 bits per pixel, no compression, the size of the pixel
    array and a palette count of 0 (for a file below 2^32 bytes, the range
    of the size field). *)
Theorem encodeBMP_header (imageData : ImageData) :
  let rowSize := rowSizeOf 24 (width imageData) in
  let fileSize := (54 + rowSize * height imageData)%nat in
  (0 < width imageData)%nat -> (0 < height imageData)%nat ->
  Z.of_nat fileSize < 4294967296 ->
  exists file,
    encodeBMP imageData = Normal file /\
    length file = fileSize /\
    readBMPHeader file =
      Normal (BMPHeader.mk [0x42; 0x4d] (Z.of_nat fileSize) 54 40
                (Z.of_nat (width imageData)) (- Z.of_nat (height imageData))
                1 24 0 (Z.of_nat (rowSize * height imageData)) 0).
Proof.
  intros rowSize fileSize Hw Hh Hsize.
  destruct (rowSizeOf_spec 24 (width imageData)) as (_ & Hrow & _). fold rowSize in Hrow.
  rewrite encodeBMP_bytes. eexists. split; [reflexivity|]. split.
  - rewrite length_app, headerBytes_length, pixelBytes24_length. reflexivity.
  - rewrite readBMPHeader_bytes. fold rowSize. fold fileSize. subst fileSize.
    rewrite !int32_roundtrip by nia.
    rewrite !(Z.mod_small (Z.of_nat _)) by nia.
    reflexivity.
Qed.

Lemma encodeBMP_header_witness :
  exists file,
    encodeBMP mixed3x2 = Normal file /\
    length file = 78%nat /\
    readBMPHeader file =
      Normal (BMPHeader.mk [0x42; 0x4d] 78 54 40 3 (-2) 1 24 0 24 0).
Proof. apply (encodeBMP_header mixed3x2); simpl; lia. Defined.

(** X5. Once the palette is built, the 8-bit encoder returns, with or
    without dithering, a file of 54 + 1024 + rowSize·height bytes whose
    header reads back as: signature BM, the length of the file, pixel
    offset 1078 (the pixels follow the 256-entry colour table), the
    width, the negated height, one plane, 8 bits per pixel, no
    compression, the size of the pixel array and 256 palette colours
    (for a width below 2^31 and a file below 2^32 bytes, the ranges of the
    header fields). *)
Theorem encodeBMP8Bit_header (imageData : ImageData) (dither : bool)
    (colorArray : list RGB) :
  let rowSize := rowSizeOf 8 (width imageData) in
  let fileSize := (54 + 256 * 4 + rowSize * height imageData)%nat in
  wfImage imageData ->
  build8BitPalette (data imageData) = Normal colorArray ->
  Z.of_nat (width imageData) < 2147483648 ->
  Z.of_nat fileSize < 4294967296 ->
  exists file,
    encodeBMP8Bit imageData dither = Normal file /\
    length file = fileSize /\
    readBMPHeader file =
      Normal (BMPHeader.mk [0x42; 0x4d] (Z.of_nat fileSize) 1078 40
                (Z.of_nat (width imageData)) (- Z.of_nat (height imageData))
                1 8 0 (Z.of_nat (rowSize * height imageData)) 256).
Proof.
  intros rowSize fileSize Hwf Hpal Hwidth Hsize.
  pose proof Hwf as (Hw & Hh & _).
  destruct (rowSizeOf_spec 8 (width imageData)) as (Hmod & Hrow & _).
  fold rowSize in Hrow, Hmod.
  assert (Hrow4 : (4 <= rowSize)%nat)
    by (pose proof (Nat.div_mod_eq rowSize 4); lia).
  destruct (indexSource_spec imageData colorArray dither Hwf) as (src & Hsrc & _).
  { eapply palette_nonempty; [|exact Hpal]. lia. }
  rewrite (encodeBMP8Bit_bytes imageData dither colorArray src Hpal Hsrc).
  eexists. split; [reflexivity|]. split.
  - rewrite !length_app, headerBytes_length, paletteBytes_length, indexBytes8_length.
    subst fileSize rowSize. lia.
  - rewrite readBMPHeader_bytes. fold rowSize. fold fileSize. subst fileSize.
    rewrite !int32_roundtrip by nia.
    rewrite !(Z.mod_small (Z.of_nat _)) by nia.
    reflexivity.
Qed.

Lemma encodeBMP8Bit_header_witness :
  exists file,
    encodeBMP8Bit mixed3x2 true = Normal file /\
    length file = 1086%nat /\
    readBMPHeader file =
      Normal (BMPHeader.mk [0x42; 0x4d] 1086 1078 40 3 (-2) 1 8 0 8 256).
Proof.
  destruct (build8BitPalette (data mixed3x2)) as [pal| |] eqn:E;
    [|vm_compute in E; discriminate E|vm_compute in E; discriminate E].
  apply (encodeBMP8Bit_header mixed3x2 true pal wfImage_mixed3x2 E); simpl; lia.
Defined.

(** X6. Once the palette is built, the 4-bit encoder returns, with or
    without dithering, a file of 54 + 64 + rowSize·height bytes whose
    header reads back as: signature BM, the length of the file, pixel
    offset 118 (the pixels follow the 16-entry colour table), the width,
    the negated height, one plane, 4 bits per pixel, no compression, the
    size of the pixel array and 16 palette colours (for a width below 2^31
    and a file below 2^32 bytes, the ranges of the header fields). *)
Theorem encodeBMP4Bit_header (imageData : ImageData) (aggressive : bool)
    (colorArray : list RGB) :
  let rowSize := rowSizeOf 4 (width imageData) in
  let fileSize := (54 + 16 * 4 + rowSize * height imageData)%nat in
  wfImage imageData ->
  build4BitPalette (data imageData) = Normal colorArray ->
  Z.of_nat (width imageData) < 2147483648 ->
  Z.of_nat fileSize < 4294967296 ->
  exists file,
    encodeBMP4Bit imageData aggressive = Normal file /\
    length file = fileSize /\
    readBMPHeader file =
      Normal (BMPHeader.mk [0x42; 0x4d] (Z.of_nat fileSize) 118 40
                (Z.of_nat (width imageData)) (- Z.of_nat (height imageData))
                1 4 0 (Z.of_nat (rowSize * height imageData)) 16).
Proof.
  intros rowSize fileSize Hwf Hpal Hwidth Hsize.
  pose proof Hwf as (Hw & Hh & _).
  destruct (rowSizeOf_spec 4 (width imageData)) as (Hmod & Hrow & _).
  fold rowSize in Hrow, Hmod.
  assert (Hrow4 : (4 <= rowSize)%nat)
    by (pose proof (Nat.div_mod_eq rowSize 4); lia).
  destruct (indexSource4Bit_spec imageData colorArray aggressive Hwf) as (src & Hsrc & _).
  { eapply palette_nonempty; [|exact Hpal]. lia. }
  rewrite (encodeBMP4Bit_bytes imageData aggressive colorArray src Hpal Hsrc).
  eexists. split; [reflexivity|]. split.
  - rewrite !length_app, headerBytes_length, paletteBytes_length, indexBytes4_length.
    subst fileSize rowSize. lia.
  - rewrite readBMPHeader_bytes. fold rowSize. fold fileSize. subst fileSize.
    rewrite !int32_roundtrip by nia.
    rewrite !(Z.mod_small (Z.of_nat _)) by nia.
    reflexivity.
Qed.

Lemma encodeBMP4Bit_header_witness :
  exists file,
    encodeBMP4Bit mixed3x2 true = Normal file /\
    length file = 126%nat /\
    readBMPHeader file =
      Normal (BMPHeader.mk [0x42; 0x4d] 126 118 40 3 (-2) 1 4 0 8 16).
Proof.
  destruct (build4BitPalette (data mixed3x2)) as [pal| |] eqn:E;
    [|vm_compute in E; discriminate E|vm_compute in E; discriminate E].
  apply (encodeBMP4Bit_header mixed3x2 true pal wfImage_mixed3x2 E); simpl; lia.
Defined.

(** ** Rows and padding *)

(** X7. In the file of the 24-bit encoder every row occupies rowSize
    bytes, the least multiple of four that holds three bytes per pixel,
    and the bytes of a row after its last pixel are zero. *)
Theorem encodeBMP_row_padding (imageData : ImageData) :
  let rowSize := rowSizeOf 24 (width imageData) in
  exists file,
    encodeBMP imageData = Normal file /\
    (rowSize mod 4 = 0)%nat /\
    (3 * width imageData <= rowSize < 3 * width imageData + 4)%nat /\
    forall y k, (y < height imageData)%nat ->
      (3 * width imageData <= k < rowSize)%nat ->
      file !! (54 + y * rowSize + k)%nat = Some 0.
Proof.
  intros rowSize.
  destruct (rowSizeOf_spec 24 (width imageData)) as (Hmod & Hlo & Hhi).
  fold rowSize in Hmod, Hlo, Hhi.
  rewrite encodeBMP_bytes. eexists. split; [reflexivity|].
  split; [exact Hmod|]. split; [lia|].
  intros y k Hy Hk. unfold pixelBytes24. cbv zeta.
  change ((24 * width imageData + 31) / 32 * 4)%nat with rowSize.
  rewrite (lookup_after_header _ _ 54 rowSize (height imageData) y k);
    [|reflexivity|intros j _; apply pixelBytes24_row_length|exact Hy|lia].
  rewrite lookup_app_r by (rewrite (length_flat_map_rows _ 3 _ 0) by reflexivity; lia).
  rewrite (length_flat_map_rows _ 3 _ 0) by reflexivity.
  apply lookup_replicate_2. lia.
Qed.

Lemma encodeBMP_row_padding_witness :
  exists file,
    encodeBMP mixed3x2 = Normal file /\
    file !! (54 + 1 * 12 + 9)%nat = Some 0 /\
    file !! (54 + 1 * 12 + 11)%nat = Some 0.
Proof.
  destruct (encodeBMP_row_padding mixed3x2) as (file & Hfile & _ & _ & Hpad).
  exists file. split; [exact Hfile|].
  split; apply Hpad; vm_compute; lia.
Defined.

Lemma flat_map_seq_ext {A} (f f' : nat -> list A) (n : nat) : forall start,
  (forall i, (start <= i < start + n)%nat -> f i = f' i) ->
  flat_map f (seq start n) = flat_map f' (seq start n).
Proof.
  induction n as [|n IH]; intros start H; simpl; [reflexivity|].
  rewrite (H start) by lia. f_equal. apply IH. intros i Hi. apply H. lia.
Qed.

(** X8. The 24-bit encoder ignores the alpha channel: two images of the
    same dimensions whose pixels have the same R, G and B give the same
    file. *)
Theorem encodeBMP_ignores_alpha (imageData imageData' : ImageData) :
  width imageData' = width imageData ->
  height imageData' = height imageData ->
  (forall x y, (x < width imageData)%nat -> (y < height imageData)%nat ->
     pixelRGB imageData' x y = pixelRGB imageData x y) ->
  encodeBMP imageData' = encodeBMP imageData.
Proof.
  intros Hw Hh Hrgb. rewrite !encodeBMP_bytes, Hw, Hh. do 2 f_equal.
  unfold pixelBytes24. cbv zeta. rewrite Hw, Hh.
  apply flat_map_seq_ext. intros y Hy. f_equal.
  apply flat_map_seq_ext. intros x Hx.
  specialize (Hrgb x y ltac:(lia) ltac:(lia)). unfold pixelRGB in Hrgb.
  rewrite Hw in Hrgb. injection Hrgb as -> -> ->. reflexivity.
Qed.

Lemma encodeBMP_ignores_alpha_witness :
  encodeBMP (mkImageData 2 1 [10; 20; 30; 0; 180; 90; 60; 7])
  = encodeBMP (mkImageData 2 1 halfTransparent2x1).
Proof.
  apply (encodeBMP_ignores_alpha (mkImageData 2 1 halfTransparent2x1)
           (mkImageData 2 1 [10; 20; 30; 0; 180; 90; 60; 7])); try reflexivity.
  intros [|[|x]] [|y] Hx Hy; simpl in *; try lia; reflexivity.
Defined.

(** ** The colour table of the palette encoders *)

Lemma palette_table_lookup hdr colorArray rest entries i c k :
  length hdr = 54%nat -> length colorArray = entries -> Forall rgbOk colorArray ->
  colorArray !! i = Some c -> (k < 4)%nat ->
  (hdr ++ paletteBytes entries colorArray ++ rest) !! (54 + 4 * i + k)%nat
  = [b c; g c; r c; 0] !! k.
Proof.
  intros Hhdr Hlen Hok Hc Hk.
  pose proof (lookup_lt_Some _ _ _ Hc) as Hi.
  eapply Forall_lookup_1 in Hok as (Hr & Hg & Hb); [|exact Hc].
  rewrite lookup_app_r by lia.
  replace (54 + 4 * i + k - length hdr)%nat with (i * 4 + k)%nat by lia.
  rewrite lookup_app_l by (rewrite paletteBytes_length; lia).
  rewrite paletteBytes_lookup by lia. rewrite Hc. simpl.
  rewrite !Z.mod_small by lia. reflexivity.
Qed.

Lemma palette_table_entry (file : list Z) (colorArray : list RGB) :
  (forall i c k, colorArray !! i = Some c -> (k < 4)%nat ->
     file !! (54 + 4 * i + k)%nat = [b c; g c; r c; 0] !! k) ->
  forall i c, colorArray !! i = Some c ->
    file !! (54 + 4 * i)%nat = Some (b c) /\
    file !! (54 + 4 * i + 1)%nat = Some (g c) /\
    file !! (54 + 4 * i + 2)%nat = Some (r c) /\
    file !! (54 + 4 * i + 3)%nat = Some 0.
Proof.
  intros H i c Hc.
  pose proof (H i c 0%nat Hc ltac:(lia)) as H0. rewrite Nat.add_0_r in H0.
  pose proof (H i c 1%nat Hc ltac:(lia)) as H1.
  pose proof (H i c 2%nat Hc ltac:(lia)) as H2.
  pose proof (H i c 3%nat Hc ltac:(lia)) as H3.
  auto.
Qed.

(** X9. Both palette encoders store the palette they built as the colour
    table of the file: entry i occupies the four bytes at 54 + 4·i as
    blue, green, red and a zero, for either flag value, and the palette
    loop of the decoders reads the table back as the palette itself. *)
Theorem palette_table_stored (imageData : ImageData) (flag : bool) :
  wfImage imageData ->
  (forall colorArray, build8BitPalette (data imageData) = Normal colorArray ->
     exists file,
       encodeBMP8Bit imageData flag = Normal file /\
       readPalette file 256 = Normal colorArray /\
       forall i c, colorArray !! i = Some c ->
         file !! (54 + 4 * i)%nat = Some (b c) /\
         file !! (54 + 4 * i + 1)%nat = Some (g c) /\
         file !! (54 + 4 * i + 2)%nat = Some (r c) /\
         file !! (54 + 4 * i + 3)%nat = Some 0) /\
  (forall colorArray, build4BitPalette (data imageData) = Normal colorArray ->
     exists file,
       encodeBMP4Bit imageData flag = Normal file /\
       readPalette file 16 = Normal colorArray /\
       forall i c, colorArray !! i = Some c ->
         file !! (54 + 4 * i)%nat = Some (b c) /\
         file !! (54 + 4 * i + 1)%nat = Some (g c) /\
         file !! (54 + 4 * i + 2)%nat = Some (r c) /\
         file !! (54 + 4 * i + 3)%nat = Some 0).
Proof.
  intros Hwf. pose proof Hwf as (_ & _ & _ & Hbytes). split.
  - intros colorArray Hpal.
    pose proof (medianCutQuantize_length _ _ _ Hpal) as Hlen.
    pose proof (medianCutQuantize_bytes _ _ _ Hbytes Hpal) as Hok.
    destruct (indexSource_spec imageData colorArray flag Hwf) as (src & Hsrc & _).
    { eapply palette_nonempty; [|exact Hpal]. lia. }
    rewrite (encodeBMP8Bit_bytes imageData flag colorArray src Hpal Hsrc).
    eexists. split; [reflexivity|]. split.
    + apply readPalette_file; [reflexivity|exact Hlen|exact Hok].
    + apply palette_table_entry. intros i c k Hc Hk.
      apply palette_table_lookup; [reflexivity|exact Hlen|exact Hok|exact Hc|exact Hk].
  - intros colorArray Hpal.
    pose proof (medianCutQuantize_length _ _ _ Hpal) as Hlen.
    pose proof (medianCutQuantize_bytes _ _ _ Hbytes Hpal) as Hok.
    destruct (indexSource4Bit_spec imageData colorArray flag Hwf) as (src & Hsrc & _).
    { eapply palette_nonempty; [|exact Hpal]. lia. }
    rewrite (encodeBMP4Bit_bytes imageData flag colorArray src Hpal Hsrc).
    eexists. split; [reflexivity|]. split.
    + apply readPalette_file; [reflexivity|exact Hlen|exact Hok].
    + apply palette_table_entry. intros i c k Hc Hk.
      apply palette_table_lookup; [reflexivity|exact Hlen|exact Hok|exact Hc|exact Hk].
Qed.

Lemma palette_table_stored_witness :
  (exists colorArray file,
     build8BitPalette (data mixed3x2) = Normal colorArray /\
     encodeBMP8Bit mixed3x2 false = Normal file /\
     readPalette file 256 = Normal colorArray) /\
  (exists colorArray file,
     build4BitPalette (data mixed3x2) = Normal colorArray /\
     encodeBMP4Bit mixed3x2 false = Normal file /\
     readPalette file 16 = Normal colorArray).
Proof.
  destruct (palette_table_stored mixed3x2 false wfImage_mixed3x2) as [H8 H4].
  split.
  - destruct (build8BitPalette (data mixed3x2)) as [pal| |] eqn:E;
      [|vm_compute in E; discriminate E|vm_compute in E; discriminate E].
    destruct (H8 pal eq_refl) as (file & Hfile & Hread & _).
    exists pal, file. auto.
  - destruct (build4BitPalette (data mixed3x2)) as [pal| |] eqn:E;
      [|vm_compute in E; discriminate E|vm_compute in E; discriminate E].
    destruct (H4 pal eq_refl) as (file & Hfile & Hread & _).
    exists pal, file. auto.
Defined.

(** X10. In the files of both palette encoders the bytes of a row after
    its last pixel are zero: after [width] index bytes at 8 bits, after
    ceil(width / 2) packed bytes at 4 bits; each row occupies the least
    multiple of four bytes that holds its pixels. *)
Theorem palette_rows_padding (imageData : ImageData) (flag : bool) :
  wfImage imageData ->
  (forall colorArray, build8BitPalette (data imageData) = Normal colorArray ->
     let rowSize := rowSizeOf 8 (width imageData) in
     exists file,
       encodeBMP8Bit imageData flag = Normal file /\
       (rowSize mod 4 = 0)%nat /\
       (width imageData <= rowSize < width imageData + 4)%nat /\
       forall y k, (y < height imageData)%nat ->
         (width imageData <= k < rowSize)%nat ->
         file !! (1078 + y * rowSize + k)%nat = Some 0) /\
  (forall colorArray, build4BitPalette (data imageData) = Normal colorArray ->
     let rowSize := rowSizeOf 4 (width imageData) in
     exists file,
       encodeBMP4Bit imageData flag = Normal file /\
       (rowSize mod 4 = 0)%nat /\
       ((width imageData + 1) / 2 <= rowSize < (width imageData + 1) / 2 + 4)%nat /\
       forall y k, (y < height imageData)%nat ->
         ((width imageData + 1) / 2 <= k < rowSize)%nat ->
         file !! (118 + y * rowSize + k)%nat = Some 0).
Proof.
  intros Hwf. split.
  - intros colorArray Hpal rowSize.
    destruct (rowSizeOf_spec 8 (width imageData)) as (Hmod & Hlo & Hhi).
    fold rowSize in Hmod, Hlo, Hhi.
    destruct (indexSource_spec imageData colorArray flag Hwf) as (src & Hsrc & _).
    { eapply palette_nonempty; [|exact Hpal]. lia. }
    rewrite (encodeBMP8Bit_bytes imageData flag colorArray src Hpal Hsrc).
    eexists. split; [reflexivity|]. split; [exact Hmod|]. split; [lia|].
    intros y k Hy Hk. rewrite app_assoc. unfold indexBytes8. cbv zeta.
    change ((8 * width imageData + 31) / 32 * 4)%nat with rowSize.
    rewrite (lookup_after_header _ _ 1078 rowSize (height imageData) y k);
      [|rewrite length_app, paletteBytes_length; reflexivity
       |intros j _; apply indexBytes8_row_length|exact Hy|lia].
    rewrite lookup_app_r by (rewrite (length_flat_map_rows _ 1 _ 0) by reflexivity; lia).
    rewrite (length_flat_map_rows _ 1 _ 0) by reflexivity.
    apply lookup_replicate_2. lia.
  - intros colorArray Hpal rowSize.
    destruct (rowSizeOf_spec 4 (width imageData)) as (Hmod & Hlo & Hhi).
    fold rowSize in Hmod, Hlo, Hhi.
    pose proof (Nat.div_mod_eq (width imageData + 1) 2) as Hhalf.
    pose proof (Nat.mod_upper_bound (width imageData + 1) 2 ltac:(lia)) as Hhalf'.
    destruct (indexSource4Bit_spec imageData colorArray flag Hwf) as (src & Hsrc & _).
    { eapply palette_nonempty; [|exact Hpal]. lia. }
    rewrite (encodeBMP4Bit_bytes imageData flag colorArray src Hpal Hsrc).
    eexists. split; [reflexivity|]. split; [exact Hmod|].
    assert (Hrange : ((width imageData + 1) / 2 <= rowSize < (width imageData + 1) / 2 + 4)%nat).
    { pose proof (Nat.div_mod_eq rowSize 4). lia. }
    split; [exact Hrange|].
    intros y k Hy Hk. rewrite app_assoc. unfold indexBytes4. cbv zeta.
    change ((4 * width imageData + 31) / 32 * 4)%nat with rowSize.
    rewrite (lookup_after_header _ _ 118 rowSize (height imageData) y k);
      [|rewrite length_app, paletteBytes_length; reflexivity
       |intros j _; apply indexBytes4_row_length|exact Hy|lia].
    rewrite lookup_app_r by (rewrite (length_flat_map_rows _ 1 _ 0) by reflexivity; lia).
    rewrite (length_flat_map_rows _ 1 _ 0) by reflexivity.
    apply lookup_replicate_2. lia.
Qed.

Lemma palette_rows_padding_witness :
  (exists file,
     encodeBMP8Bit mixed3x2 true = Normal file /\ file !! (1078 + 1 * 4 + 3)%nat = Some 0) /\
  (exists file,
     encodeBMP4Bit mixed3x2 true = Normal file /\
     file !! (118 + 0 * 4 + 2)%nat = Some 0 /\ file !! (118 + 1 * 4 + 3)%nat = Some 0).
Proof.
  destruct (palette_rows_padding mixed3x2 true wfImage_mixed3x2) as [H8 H4].
  split.
  - destruct (build8BitPalette (data mixed3x2)) as [pal| |] eqn:E;
      [|vm_compute in E; discriminate E|vm_compute in E; discriminate E].
    destruct (H8 pal eq_refl) as (file & Hfile & _ & _ & Hpad).
    exists file. split; [exact Hfile|]. apply Hpad; vm_compute; lia.
  - destruct (build4BitPalette (data mixed3x2)) as [pal| |] eqn:E;
      [|vm_compute in E; discriminate E|vm_compute in E; discriminate E].
    destruct (H4 pal eq_refl) as (file & Hfile & _ & _ & Hpad).
    exists file. split; [exact Hfile|]. split; apply Hpad; vm_compute; lia.
Defined.

(** ** The collection loop of the palette builder *)

Lemma collectColors_opaque : forall n data colorMap colors,
  (length data <= n)%nat ->
  collectColors data colorMap colors = collectFrom (opaquePixels data) colorMap colors.
Proof.
  induction n as [|n IH]; intros data colorMap colors Hlen.
  - destruct data; [reflexivity|simpl in Hlen; lia].
  - destruct data as [|r0 [|g0 [|b0 [|a0 rest]]]]; try reflexivity.
    simpl in Hlen. cbn [collectColors opaquePixels].
    destruct (a0 <? 128); [apply IH; lia|].
    cbn [collectFrom r g b].
    destruct (colorMap !! colorKey r0 g0 b0) as [idx|] eqn:E.
    + rewrite E. apply IH. lia.
    + rewrite lookup_insert_eq. apply IH. lia.
Qed.

Lemma opaquePixels_bytes : forall n data,
  (length data <= n)%nat ->
  Forall (fun v => 0 <= v <= 255) data -> Forall rgbOk (opaquePixels data).
Proof.
  induction n as [|n IH]; intros data Hlen Hdata.
  - destruct data; [constructor|simpl in Hlen; lia].
  - destruct data as [|r0 [|g0 [|b0 [|a0 rest]]]]; try constructor.
    simpl in Hlen.
    inversion Hdata as [|? ? Hr H1]; subst. inversion H1 as [|? ? Hg H2]; subst.
    inversion H2 as [|? ? Hb H3]; subst. inversion H3 as [|? ? Ha Hrest]; subst.
    cbn [opaquePixels]. destruct (a0 <? 128); [apply IH; [lia|exact Hrest]|].
    constructor; [unfold rgbOk; simpl; lia|apply IH; [lia|exact Hrest]].
Qed.

(** The pixel number [q] of a buffer of whole pixels. *)
Lemma opaquePixels_elem : forall n data c,
  (length data <= n)%nat ->
  c ∈ opaquePixels data ->
  exists q, (4 * q + 3 < length data)%nat /\ 128 <= readByte data (4 * q + 3) /\
            c = mkRGB (readByte data (4 * q)) (readByte data (4 * q + 1))
                  (readByte data (4 * q + 2)).
Proof.
  induction n as [|n IH]; intros data c Hlen Hin.
  - destruct data; [apply elem_of_nil in Hin; contradiction|simpl in Hlen; lia].
  - destruct data as [|r0 [|g0 [|b0 [|a0 rest]]]];
      try (apply elem_of_nil in Hin; contradiction).
    simpl in Hlen. cbn [opaquePixels] in Hin.
    assert (Hrest : c ∈ opaquePixels rest ->
              exists q, (4 * q + 3 < length (r0 :: g0 :: b0 :: a0 :: rest))%nat /\
                128 <= readByte (r0 :: g0 :: b0 :: a0 :: rest) (4 * q + 3) /\
                c = mkRGB (readByte (r0 :: g0 :: b0 :: a0 :: rest) (4 * q))
                      (readByte (r0 :: g0 :: b0 :: a0 :: rest) (4 * q + 1))
                      (readByte (r0 :: g0 :: b0 :: a0 :: rest) (4 * q + 2))).
    { intros H. destruct (IH rest c ltac:(lia) H) as (q & Hq & Ha & Hc).
      exists (S q). replace (4 * S q)%nat with (S (S (S (S (4 * q))))) by lia.
      split; [simpl; lia|]. split; [exact Ha|exact Hc]. }
    destruct (Z.ltb_spec a0 128); [exact (Hrest Hin)|].
    apply elem_of_cons in Hin as [->|Hin]; [|exact (Hrest Hin)].
    exists 0%nat. split; [simpl; lia|]. split; [exact H|reflexivity].
Qed.

Lemma opaquePixels_none : forall n data,
  (length data <= n)%nat ->
  (forall q, (4 * q + 3 < length data)%nat -> readByte data (4 * q + 3) < 128) ->
  opaquePixels data = [].
Proof.
  intros n data Hlen H.
  destruct (opaquePixels data) as [|c l] eqn:E; [reflexivity|exfalso].
  destruct (opaquePixels_elem n data c Hlen) as (q & Hq & Ha & _).
  { rewrite E. left. }
  specialize (H q Hq). lia.
Qed.

Lemma pixel_of_index (w h q : nat) :
  (q < w * h)%nat -> exists x y, (x < w)%nat /\ (y < h)%nat /\ q = (y * w + x)%nat.
Proof.
  intros Hq. assert (Hw : (0 < w)%nat) by lia.
  exists (q mod w)%nat, (q / w)%nat.
  pose proof (Nat.div_mod_eq q w) as Hdm.
  pose proof (Nat.mod_upper_bound q w ltac:(lia)) as Hm.
  split; [exact Hm|]. split; [|lia].
  apply Nat.Div0.div_lt_upper_bound. lia.
Qed.

(** X11. An image without any opaque pixel (every alpha below 128) gets
    the default palette: the builder returns N black entries, without
    entering the splitting loop. *)
Theorem medianCutQuantize_transparent (imageData : ImageData) (N : nat) :
  wfImage imageData ->
  (forall x y, (x < width imageData)%nat -> (y < height imageData)%nat ->
     pixelAlpha imageData x y < 128) ->
  medianCutQuantize (data imageData) N = Normal (replicate N black).
Proof.
  intros (_ & _ & Hlen & _) Halpha. unfold medianCutQuantize. cbv zeta.
  rewrite (collectColors_opaque _ _ _ _ (Nat.le_refl _)).
  rewrite (opaquePixels_none _ _ (Nat.le_refl _)); [reflexivity|].
  intros q Hq.
  destruct (pixel_of_index (width imageData) (height imageData) q) as (x & y & Hx & Hy & ->);
    [lia|].
  specialize (Halpha x y Hx Hy). unfold pixelAlpha in Halpha.
  replace (4 * (y * width imageData + x) + 3)%nat
    with ((y * width imageData + x) * 4 + 3)%nat by lia.
  exact Halpha.
Qed.

Lemma medianCutQuantize_transparent_witness :
  medianCutQuantize (data transparent1x1) 16 = Normal (replicate 16 black).
Proof.
  apply (medianCutQuantize_transparent transparent1x1 16).
  - repeat split; simpl; try lia. repeat (constructor; [lia|]). constructor.
  - intros [|x] [|y] Hx Hy; simpl in *; try lia. vm_compute. reflexivity.
Defined.



(** *** Keys *)

Lemma land_shiftl_255 a n : 8 <= n -> Z.land (Z.shiftl a n) 255 = 0.
Proof.
  intros Hn. change 255 with (Z.ones 8). rewrite Z.land_ones by lia.
  rewrite Z.shiftl_mul_pow2 by lia.
  replace n with ((n - 8) + 8) by lia. rewrite Z.pow_add_r by lia.
  rewrite Z.mul_assoc. apply Z.mod_mul. lia.
Qed.

Lemma land_byte_255 a : 0 <= a <= 255 -> Z.land a 255 = a.
Proof.
  intros Ha. change 255 with (Z.ones 8). rewrite Z.land_ones by lia.
  apply Z.mod_small. lia.
Qed.

Lemma shiftr_byte a n : 0 <= a <= 255 -> 8 <= n -> Z.shiftr a n = 0.
Proof.
  intros Ha Hn. rewrite Z.shiftr_div_pow2 by lia. apply Z.div_small.
  split; [lia|]. apply Z.lt_le_trans with (2 ^ 8); [simpl; lia|].
  apply Z.pow_le_mono_r; lia.
Qed.

(** A key determines the three bytes it was made of. *)
Lemma keyRGB_colorKey (c : RGB) :
  rgbOk c -> keyRGB (colorKey (r c) (g c) (b c)) = c.
Proof.
  intros (Hr & Hg & Hb). destruct c as [r0 g0 b0]. simpl in *.
  unfold keyRGB, colorKey. f_equal.
  - rewrite !Z.shiftr_lor, Z.shiftr_shiftl_l, Z.shiftr_shiftl_r by lia.
    rewrite !shiftr_byte by lia. simpl. rewrite !Z.lor_0_r. reflexivity.
  - rewrite !Z.shiftr_lor, !Z.shiftr_shiftl_l by lia.
    rewrite (shiftr_byte b0) by lia. simpl Z.sub.
    rewrite Z.shiftl_0_r, Z.lor_0_r, Z.land_lor_distr_l, land_shiftl_255, land_byte_255 by lia.
    reflexivity.
  - rewrite !Z.land_lor_distr_l, !land_shiftl_255, land_byte_255 by lia. reflexivity.
Qed.

Lemma colorKey_inj (c d : RGB) :
  rgbOk c -> rgbOk d ->
  colorKey (r c) (g c) (b c) = colorKey (r d) (g d) (b d) -> c = d.
Proof.
  intros Hc Hd H. rewrite <- (keyRGB_colorKey c Hc), <- (keyRGB_colorKey d Hd), H.
  reflexivity.
Qed.

(** *** The histogram *)

Lemma occurrences_snoc_eq c seen : occurrences c (seen ++ [c]) = S (occurrences c seen).
Proof.
  unfold occurrences. rewrite filter_app, length_app, filter_cons_True by reflexivity.
  simpl. lia.
Qed.

Lemma occurrences_snoc_ne c d seen : d <> c -> occurrences c (seen ++ [d]) = occurrences c seen.
Proof.
  intros Hne. unfold occurrences.
  rewrite filter_app, length_app, filter_cons_False by exact Hne. simpl. lia.
Qed.

Lemma sampleRGB_incrCount s : sampleRGB (incrCount s) = sampleRGB s.
Proof. reflexivity. Qed.

Lemma sample_key_inj s c :
  rgbOk (sampleRGB s) -> rgbOk c ->
  colorKey (Sample.r s) (Sample.g s) (Sample.b s) = colorKey (r c) (g c) (b c) ->
  sampleRGB s = c.
Proof. intros Hs Hc H. apply (colorKey_inj (sampleRGB s) c Hs Hc H). Qed.

(** The colour just sampled was already in the map. *)
Lemma collected_known seen colorMap colors c idx :
  rgbOk c -> collected seen colorMap colors ->
  colorMap !! colorKey (r c) (g c) (b c) = Some idx ->
  collected (seen ++ [c]) colorMap (alter incrCount idx colors).
Proof.
  intros Hc (H1 & H2 & H3 & H4) Hm.
  destruct (H2 _ _ Hm) as (s0 & Hs0 & Hk0).
  destruct (H3 _ _ Hs0) as (Hok0 & Hin0 & Hcnt0).
  assert (E0 : sampleRGB s0 = c) by (apply sample_key_inj; assumption).
  assert (Hlook : forall i s, alter incrCount idx colors !! i = Some s ->
            exists s', colors !! i = Some s' /\
                       ((i = idx /\ s' = s0 /\ s = incrCount s0) \/ (i <> idx /\ s = s'))).
  { intros i s Hs. destruct (decide (i = idx)) as [->|Hne].
    - rewrite list_lookup_alter_eq, Hs0 in Hs. simpl in Hs. injection Hs as <-.
      exists s0. auto.
    - rewrite list_lookup_alter_ne in Hs by congruence. exists s. auto. }
  split; [|split; [|split]].
  - intros i s Hs. destruct (Hlook i s Hs) as (s' & Hs' & [(-> & -> & ->)|(Hne & ->)]).
    + exact (H1 _ _ Hs').
    + exact (H1 _ _ Hs').
  - intros key i Hkey. destruct (H2 _ _ Hkey) as (s' & Hs' & Hk').
    destruct (decide (i = idx)) as [->|Hne].
    + exists (incrCount s'). rewrite list_lookup_alter_eq, Hs'. split; [reflexivity|exact Hk'].
    + exists s'. rewrite list_lookup_alter_ne by congruence. split; [exact Hs'|exact Hk'].
  - intros i s H.
    destruct (Hlook i s H) as (s' & Hs' & [(-> & -> & ->)|(Hne & ->)]).
    + split; [exact Hok0|]. split.
      * rewrite sampleRGB_incrCount, E0. apply elem_of_app. right. left.
      * rewrite sampleRGB_incrCount, E0, occurrences_snoc_eq. rewrite E0 in Hcnt0.
        unfold incrCount. simpl. lia.
    + destruct (H3 _ _ Hs') as (Hok' & Hin' & Hcnt').
      split; [exact Hok'|]. split; [apply elem_of_app; left; exact Hin'|].
      rewrite occurrences_snoc_ne; [exact Hcnt'|].
      intros E. apply Hne.
      pose proof (H1 _ _ Hs') as Hk'.
      assert (Ek : colorKey (Sample.r s') (Sample.g s') (Sample.b s')
                   = colorKey (r c) (g c) (b c)) by (rewrite E; reflexivity).
      rewrite Ek, Hm in Hk'. congruence.
  - intros c' Hc'. apply elem_of_app in Hc' as [Hc'|Hc'].
    + destruct (H4 c' Hc') as (s & Hs & Es).
      apply list_elem_of_lookup in Hs as [i Hi].
      destruct (decide (i = idx)) as [->|Hne].
      * exists (incrCount s). split; [|exact Es].
        apply (list_elem_of_lookup_2 _ idx). rewrite list_lookup_alter_eq, Hi. reflexivity.
      * exists s. split; [|exact Es].
        apply (list_elem_of_lookup_2 _ i). rewrite list_lookup_alter_ne by congruence. exact Hi.
    + apply list_elem_of_singleton in Hc' as ->.
      exists (incrCount s0). split; [|exact E0].
      apply (list_elem_of_lookup_2 _ idx). rewrite list_lookup_alter_eq, Hs0. reflexivity.
Qed.

(** The colour just sampled is new. *)
Lemma collected_new seen colorMap colors c :
  rgbOk c -> collected seen colorMap colors ->
  colorMap !! colorKey (r c) (g c) (b c) = None ->
  collected (seen ++ [c]) (<[colorKey (r c) (g c) (b c) := length colors]> colorMap)
    (colors ++ [Sample.mk (r c) (g c) (b c) 1]).
Proof.
  intros Hc (H1 & H2 & H3 & H4) Hm.
  set (key := colorKey (r c) (g c) (b c)) in *.
  set (s1 := Sample.mk (r c) (g c) (b c) 1).
  assert (E1 : sampleRGB s1 = c) by (destruct c; reflexivity).
  assert (Hfresh : forall i s, colors !! i = Some s -> sampleRGB s <> c).
  { intros i s Hs E. pose proof (H1 _ _ Hs) as Hk.
    assert (Ek : colorKey (Sample.r s) (Sample.g s) (Sample.b s) = key)
      by (unfold key; rewrite <- E; reflexivity).
    rewrite Ek, Hm in Hk. discriminate. }
  assert (Hunseen : occurrences c seen = 0%nat).
  { unfold occurrences. destruct (filter (fun x => x = c) seen) as [|d l] eqn:E; [reflexivity|].
    exfalso. assert (Hd : d ∈ filter (fun x => x = c) seen) by (rewrite E; left).
    apply list_elem_of_filter in Hd as [-> Hd].
    destruct (H4 c Hd) as (s & Hs & Es).
    apply list_elem_of_lookup in Hs as [i Hi]. exact (Hfresh i s Hi Es). }
  split; [|split; [|split]].
  - intros i s Hs. apply lookup_app_Some in Hs as [Hs|[Hlen Hs]].
    + pose proof (H1 _ _ Hs) as Hk.
      rewrite lookup_insert_ne; [exact Hk|].
      intros E. rewrite <- E, Hm in Hk. discriminate.
    + apply list_lookup_singleton_Some in Hs as [Hi <-].
      replace i with (length colors) by lia. apply lookup_insert_eq.
  - intros k i Hk. apply lookup_insert_Some in Hk as [[<- <-]|[Hne Hk]].
    + exists s1. split; [|reflexivity].
      rewrite lookup_app_r by lia. rewrite Nat.sub_diag. reflexivity.
    + destruct (H2 _ _ Hk) as (s & Hs & Es). exists s. split; [|exact Es].
      apply lookup_app_l_Some, Hs.
  - intros i s Hs. apply lookup_app_Some in Hs as [Hs|[Hlen Hs]].
    + destruct (H3 _ _ Hs) as (Hok & Hin & Hcnt).
      split; [exact Hok|]. split; [apply elem_of_app; left; exact Hin|].
      rewrite occurrences_snoc_ne; [exact Hcnt|].
      intros E. exact (Hfresh i s Hs (eq_sym E)).
    + apply list_lookup_singleton_Some in Hs as [Hi <-].
      rewrite E1. split; [exact Hc|]. split; [apply elem_of_app; right; left|].
      rewrite occurrences_snoc_eq, Hunseen. reflexivity.
  - intros c' Hc'. apply elem_of_app in Hc' as [Hc'|Hc'].
    + destruct (H4 c' Hc') as (s & Hs & Es). exists s. split; [|exact Es].
      apply elem_of_app. left. exact Hs.
    + apply list_elem_of_singleton in Hc' as ->. exists s1. split; [|exact E1].
      apply elem_of_app. right. left.
Qed.

Lemma collectFrom_collected pixels : forall seen colorMap colors,
  Forall rgbOk pixels -> collected seen colorMap colors ->
  exists colorMap', collected (seen ++ pixels) colorMap' (collectFrom pixels colorMap colors).
Proof.
  induction pixels as [|c pixels IH]; intros seen colorMap colors Hpx Hinv.
  - exists colorMap. rewrite app_nil_r. exact Hinv.
  - inversion Hpx as [|? ? Hc Hrest]; subst.
    replace (seen ++ c :: pixels) with ((seen ++ [c]) ++ pixels)
      by (rewrite <- app_assoc; reflexivity).
    cbn [collectFrom]. cbv zeta.
    destruct (colorMap !! colorKey (r c) (g c) (b c)) as [idx|] eqn:E.
    + rewrite E. apply IH; [exact Hrest|]. apply collected_known; assumption.
    + rewrite lookup_insert_eq. apply IH; [exact Hrest|].
      replace (length colors) with (length colors + 0)%nat at 2 by lia.
      rewrite alter_app_r. apply collected_new; assumption.
Qed.

Lemma collected_empty : collected [] ∅ [].
Proof.
  split; [|split; [|split]].
  - intros i s H. rewrite lookup_nil in H. discriminate.
  - intros key i H. rewrite lookup_empty in H. discriminate.
  - intros i s H. rewrite lookup_nil in H. discriminate.
  - intros c H. apply elem_of_nil in H. contradiction.
Qed.

Lemma collectColors_collected data :
  Forall (fun v => 0 <= v <= 255) data ->
  exists colorMap, collected (opaquePixels data) colorMap (collectColors data ∅ []).
Proof.
  intros Hdata. rewrite (collectColors_opaque _ _ _ _ (Nat.le_refl _)).
  apply (collectFrom_collected (opaquePixels data) [] ∅ []).
  - apply (opaquePixels_bytes _ _ (Nat.le_refl _) Hdata).
  - exact collected_empty.
Qed.



(** ** The splitting loop *)

Lemma largestFrom_index boxes : forall i acc volume j,
  largestFrom boxes i acc volume = Some j ->
  acc = Some j \/ (i <= j < i + length boxes)%nat.
Proof.
  induction boxes as [|box boxes IH]; intros i acc volume j H; simpl in H.
  - left. exact H.
  - destruct (length (colors box) <=? 1)%nat.
    + apply IH in H as [H|H]; [left; exact H|right; simpl; lia].
    + destruct (volume <? boxVolume box).
      * apply IH in H as [H|H]; [right; injection H as <-; simpl; lia|right; simpl; lia].
      * apply IH in H as [H|H]; [left; exact H|right; simpl; lia].
Qed.

Lemma firstWithRange_index boxes : forall i j,
  firstWithRange boxes i = Some j -> (i <= j < i + length boxes)%nat.
Proof.
  induction boxes as [|box boxes IH]; intros i j H; simpl in H; [discriminate|].
  destruct (_ || _).
  - injection H as <-. simpl. lia.
  - apply IH in H. simpl. lia.
Qed.

(** The box that the two searches select exists. *)
Lemma chooseBox_index boxes i : chooseBox boxes = Some i -> (i < length boxes)%nat.
Proof.
  unfold chooseBox. destruct (largestFrom boxes 0 None 0) as [j|] eqn:E.
  - intros [= <-]. apply largestFrom_index in E as [E|E]; [discriminate|lia].
  - intros H. apply firstWithRange_index in H. lia.
Qed.

(** The duplication loop cycles through the boxes that existed when it
    started. *)
Lemma duplicateBoxes_cycle n : forall existing boxes,
  (0 < existing <= length boxes)%nat ->
  exists boxes',
    duplicateBoxes n existing boxes = Normal boxes' /\
    length boxes' = (length boxes + n)%nat /\
    (forall j, (j < length boxes)%nat -> boxes' !! j = boxes !! j) /\
    (forall j, (length boxes <= j < length boxes + n)%nat ->
       boxes' !! j = boxes' !! (j mod existing)%nat).
Proof.
  induction n as [|n IH]; intros existing boxes Hex; simpl.
  - exists boxes. split; [reflexivity|]. split; [lia|]. split; [reflexivity|]. intros j Hj. lia.
  - pose proof (Nat.mod_upper_bound (length boxes) existing ltac:(lia)) as Hmod.
    destruct (lookup_lt_is_Some_2 boxes (length boxes mod existing) ltac:(lia)) as [src Hsrc].
    rewrite Hsrc.
    destruct (IH existing (boxes ++ [src])) as (boxes' & E & Hlen & Hold & Hnew).
    { rewrite length_app. simpl. lia. }
    rewrite length_app in Hlen, Hold, Hnew. simpl in Hlen, Hold, Hnew.
    exists boxes'. split; [exact E|]. split; [lia|]. split.
    + intros j Hj. rewrite Hold by lia. apply lookup_app_l. exact Hj.
    + intros j Hj. destruct (decide (j = length boxes)) as [->|Hne].
      * rewrite !Hold by lia.
        rewrite lookup_app_r by lia. rewrite Nat.sub_diag. simpl.
        rewrite lookup_app_l by lia. symmetry. exact Hsrc.
      * apply Hnew. lia.
Qed.

Lemma splitSingle_one box sortBy s :
  colors box = [s] -> splitSingle box sortBy = Normal ([s], [s]).
Proof.
  intros E. unfold splitSingle. rewrite E. simpl.
  destruct (channel sortBy s <=? _), (_ <? channel sortBy s); reflexivity.
Qed.

(** The length of what the splitting loop returns. *)
Lemma splitLoop_length fuel maxColors : forall boxes boxes',
  boxes <> [] ->
  splitLoop fuel maxColors boxes = Normal boxes' ->
  length boxes' = Nat.max (length boxes) (maxColors - 1).
Proof.
  induction fuel as [|fuel IH]; intros boxes boxes' Hne; simpl; [discriminate|].
  destruct (Nat.ltb_spec (length boxes) (maxColors - 1)) as [Hlt|Hge];
    [|intros [= <-]; lia].
  destruct (chooseBox boxes) as [i|] eqn:Ec.
  - destruct (boxes !! i) as [box|] eqn:E; [|discriminate].
    destruct (splitBox box) as [[lb rb]| |] eqn:Es; simpl; try discriminate.
    intros H. apply IH in H.
    + rewrite splice2_length in H by (eapply lookup_lt_Some; eauto). lia.
    + unfold splice2. destruct (take i boxes); discriminate.
  - intros H.
    destruct (duplicateBoxes_cycle (maxColors - 1 - length boxes) (length boxes) boxes)
      as (boxes'' & E & Hlen & _).
    { destruct boxes; [congruence|simpl; lia]. }
    rewrite E in H. injection H as <-. lia.
Qed.

(** *** A single colour *)

Lemma splitBox_one box s :
  colors box = [s] ->
  exists lb rb, splitBox box = Normal (lb, rb) /\ colors lb = [s] /\ colors rb = [s].
Proof.
  intros E. unfold splitBox. rewrite E. simpl length. simpl Nat.leb. cbv iota.
  rewrite (splitSingle_one box _ s E). simpl cbind.
  destruct (childBoxes box (longestAxis box) [s] [s]) as [lb rb] eqn:Ec.
  apply childBoxes_colors in Ec as [El Er]. exists lb, rb. auto.
Qed.

Lemma splitLoop_one fuel maxColors s : forall boxes,
  Forall (fun box => colors box = [s]) boxes -> boxes <> [] ->
  (maxColors - 1 - length boxes < fuel)%nat ->
  exists boxes',
    splitLoop fuel maxColors boxes = Normal boxes' /\
    Forall (fun box => colors box = [s]) boxes'.
Proof.
  induction fuel as [|fuel IH]; intros boxes Hall Hne Hfuel; simpl; [lia|].
  destruct (Nat.ltb_spec (length boxes) (maxColors - 1)) as [Hlt|Hge];
    [|exists boxes; auto].
  destruct (chooseBox boxes) as [i|] eqn:Ec.
  - pose proof (chooseBox_index _ _ Ec) as Hi.
    destruct (lookup_lt_is_Some_2 boxes i Hi) as [box Hbox]. rewrite Hbox.
    destruct (splitBox_one box s) as (lb & rb & -> & Hl & Hr).
    { eapply Forall_lookup_1 in Hall; [|exact Hbox]. exact Hall. }
    simpl cbind. apply IH.
    + unfold splice2. apply Forall_app. split; [apply Forall_take, Hall|].
      constructor; [exact Hl|]. constructor; [exact Hr|]. apply Forall_drop, Hall.
    + unfold splice2. destruct (take i boxes); discriminate.
    + rewrite splice2_length by exact Hi. lia.
  - destruct (duplicateBoxes_cycle (maxColors - 1 - length boxes) (length boxes) boxes)
      as (boxes' & -> & Hlen & Hold & Hnew); [destruct boxes; [congruence|simpl; lia]|].
    exists boxes'. split; [reflexivity|].
    apply Forall_lookup. intros j box Hj.
    pose proof (lookup_lt_Some _ _ _ Hj) as Hjlt.
    destruct (Nat.lt_ge_cases j (length boxes)) as [Hin|Hout].
    + rewrite Hold in Hj by exact Hin. eapply Forall_lookup_1 in Hall; [|exact Hj]. exact Hall.
    + rewrite Hnew in Hj by lia.
      assert (Hpos : (length boxes <> 0)%nat) by (destruct boxes; [congruence|discriminate]).
      pose proof (Nat.mod_upper_bound j (length boxes) Hpos) as Hm.
      rewrite Hold in Hj by exact Hm.
      eapply Forall_lookup_1 in Hall; [|exact Hj]. exact Hall.
Qed.

Lemma roundDiv_exact a n : 1 <= n -> roundDiv (a * n) n = a.
Proof.
  intros Hn. unfold roundDiv. symmetry. apply Z.div_unique with n; lia.
Qed.

Lemma averageColor_one box s :
  colors box = [s] -> 1 <= Sample.count s -> averageColor box = sampleRGB s.
Proof.
  intros E Hn. unfold averageColor, totalCountOf. rewrite E. cbn [fold_left].
  rewrite !Z.add_0_l, !roundDiv_exact by exact Hn. reflexivity.
Qed.

Lemma boxEntry_one (boxes : list Box) s :
  1 <= Sample.count s ->
  Forall (fun box => colors box = [s]) boxes ->
  flat_map boxEntry boxes =
    if bool_decide (sampleRGB s = black) then [] else replicate (length boxes) (sampleRGB s).
Proof.
  intros Hn. induction 1 as [|box boxes E _ IH]; simpl.
  - destruct (bool_decide _); reflexivity.
  - rewrite IH. unfold boxEntry. rewrite E, (averageColor_one box s E Hn).
    destruct (bool_decide (sampleRGB s = black)); reflexivity.
Qed.

Lemma NoDup_all_equal {A} (l : list A) (c : A) :
  NoDup l -> (forall x, x ∈ l -> x = c) -> c ∈ l -> l = [c].
Proof.
  intros Hnd Hall Hc. destruct l as [|x [|y l]].
  - apply elem_of_nil in Hc. contradiction.
  - rewrite (Hall x) by left. reflexivity.
  - exfalso. apply NoDup_cons in Hnd as [Hx _]. apply Hx.
    rewrite (Hall x) by left. rewrite (Hall y) by (right; left). left.
Qed.

(** The samples of an image whose opaque pixels all have the colour [c]. *)
Lemma collectColors_one data c :
  Forall (fun v => 0 <= v <= 255) data ->
  opaquePixels data <> [] ->
  (forall c', c' ∈ opaquePixels data -> c' = c) ->
  exists s, collectColors data ∅ [] = [s] /\ sampleRGB s = c /\ 1 <= Sample.count s.
Proof.
  intros Hdata Hne Hall.
  destruct (collectColors_collected data Hdata) as (colorMap & H1 & H2 & H3 & H4).
  assert (Hnd : NoDup (sampleRGB <$> collectColors data ∅ [])).
  { apply NoDup_alt. intros i j x Hi Hj.
    rewrite list_lookup_fmap in Hi, Hj.
    destruct (collectColors data ∅ [] !! i) as [si|] eqn:Ei; [|discriminate].
    destruct (collectColors data ∅ [] !! j) as [sj|] eqn:Ej; [|discriminate].
    simpl in Hi, Hj.
    pose proof (H1 _ _ Ei) as Ki. pose proof (H1 _ _ Ej) as Kj.
    assert (E : colorKey (Sample.r si) (Sample.g si) (Sample.b si)
                = colorKey (Sample.r sj) (Sample.g sj) (Sample.b sj))
      by (unfold sampleRGB in Hi, Hj; congruence).
    rewrite E in Ki. congruence. }
  assert (Hc : c ∈ opaquePixels data).
  { destruct (opaquePixels data) as [|c' l] eqn:E; [congruence|].
    rewrite <- (Hall c') by left. left. }
  assert (Hfm : sampleRGB <$> collectColors data ∅ [] = [c]).
  { apply NoDup_all_equal; [exact Hnd| |].
    - intros x Hx. apply list_elem_of_fmap in Hx as (s & -> & Hs).
      apply list_elem_of_lookup in Hs as [i Hi]. apply Hall, (H3 _ _ Hi).
    - destruct (H4 c Hc) as (s & Hs & <-). apply list_elem_of_fmap_2, Hs. }
  destruct (collectColors data ∅ []) as [|s [|s' l]] eqn:E; try discriminate.
  exists s. split; [reflexivity|]. injection Hfm as Es. split; [exact Es|].
  destruct (H3 0%nat s eq_refl) as (_ & Hin & Hcnt).
  rewrite Hcnt. unfold occurrences.
  destruct (filter (fun x => x = sampleRGB s) (opaquePixels data)) as [|y l] eqn:Ef.
  - exfalso. assert (Hf : sampleRGB s ∈ filter (fun x => x = sampleRGB s) (opaquePixels data))
      by (apply list_elem_of_filter; auto).
    rewrite Ef in Hf. apply elem_of_nil in Hf. contradiction.
  - simpl. lia.
Qed.

(** The palette of an image with a single opaque colour. *)
Lemma medianCutQuantize_one data (N : nat) (c : RGB) :
  Forall (fun v => 0 <= v <= 255) data ->
  opaquePixels data <> [] ->
  (forall c', c' ∈ opaquePixels data -> c' = c) ->
  medianCutQuantize data N = Normal (take N (black :: replicate (N - 1) c)).
Proof.
  intros Hdata Hne Hall.
  destruct (collectColors_one data c Hdata Hne Hall) as (s & Es & Ec & Hn).
  destruct (splitLoop_one (S N) N s [initialBox [s]]) as (boxes & Eb & Hboxes).
  { constructor; [reflexivity|constructor]. }
  { discriminate. }
  { simpl. lia. }
  pose proof (splitLoop_length (S N) N [initialBox [s]] boxes ltac:(discriminate) Eb) as Hlen.
  cbn [length] in Hlen.
  assert (Hq : exists palette, medianCutQuantize data N = Normal palette).
  { unfold medianCutQuantize. cbv zeta. rewrite Es. cbn [length Nat.eqb].
    rewrite Eb. simpl cbind. eexists. reflexivity. }
  destruct Hq as (palette & Hq). rewrite Hq. f_equal.
  destruct (medianCutQuantize_shape _ _ _ Hq) as (boxes' & Eb' & -> & _).
  unfold boxesAfterSplitting in Eb'. rewrite Es in Eb'. cbn [length Nat.eqb] in Eb'.
  rewrite Eb in Eb'. injection Eb' as <-.
  rewrite (boxEntry_one boxes s Hn Hboxes), Ec.
  case_bool_decide as Hblack.
  - rewrite Hblack. simpl app.
    change (black :: replicate N black) with (replicate (S N) black).
    change (black :: replicate (N - 1) black) with (replicate (S (N - 1)) black).
    rewrite !take_replicate. f_equal. lia.
  - destruct N as [|[|n]]; [reflexivity|reflexivity|].
    rewrite Hlen. replace (Nat.max 1 (S (S n) - 1)) with (S n) by lia.
    replace (S (S n) - 1)%nat with (S n) by lia.
    change (black :: replicate (S n) c ++ replicate (S (S n)) black)
      with ((black :: replicate (S n) c) ++ replicate (S (S n)) black).
    rewrite take_app_le by (simpl; rewrite length_replicate; lia).
    reflexivity.
Qed.



(** *** The children of a split *)

Lemma Axis_eq_dec (a a' : Axis) : {a = a'} + {a <> a'}.
Proof. decide equality. Qed.

Lemma childBoxes_bounds box sortBy l r0 :
  let lb := fst (childBoxes box sortBy l r0) in
  let rb := snd (childBoxes box sortBy l r0) in
  colors lb = l /\ colors rb = r0 /\
  (forall a, boxMin a lb = boxMin a box) /\
  (forall a, a <> sortBy -> boxMax a lb = boxMax a box) /\
  boxMax sortBy lb = match last l with
                     | Some c => channel sortBy c
                     | None => boxMax sortBy box
                     end /\
  (forall a, boxMax a rb = boxMax a box) /\
  (forall a, a <> sortBy -> boxMin a rb = boxMin a box) /\
  boxMin sortBy rb = match head r0 with
                     | Some c => channel sortBy c
                     | None => boxMin sortBy box
                     end.
Proof.
  unfold childBoxes. cbv zeta. cbn [fst snd].
  destruct (last l) as [cl|], (head r0) as [cr|], sortBy; simpl;
    repeat split; try reflexivity; intros [] H; try reflexivity; congruence.
Qed.

(** The two lists that a split hands to the children. *)
Lemma splitBox_lists box :
  colors box <> [] ->
  exists l r0,
    splitBox box = Normal (childBoxes box (longestAxis box) l r0) /\
    ((exists s, colors box = [s] /\ l = [s] /\ r0 = [s]) \/
     ((1 < length (colors box))%nat /\ l <> [] /\
      l ++ r0 = sortColors (longestAxis box) (colors box))).
Proof.
  intros Hne. unfold splitBox.
  destruct (Nat.leb_spec (length (colors box)) 1) as [Hle|Hgt].
  - destruct (colors box) as [|s [|s' cs]] eqn:E; [congruence| |simpl in Hle; lia].
    rewrite (splitSingle_one box _ s E). simpl cbind.
    exists [s], [s]. split; [reflexivity|]. left. exists s. auto.
  - destruct (splitNormal box (longestAxis box)) as [l r0] eqn:E. simpl cbind.
    exists l, r0. split; [reflexivity|]. right. split; [exact Hgt|]. split.
    + eapply splitNormal_left_nonempty; [exact Hne|exact E].
    + eapply splitNormal_app, E.
Qed.

Lemma splitBox_encloses box lb rb :
  colors box <> [] -> encloses box -> splitBox box = Normal (lb, rb) ->
  encloses lb /\ encloses rb /\
  (forall s, s ∈ colors box <-> s ∈ colors lb \/ s ∈ colors rb).
Proof.
  intros Hne Henc H.
  destruct (splitBox_lists box Hne) as (l & r0 & E & Hcase).
  rewrite E in H. apply Normal_inj in H.
  pose proof (childBoxes_bounds box (longestAxis box) l r0) as Hb.
  rewrite H in Hb. cbv zeta in Hb. cbn [fst snd] in Hb.
  destruct Hb as (Hl & Hr & HlMin & HlOth & HlMax & HrMax & HrOth & HrMin).
  set (sortBy := longestAxis box) in *.
  assert (Hsub : forall s, s ∈ l \/ s ∈ r0 <-> s ∈ colors box).
  { destruct Hcase as [(s0 & -> & -> & ->)|(_ & _ & Happ)].
    - intros s. tauto.
    - intros s. rewrite <- elem_of_app, Happ, sortColors_Permutation. reflexivity. }
  assert (HlSorted : forall s c, s ∈ l -> last l = Some c ->
            channel sortBy s <= channel sortBy c).
  { destruct Hcase as [(s0 & _ & -> & ->)|(_ & _ & Happ)].
    - intros s c Hs [= <-]. apply list_elem_of_singleton in Hs as ->. lia.
    - intros s c Hs Hc.
      pose proof (sortColors_sorted sortBy (colors box)) as Hs'. rewrite <- Happ in Hs'.
      apply StronglySorted_app_1_l in Hs'.
      apply (sorted_last_max sortBy l c Hs' Hc). exact Hs. }
  assert (HrSorted : forall s c, s ∈ r0 -> head r0 = Some c ->
            channel sortBy c <= channel sortBy s).
  { destruct Hcase as [(s0 & _ & -> & ->)|(_ & _ & Happ)].
    - intros s c Hs [= <-]. apply list_elem_of_singleton in Hs as ->. lia.
    - intros s c Hs Hc.
      pose proof (sortColors_sorted sortBy (colors box)) as Hs'. rewrite <- Happ in Hs'.
      apply StronglySorted_app_1_r in Hs'.
      apply (sorted_head_min sortBy r0 c Hs' Hc). exact Hs. }
  split; [|split].
  - intros s Hs a. rewrite Hl in Hs.
    pose proof (Henc s (proj1 (Hsub s) (or_introl Hs)) a) as Ha.
    rewrite HlMin. split; [lia|].
    destruct (Axis_eq_dec a sortBy) as [->|Hna]; [|rewrite HlOth by exact Hna; lia].
    rewrite HlMax. destruct (last l) as [c|] eqn:El; [|lia].
    apply (HlSorted s c Hs eq_refl).
  - intros s Hs a. rewrite Hr in Hs.
    pose proof (Henc s (proj1 (Hsub s) (or_intror Hs)) a) as Ha.
    rewrite HrMax. split; [|lia].
    destruct (Axis_eq_dec a sortBy) as [->|Hna]; [|rewrite HrOth by exact Hna; lia].
    rewrite HrMin. destruct (head r0) as [c|] eqn:Er; [|lia].
    apply (HrSorted s c Hs eq_refl).
  - intros s. rewrite Hl, Hr. symmetry. apply Hsub.
Qed.

Lemma splitBox_empty box : colors box = [] -> splitBox box = Throw TypeError.
Proof. intros E. unfold splitBox, splitSingle. rewrite E. reflexivity. Qed.

Lemma duplicateBoxes_elem n existing boxes boxes' :
  (0 < existing <= length boxes)%nat ->
  duplicateBoxes n existing boxes = Normal boxes' ->
  forall box, box ∈ boxes' <-> box ∈ boxes.
Proof.
  intros Hex H.
  destruct (duplicateBoxes_cycle n existing boxes Hex) as (boxes'' & E & Hlen & Hold & Hnew).
  rewrite E in H. injection H as <-.
  intros box. split.
  - intros Hin. apply list_elem_of_lookup in Hin as [j Hj].
    pose proof (lookup_lt_Some _ _ _ Hj) as Hjlt.
    destruct (Nat.lt_ge_cases j (length boxes)) as [Hin|Hout].
    + rewrite Hold in Hj by exact Hin. eapply list_elem_of_lookup_2, Hj.
    + rewrite Hnew in Hj by lia.
      pose proof (Nat.mod_upper_bound j existing ltac:(lia)) as Hm.
      rewrite Hold in Hj by lia. eapply list_elem_of_lookup_2, Hj.
  - intros Hin. apply list_elem_of_lookup in Hin as [j Hj].
    pose proof (lookup_lt_Some _ _ _ Hj) as Hjlt.
    apply (list_elem_of_lookup_2 _ j). rewrite Hold by exact Hjlt. exact Hj.
Qed.

Lemma splice2_elem boxes i box lb rb :
  boxes !! i = Some box ->
  forall box', box' ∈ splice2 boxes i lb rb <->
    box' ∈ take i boxes \/ box' = lb \/ box' = rb \/ box' ∈ drop (S i) boxes.
Proof.
  intros _ box'. unfold splice2. rewrite elem_of_app, !elem_of_cons. tauto.
Qed.

Lemma middle_elem (boxes : list Box) i box :
  boxes !! i = Some box ->
  forall box', box' ∈ boxes <->
    box' ∈ take i boxes \/ box' = box \/ box' ∈ drop (S i) boxes.
Proof.
  intros Hi box'. rewrite <- (take_drop_middle boxes i box Hi) at 1.
  rewrite elem_of_app, elem_of_cons. tauto.
Qed.

(** What the splitting loop keeps: every box encloses its samples, and the
    boxes together hold exactly the samples that the loop started with. *)
Lemma splitLoop_invariants fuel maxColors (samples : list Sample.t) : forall boxes boxes',
  Forall encloses boxes ->
  (forall s, s ∈ samples <-> exists box, box ∈ boxes /\ s ∈ colors box) ->
  splitLoop fuel maxColors boxes = Normal boxes' ->
  Forall encloses boxes' /\
  (forall s, s ∈ samples <-> exists box, box ∈ boxes' /\ s ∈ colors box).
Proof.
  induction fuel as [|fuel IH]; intros boxes boxes' Henc Hcov; simpl; [discriminate|].
  destruct (length boxes <? maxColors - 1)%nat; [|intros [= <-]; auto].
  destruct (chooseBox boxes) as [i|] eqn:Ec.
  - destruct (boxes !! i) as [box|] eqn:Ei; [|discriminate].
    destruct (splitBox box) as [[lb rb]| |] eqn:Es; simpl; try discriminate.
    assert (Hne : colors box <> []).
    { intros E. rewrite (splitBox_empty box E) in Es. discriminate. }
    destruct (splitBox_encloses box lb rb Hne) as (Hl & Hr & Hsplit);
      [eapply Forall_lookup_1; eauto|exact Es|].
    apply IH.
    + unfold splice2. apply Forall_app. split; [apply Forall_take, Henc|].
      constructor; [exact Hl|]. constructor; [exact Hr|]. apply Forall_drop, Henc.
    + intros s. rewrite Hcov. split.
      * intros (box' & Hin & Hs). apply (middle_elem boxes i box Ei) in Hin.
        destruct Hin as [Hin|[->|Hin]].
        -- exists box'. split; [|exact Hs]. apply (splice2_elem boxes i box lb rb Ei). auto.
        -- apply Hsplit in Hs as [Hs|Hs].
           ++ exists lb. split; [|exact Hs]. apply (splice2_elem boxes i box lb rb Ei). auto.
           ++ exists rb. split; [|exact Hs]. apply (splice2_elem boxes i box lb rb Ei). auto.
        -- exists box'. split; [|exact Hs]. apply (splice2_elem boxes i box lb rb Ei). auto.
      * intros (box' & Hin & Hs). apply (splice2_elem boxes i box lb rb Ei) in Hin.
        destruct Hin as [Hin|[->|[->|Hin]]].
        -- exists box'. split; [|exact Hs]. apply (middle_elem boxes i box Ei). auto.
        -- exists box. split; [|apply Hsplit; auto]. apply (middle_elem boxes i box Ei). auto.
        -- exists box. split; [|apply Hsplit; auto]. apply (middle_elem boxes i box Ei). auto.
        -- exists box'. split; [|exact Hs]. apply (middle_elem boxes i box Ei). auto.
  - intros H.
    destruct boxes as [|box0 boxes0].
    { simpl in H. destruct (maxColors - 1 - 0)%nat; [|discriminate].
      injection H as <-. auto. }
    assert (Hex : (0 < length (box0 :: boxes0) <= length (box0 :: boxes0))%nat)
      by (simpl; lia).
    pose proof (duplicateBoxes_elem _ _ _ _ Hex H) as Helem.
    split.
    + apply Forall_forall. intros box Hbox. apply Helem in Hbox.
      rewrite Forall_forall in Henc. apply Henc, Hbox.
    + intros s. rewrite Hcov. split; intros (box & Hin & Hs); exists box;
        (split; [apply Helem, Hin|exact Hs]).
Qed.

(** X15. When the builder gets past its splitting loop, the loop has
    produced exactly max(1, N - 1) boxes; the boxes together hold exactly
    the samples of the image (no colour is dropped, none is invented), and
    the bounds of every box enclose all of its samples on every axis. *)
Theorem boxesAfterSplitting_invariants (data : list Z) (N : nat) (boxes : list Box) :
  Forall (fun v => 0 <= v <= 255) data ->
  collectColors data ∅ [] <> [] ->
  boxesAfterSplitting data N = Normal boxes ->
  length boxes = Nat.max 1 (N - 1) /\
  (forall s, s ∈ collectColors data ∅ [] <-> exists box, box ∈ boxes /\ s ∈ colors box) /\
  Forall encloses boxes.
Proof.
  intros Hdata Hne H. unfold boxesAfterSplitting in H. cbv zeta in H.
  destruct (collectColors data ∅ []) as [|s0 cs] eqn:Ecs; [congruence|].
  cbn [length Nat.eqb] in H. rewrite <- Ecs in *.
  split.
  - assert (Hne' : [initialBox (collectColors data ∅ [])] <> []) by discriminate.
    exact (splitLoop_length _ _ _ _ Hne' H).
  - destruct (splitLoop_invariants (S N) N (collectColors data ∅ [])
                [initialBox (collectColors data ∅ [])] boxes) as [Henc Hcov]; [| |exact H|auto].
    + constructor; [|constructor]. intros s Hs axis. simpl in Hs.
      pose proof (collectColors_ok _ data ∅ [] (Nat.le_refl _) Hdata ltac:(constructor)) as Hok.
      rewrite Forall_forall in Hok. destruct (Hok s Hs) as (Hr & Hg & Hb & _).
      destruct axis; simpl; lia.
    + intros s. split.
      * intros Hs. exists (initialBox (collectColors data ∅ [])). split; [left|exact Hs].
      * intros (box & Hin & Hs). apply list_elem_of_singleton in Hin as ->. exact Hs.
Qed.

Lemma boxesAfterSplitting_invariants_witness :
  exists boxes,
    boxesAfterSplitting (data mixed3x2) 16 = Normal boxes /\
    length boxes = 15%nat /\ Forall encloses boxes.
Proof.
  destruct (boxesAfterSplitting (data mixed3x2) 16) as [boxes| |] eqn:E;
    [|vm_compute in E; discriminate E|vm_compute in E; discriminate E].
  destruct (boxesAfterSplitting_invariants (data mixed3x2) 16 boxes) as (Hlen & _ & Henc).
  - simpl. repeat (constructor; [lia|]). constructor.
  - vm_compute. discriminate.
  - exact E.
  - exists boxes. auto.
Defined.

(** X16. The two degenerate splits.  A box without samples cannot be
    split: reading its first sample throws a TypeError.  A box with one
    sample hands that sample to both children, whatever the midpoint of
    its range: the left child's maximum and the right child's minimum on
    the split axis become the sample's value, and all other bounds are the
    parent's. *)
Theorem splitBox_few_samples (box : Box) :
  (colors box = [] -> splitBox box = Throw TypeError) /\
  (forall s, colors box = [s] ->
     exists lb rb,
       splitBox box = Normal (lb, rb) /\
       colors lb = [s] /\ colors rb = [s] /\
       let sortBy := longestAxis box in
       boxMin sortBy lb = boxMin sortBy box /\
       boxMax sortBy lb = channel sortBy s /\
       boxMin sortBy rb = channel sortBy s /\
       boxMax sortBy rb = boxMax sortBy box /\
       inheritsOtherAxes sortBy box lb /\
       inheritsOtherAxes sortBy box rb).
Proof.
  split; [apply splitBox_empty|].
  intros s E. unfold splitBox. rewrite E. cbn [length Nat.leb].
  rewrite (splitSingle_one box _ s E). simpl cbind.
  pose proof (childBoxes_bounds box (longestAxis box) [s] [s]) as Hb.
  destruct (childBoxes box (longestAxis box) [s] [s]) as [lb rb].
  cbv zeta in Hb. cbn [fst snd last head] in Hb.
  destruct Hb as (Hl & Hr & HlMin & HlOth & HlMax & HrMax & HrOth & HrMin).
  exists lb, rb. split; [reflexivity|]. split; [exact Hl|]. split; [exact Hr|].
  cbv zeta. split; [apply HlMin|]. split; [exact HlMax|]. split; [exact HrMin|].
  split; [apply HrMax|]. split.
  - intros a Ha. split; [apply HlMin|apply HlOth, Ha].
  - intros a Ha. split; [apply HrOth, Ha|apply HrMax].
Qed.

Lemma splitBox_few_samples_witness :
  splitBox (initialBox []) = Throw TypeError /\
  exists lb rb,
    splitBox (initialBox [Sample.mk 200 20 30 4]) = Normal (lb, rb) /\
    colors lb = [Sample.mk 200 20 30 4] /\ colors rb = [Sample.mk 200 20 30 4] /\
    rMax lb = 200 /\ rMin rb = 200.
Proof.
  split.
  - apply (splitBox_few_samples (initialBox [])). reflexivity.
  - destruct (splitBox_few_samples (initialBox [Sample.mk 200 20 30 4])) as [_ H].
    destruct (H (Sample.mk 200 20 30 4) eq_refl)
      as (lb & rb & E & Hl & Hr & _ & HlMax & HrMin & _).
    exists lb, rb. auto.
Defined.

(** *** The weighted median *)

Lemma totalCountOf_acc (cs : list Sample.t) : forall acc,
  fold_left (fun acc c => acc + Sample.count c) cs acc = acc + totalCountOf cs.
Proof.
  unfold totalCountOf. induction cs as [|c cs IH]; intros acc; cbn [fold_left]; [lia|].
  rewrite (IH (acc + Sample.count c)), (IH (0 + Sample.count c)). lia.
Qed.

Lemma totalCountOf_cons c cs : totalCountOf (c :: cs) = Sample.count c + totalCountOf cs.
Proof. unfold totalCountOf at 1. simpl. apply totalCountOf_acc. Qed.

Lemma totalCountOf_app cs cs' : totalCountOf (cs ++ cs') = totalCountOf cs + totalCountOf cs'.
Proof.
  induction cs as [|c cs IH]; simpl; [reflexivity|].
  rewrite !totalCountOf_cons, IH. lia.
Qed.

Lemma totalCountOf_Permutation cs cs' : cs ≡ₚ cs' -> totalCountOf cs = totalCountOf cs'.
Proof.
  induction 1; rewrite ?totalCountOf_cons; lia.
Qed.

Lemma totalCountOf_nonneg cs : Forall sampleOk cs -> 0 <= totalCountOf cs.
Proof.
  induction 1 as [|c cs (_ & _ & _ & Hc) _ IH]; [reflexivity|].
  rewrite totalCountOf_cons. lia.
Qed.

(** The median search stops at the first sample with which the running
    count reaches half of the total. *)
Lemma medianFrom_spec (cs : list Sample.t) : forall i acc total,
  2 * acc < total -> total <= 2 * (acc + totalCountOf cs) ->
  exists k, medianFrom cs i acc total = (i + k)%nat /\ (k < length cs)%nat /\
            2 * (acc + totalCountOf (take k cs)) < total /\
            total <= 2 * (acc + totalCountOf (take (S k) cs)).
Proof.
  induction cs as [|c cs IH]; intros i acc total Hlo Hhi.
  - change (totalCountOf []) with 0 in Hhi. lia.
  - rewrite totalCountOf_cons in Hhi. cbn [medianFrom]. cbv zeta.
    destruct (Z.leb_spec total (2 * (acc + Sample.count c))) as [Hstop|Hgo].
    + exists 0%nat. rewrite Nat.add_0_r. split; [reflexivity|]. split; [simpl; lia|].
      rewrite (take_0 (c :: cs)). change (take 1 (c :: cs)) with ([c] ++ take 0 cs).
      rewrite take_0, totalCountOf_app, totalCountOf_cons.
      change (totalCountOf []) with 0. lia.
    + destruct (IH (S i) (acc + Sample.count c) total) as (k & E & Hk & Hlo' & Hhi'); [lia..|].
      exists (S k). split; [rewrite E; lia|]. split; [simpl; lia|].
      cbn [take]. rewrite !totalCountOf_cons. lia.
Qed.

(** X17. A box with more than one sample is split at the weighted median
    of its longest axis: the samples are sorted along that axis, the left
    child takes the shortest prefix whose counts reach half of the total
    count, the right child the rest.  The right child is therefore empty
    exactly when the samples before the last one weigh less than half of
    the total. *)
Theorem splitBox_weighted_median (box : Box) :
  (1 < length (colors box))%nat -> boxOk box ->
  let sorted := sortColors (longestAxis box) (colors box) in
  let total := totalCountOf (colors box) in
  sorted ≡ₚ colors box /\
  StronglySorted (channelLe (longestAxis box)) sorted /\
  exists lb rb before c,
    splitBox box = Normal (lb, rb) /\
    colors lb = before ++ [c] /\
    colors lb ++ colors rb = sorted /\
    2 * totalCountOf before < total <= 2 * totalCountOf (colors lb) /\
    (colors rb = [] <->
     forall before' c', sorted = before' ++ [c'] -> 2 * totalCountOf before' < total).
Proof.
  intros Hlen Hok sorted total.
  split; [apply sortColors_Permutation|]. split; [apply sortColors_sorted|].
  assert (Htot : totalCountOf sorted = total).
  { apply totalCountOf_Permutation, sortColors_Permutation. }
  assert (HokS : Forall sampleOk sorted).
  { unfold sorted. rewrite sortColors_Permutation. exact Hok. }
  assert (HlenS : length sorted = length (colors box)) by apply sortColors_length.
  assert (Hpos : 1 <= total).
  { rewrite <- Htot. pose proof (totalCount_pos sorted HokS 0) as H.
    fold (totalCountOf sorted) in H. lia. }
  destruct (medianFrom_spec sorted 0 0 total) as (k & Ek & Hk & Hlo & Hhi); [lia|lia|].
  simpl in Ek.
  unfold splitBox.
  destruct (Nat.leb_spec (length (colors box)) 1) as [|_]; [lia|].
  unfold splitNormal. cbv zeta. fold sorted. rewrite Htot, Ek. simpl cbind.
  destruct (childBoxes box (longestAxis box) (take (S k) sorted) (drop (S k) sorted))
    as [lb rb] eqn:Ec.
  apply childBoxes_colors in Ec as [El Er].
  destruct (lookup_lt_is_Some_2 sorted k Hk) as [c Hc].
  exists lb, rb, (take k sorted), c.
  split; [reflexivity|]. rewrite El, Er.
  split; [apply take_S_r, Hc|]. split; [apply take_drop|].
  split; [lia|].
  split.
  - intros Hr before' c' Hs.
    assert (E : take (S k) sorted = sorted).
    { rewrite <- (take_drop (S k) sorted) at 2. rewrite Hr, app_nil_r. reflexivity. }
    rewrite (take_S_r _ _ _ Hc), Hs in E.
    apply app_inj_tail in E as [E _].
    rewrite Hs, E in Hlo. lia.
  - intros H. apply drop_ge.
    destruct (Nat.le_gt_cases (length sorted) (S k)) as [Hge|Hlt]; [exact Hge|exfalso].
    destruct (last sorted) as [c'|] eqn:El'.
    2:{ apply last_None in El'. rewrite El' in Hk. simpl in Hk. lia. }
    apply last_Some in El' as [before' Hs].
    specialize (H before' c' Hs).
    assert (Hpre : take (S k) sorted = take (S k) before').
    { rewrite Hs. apply take_app_le.
      rewrite Hs, length_app in Hlt. simpl in Hlt. lia. }
    rewrite Hpre in Hhi.
    assert (Hmono : totalCountOf (take (S k) before') <= totalCountOf before').
    { rewrite <- (take_drop (S k) before') at 2. rewrite totalCountOf_app.
      assert (0 <= totalCountOf (drop (S k) before')); [|lia].
      apply totalCountOf_nonneg, Forall_drop.
      rewrite Hs in HokS. apply Forall_app in HokS as [HokS _]. exact HokS. }
    lia.
Qed.

Lemma splitBox_weighted_median_witness :
  exists lb rb,
    splitBox (initialBox [Sample.mk 1 0 0 3; Sample.mk 0 0 0 1]) = Normal (lb, rb) /\
    colors lb = [Sample.mk 0 0 0 1; Sample.mk 1 0 0 3] /\ colors rb = [].
Proof.
  destruct (splitBox_weighted_median (initialBox [Sample.mk 1 0 0 3; Sample.mk 0 0 0 1]))
    as (_ & _ & lb & rb & before & c & E & Hl & Happ & _ & Hempty).
  - simpl. lia.
  - repeat constructor; simpl; lia.
  - exists lb, rb. split; [exact E|].
    assert (Hr : colors rb = []).
    { apply Hempty. intros before' c' Hs.
      change (sortColors _ _) with ([Sample.mk 0 0 0 1] ++ [Sample.mk 1 0 0 3]) in Hs.
      apply app_inj_tail in Hs as [<- _]. vm_compute. reflexivity. }
    rewrite Hr, app_nil_r in Happ. split; [exact Happ|exact Hr].
Defined.

(** ** Error diffusion: the pixels already visited *)

Lemma rd_wr_eq σ d i v : (i < length (deref σ d))%nat -> rd (wr σ d i v) d i = v.
Proof.
  intros H. unfold rd, readByte. rewrite deref_wr_eq, list_lookup_insert_eq by exact H.
  reflexivity.
Qed.

Lemma rd_wr_ne σ d i j v : i <> j -> rd (wr σ d i v) d j = rd σ d j.
Proof.
  intros H. unfold rd, readByte. rewrite deref_wr_eq, list_lookup_insert_ne by exact H.
  reflexivity.
Qed.

Lemma length_deref_wr σ d i v : length (deref (wr σ d i v) d) = length (deref σ d).
Proof. rewrite deref_wr_eq. apply length_insert. Qed.

Section Diffusion.
Variable d : ref.
Variables width height : nat.

Lemma distributeError_length errR errG errB x1 y1 w16 σ :
  length (deref (distributeError d width height errR errG errB x1 y1 w16 σ) d)
  = length (deref σ d).
Proof.
  unfold distributeError.
  destruct (_ && _); [|reflexivity].
  destruct (128 <=? _); [|reflexivity].
  rewrite !length_deref_wr. reflexivity.
Qed.

(** A call changes at most the three colour bytes of its target pixel. *)
Lemma distributeError_rd errR errG errB x1 y1 w16 σ q c :
  (c < 4)%nat ->
  ~ (0 <= x1 < Z.of_nat width /\ 0 <= y1 < Z.of_nat height /\
     Z.of_nat q = y1 * Z.of_nat width + x1) ->
  rd (distributeError d width height errR errG errB x1 y1 w16 σ) d (4 * q + c)
  = rd σ d (4 * q + c).
Proof.
  intros Hc Hq. unfold distributeError.
  destruct ((0 <=? x1) && (x1 <? Z.of_nat width) && (0 <=? y1) && (y1 <? Z.of_nat height))
    eqn:Hin; [|reflexivity].
  apply andb_prop in Hin as [Hin Hy2]. apply andb_prop in Hin as [Hin Hy1].
  apply andb_prop in Hin as [Hx1 Hx2].
  set (p := Z.to_nat (y1 * Z.of_nat width + x1)).
  assert (Hidx : Z.to_nat ((y1 * Z.of_nat width + x1) * 4) = (4 * p)%nat) by (unfold p; nia).
  rewrite Hidx.
  destruct (128 <=? rd σ d (4 * p + 3)); [|reflexivity].
  assert (Hne : q <> p) by (unfold p; intros ->; apply Hq; nia).
  rewrite !rd_wr_ne by lia. reflexivity.
Qed.

Lemma diffuse_length errR errG errB y x σ :
  length (deref (diffuse d width height errR errG errB y x σ) d) = length (deref σ d).
Proof. unfold diffuse. cbv zeta. rewrite !distributeError_length. reflexivity. Qed.

(** The diffusion that follows pixel (x, y) leaves that pixel and all the
    pixels before it as they are. *)
Lemma diffuse_rd errR errG errB y x σ q c :
  (x < width)%nat -> (q <= y * width + x)%nat -> (c < 4)%nat ->
  rd (diffuse d width height errR errG errB y x σ) d (4 * q + c) = rd σ d (4 * q + c).
Proof.
  intros Hx Hq Hc. unfold diffuse. cbv zeta.
  rewrite !distributeError_rd; [reflexivity|exact Hc|nia..].
Qed.

End Diffusion.

Lemma toUint8Clamp_id v : 0 <= v <= 255 -> toUint8Clamp v = v.
Proof. intros H. unfold toUint8Clamp. lia. Qed.

Lemma pixelAt_rd σ d p :
  pixelAt (deref σ d) p = mkRGB (rd σ d (4 * p)) (rd σ d (4 * p + 1)) (rd σ d (4 * p + 2)).
Proof. reflexivity. Qed.

(** Setting the three colour bytes of pixel [p]. *)
Lemma set_pixel_rd σ d p vR vG vB :
  (4 * p + 3 < length (deref σ d))%nat ->
  let σ' := wr (wr (wr σ d (4 * p) vR) d (4 * p + 1) vG) d (4 * p + 2) vB in
  rd σ' d (4 * p) = vR /\ rd σ' d (4 * p + 1) = vG /\ rd σ' d (4 * p + 2) = vB /\
  (forall j, j <> (4 * p)%nat -> j <> (4 * p + 1)%nat -> j <> (4 * p + 2)%nat ->
             rd σ' d j = rd σ d j).
Proof.
  intros Hlen σ'. subst σ'. repeat split.
  - rewrite !rd_wr_ne by lia. apply rd_wr_eq. lia.
  - rewrite rd_wr_ne by lia. apply rd_wr_eq. rewrite length_deref_wr. lia.
  - apply rd_wr_eq. rewrite !length_deref_wr. lia.
  - intros j H0 H1 H2. rewrite !rd_wr_ne by congruence. reflexivity.
Qed.

Section Settling.
Variable d : ref.
Variables width height : nat.
Variable colorArray : list RGB.
Variable findClosest : Z -> Z -> Z -> nat.
Variable σ0 : store.
Hypothesis Hsize : length (deref σ0 d) = (4 * width * height)%nat.
Hypothesis Hbytes : Forall rgbOk colorArray.
Hypothesis Hvalid : forall r0 g0 b0, is_Some (colorArray !! findClosest r0 g0 b0).

(** Once the loop has passed a pixel, the pixel keeps the palette colour
    that it was given. *)
Lemma ditherPixel_settled y x σ :
  (x < width)%nat -> (y < height)%nat ->
  frame σ0 d σ -> settled (fun c => c ∈ colorArray) σ d (y * width + x) ->
  exists σ', ditherPixel d width height colorArray findClosest y x σ = Normal σ' /\
             frame σ0 d σ' /\
             settled (fun c => c ∈ colorArray) σ' d (S (y * width + x)).
Proof.
  intros Hx Hy Hframe Hset.
  destruct (ditherPixel_frame d width height colorArray findClosest σ0 y x σ Hvalid Hframe)
    as (σ' & E & Hframe').
  exists σ'. split; [exact E|]. split; [exact Hframe'|].
  unfold ditherPixel in E.
  replace ((y * width + x) * 4)%nat with (4 * (y * width + x))%nat in E by lia.
  set (p := (y * width + x)%nat) in *.
  assert (Hlen : (4 * p + 3 < length (deref σ d))%nat).
  { destruct Hframe as (_ & _ & -> & _). rewrite Hsize. unfold p. nia. }
  destruct (Z.ltb_spec (rd σ d (4 * p + 3)) 128) as [Htr|Hop].
  - injection E as <-. intros q Hq Hopq.
    destruct (decide (q = p)) as [->|Hne]; [lia|]. apply Hset; [lia|exact Hopq].
  - destruct (colorArray !! findClosest (rd σ d (4 * p)) (rd σ d (4 * p + 1))
                              (rd σ d (4 * p + 2))) as [c|] eqn:Ec; [|discriminate].
    apply Normal_inj in E.
    pose proof (list_elem_of_lookup_2 _ _ _ Ec) as Hc.
    assert (Hok : rgbOk c) by (rewrite Forall_forall in Hbytes; auto).
    destruct Hok as (Hr & Hg & Hb).
    rewrite !toUint8Clamp_id in E by assumption.
    match type of E with ?lhs = _ =>
      match lhs with
      | context [distributeError _ _ _ ?eR ?eG ?eB _ _ 7 ?s] =>
          change lhs with (diffuse d width height eR eG eB y x s) in E
      end
    end.
    destruct (set_pixel_rd σ d p (r c) (g c) (b c) Hlen) as (H0 & H1 & H2 & Hoth).
    cbv zeta in H0, H1, H2, Hoth.
    intros q Hq Hopq. rewrite pixelAt_rd. rewrite <- E in *.
    rewrite (diffuse_rd d width height _ _ _ y x _ q 3) in Hopq by (unfold p in *; lia).
    replace (4 * q)%nat with (4 * q + 0)%nat at 1 by lia.
    rewrite !(diffuse_rd d width height _ _ _ y x _ q) by (unfold p in *; lia).
    rewrite Nat.add_0_r.
    destruct (decide (q = p)) as [->|Hne].
    + rewrite H0, H1, H2. destruct c; exact Hc.
    + rewrite Hoth in Hopq by lia. rewrite !Hoth by lia.
      apply (Hset q); [lia|exact Hopq].
Qed.

Lemma ditherLoop_settled σ :
  frame σ0 d σ ->
  exists σ', ditherLoop d width height colorArray findClosest σ = Normal σ' /\
             frame σ0 d σ' /\
             settled (fun c => c ∈ colorArray) σ' d (height * width).
Proof.
  intros H. unfold ditherLoop.
  apply (forM_seq_inv
           (fun y σ => frame σ0 d σ /\ settled (fun c => c ∈ colorArray) σ d (y * width))).
  - intros y σ1 Hy [H1 S1].
    replace (S y * width)%nat with (y * width + width)%nat by lia.
    apply (forM_seq_inv
             (fun x σ => frame σ0 d σ /\
                         settled (fun c => c ∈ colorArray) σ d (y * width + x))).
    + intros x σ2 Hx [H2 S2].
      replace (y * width + S x)%nat with (S (y * width + x)) by lia.
      apply ditherPixel_settled; assumption.
    + rewrite Nat.add_0_r. auto.
  - split; [exact H|]. intros p Hp. simpl in Hp. lia.
Qed.

End Settling.

Lemma pixelRGB_pixelAt w h buf x y : pixelRGB (mkImageData w h buf) x y = pixelAt buf (y * w + x).
Proof.
  unfold pixelRGB, pixelAt. simpl.
  replace ((y * w + x) * 4)%nat with (4 * (y * w + x))%nat by lia. reflexivity.
Qed.

(** The disperser as a function of the contents, with what it settles. *)
Lemma ditherData_settled data w h colorArray findClosest :
  length data = (4 * w * h)%nat ->
  Forall rgbOk colorArray ->
  (forall r0 g0 b0, is_Some (colorArray !! findClosest r0 g0 b0)) ->
  exists out,
    ditherData data w h colorArray findClosest = Normal out /\
    preserved data out /\
    forall p, (p < h * w)%nat -> 128 <= readByte out (4 * p + 3) -> pixelAt out p ∈ colorArray.
Proof.
  intros Hlen Hbytes Hvalid. unfold ditherData, applyFloydSteinbergDithering, alloc.
  change (deref [data] 0) with data. simpl length.
  destruct (ditherLoop_settled 1 w h colorArray findClosest ([data] ++ [data]) Hlen Hbytes
              Hvalid ([data] ++ [data]) (frame_refl _ _))
    as (σ' & -> & (_ & _ & Hp) & Hset).
  simpl. eexists. split; [reflexivity|]. split; [exact Hp|]. exact Hset.
Qed.

(** X18. After Floyd-Steinberg dithering every opaque pixel holds a colour
    of the palette, exactly: the error that later pixels diffuse never
    reaches a pixel that the loop has already quantised.  (The palette has
    byte channels and the matcher returns indices of the palette.) *)
Theorem dithered_pixels_in_palette (buf : list Z) (w h : nat) (colorArray : list RGB)
    (findClosest : Z -> Z -> Z -> nat) :
  length buf = (4 * w * h)%nat ->
  Forall rgbOk colorArray ->
  (forall r0 g0 b0, is_Some (colorArray !! findClosest r0 g0 b0)) ->
  exists out,
    ditherData buf w h colorArray findClosest = Normal out /\
    length out = length buf /\
    forall x y, (x < w)%nat -> (y < h)%nat ->
      128 <= pixelAlpha (mkImageData w h buf) x y ->
      pixelAlpha (mkImageData w h out) x y = pixelAlpha (mkImageData w h buf) x y /\
      pixelRGB (mkImageData w h out) x y ∈ colorArray.
Proof.
  intros Hlen Hbytes Hvalid.
  destruct (ditherData_settled buf w h colorArray findClosest Hlen Hbytes Hvalid)
    as (out & E & Hp & Hset).
  exists out. split; [exact E|]. split; [apply Hp|].
  intros x y Hx Hy Hop. unfold pixelAlpha in *. cbn [data width] in *.
  rewrite (preserved_alpha buf out _ Hp). split; [reflexivity|].
  rewrite pixelRGB_pixelAt. apply Hset; [nia|].
  replace (4 * (y * w + x) + 3)%nat with ((y * w + x) * 4 + 3)%nat by lia.
  rewrite (preserved_alpha buf out _ Hp). exact Hop.
Qed.

Lemma dithered_pixels_in_palette_witness :
  exists out,
    ditherData halfTransparent2x1 2 1 twoEntryPalette (findClosestColor twoEntryPalette)
      = Normal out /\
    length out = length halfTransparent2x1 /\
    pixelRGB (mkImageData 2 1 out) 1 0 ∈ twoEntryPalette.
Proof.
  destruct (dithered_pixels_in_palette halfTransparent2x1 2 1 twoEntryPalette
              (findClosestColor twoEntryPalette)) as (out & E & Hlen & Hpix).
  - reflexivity.
  - repeat constructor; simpl; lia.
  - intros r0 g0 b0. apply findClosestColor_valid. discriminate.
  - exists out. split; [exact E|]. split; [exact Hlen|].
    apply (Hpix 1%nat 0%nat); [lia|lia|]. vm_compute. discriminate.
Defined.

(** ** Error diffusion without error *)

Lemma toUint8Clamp16_exact v w16 : 0 <= v <= 255 -> toUint8Clamp16 (16 * v + 0 * w16) = v.
Proof.
  intros Hv. unfold toUint8Clamp16.
  replace (Z.max 0 (Z.min (255 * 16) (16 * v + 0 * w16))) with (v * 16) by lia.
  rewrite Z.div_mul, Z.mod_mul by lia. reflexivity.
Qed.

(** Writing back what an array holds changes nothing. *)
Lemma deref_wr_same σ d i v : v = rd σ d i -> deref (wr σ d i v) d = deref σ d.
Proof.
  intros ->. rewrite deref_wr_eq. unfold rd, readByte.
  destruct (deref σ d !! i) as [x|] eqn:E; simpl.
  - apply list_insert_id. exact E.
  - apply lookup_ge_None in E. apply list_insert_ge. exact E.
Qed.

Lemma rd_deref σ σ' d i : deref σ' d = deref σ d -> rd σ' d i = rd σ d i.
Proof. intros H. unfold rd. rewrite H. reflexivity. Qed.

Section NoError.
Variable d : ref.
Variables width height : nat.
Variable colorArray : list RGB.
Variable buf : list Z.
Hypothesis Hbuf : Forall (fun v => 0 <= v <= 255) buf.
Hypothesis Hbytes : Forall rgbOk colorArray.
Hypothesis Hpalette : forall x y, (x < width)%nat -> (y < height)%nat ->
  128 <= readByte buf (4 * (y * width + x) + 3) -> pixelAt buf (y * width + x) ∈ colorArray.

Lemma rd_byte σ i : deref σ d = buf -> 0 <= rd σ d i <= 255.
Proof. intros H. unfold rd. rewrite H. apply readByte_byte, Hbuf. Qed.

Lemma distributeError_zero x1 y1 w16 σ :
  deref σ d = buf -> deref (distributeError d width height 0 0 0 x1 y1 w16 σ) d = buf.
Proof.
  intros H. unfold distributeError.
  destruct (_ && _); [|exact H].
  destruct (128 <=? _); [|exact H].
  set (idx := Z.to_nat _).
  assert (H1 : deref (wr σ d idx (toUint8Clamp16 (16 * rd σ d idx + 0 * w16))) d = buf).
  { rewrite deref_wr_same; [exact H|]. apply toUint8Clamp16_exact, rd_byte, H. }
  set (σ1 := wr σ d idx _) in *.
  assert (H2 : deref (wr σ1 d (idx + 1)
                        (toUint8Clamp16 (16 * rd σ1 d (idx + 1) + 0 * w16))) d = buf).
  { rewrite deref_wr_same; [exact H1|]. apply toUint8Clamp16_exact, rd_byte, H1. }
  set (σ2 := wr σ1 d (idx + 1) _) in *.
  rewrite deref_wr_same; [exact H2|]. apply toUint8Clamp16_exact, rd_byte, H2.
Qed.

Lemma diffuse_zero y x σ :
  deref σ d = buf -> deref (diffuse d width height 0 0 0 y x σ) d = buf.
Proof.
  intros H. unfold diffuse. cbv zeta. repeat apply distributeError_zero. exact H.
Qed.

Lemma ditherPixel_fixed y x σ :
  (x < width)%nat -> (y < height)%nat -> deref σ d = buf ->
  exists σ', ditherPixel d width height colorArray (findClosestColor colorArray) y x σ
             = Normal σ' /\ deref σ' d = buf.
Proof.
  intros Hx Hy H. unfold ditherPixel.
  replace ((y * width + x) * 4)%nat with (4 * (y * width + x))%nat by lia.
  set (p := (y * width + x)%nat).
  destruct (Z.ltb_spec (rd σ d (4 * p + 3)) 128) as [Htr|Hop]; [eauto|].
  assert (Hin : pixelAt buf p ∈ colorArray).
  { apply Hpalette; [exact Hx|exact Hy|]. unfold rd in Hop. rewrite H in Hop. exact Hop. }
  destruct (findClosestColor_first_occurrence colorArray (pixelAt buf p) Hbytes Hin)
    as [Hfound _].
  assert (Ecol : mkRGB (rd σ d (4 * p)) (rd σ d (4 * p + 1)) (rd σ d (4 * p + 2))
                 = pixelAt buf p) by (rewrite <- H; reflexivity).
  assert (Er : rd σ d (4 * p) = r (pixelAt buf p)) by (rewrite <- Ecol; reflexivity).
  assert (Eg : rd σ d (4 * p + 1) = g (pixelAt buf p)) by (rewrite <- Ecol; reflexivity).
  assert (Eb : rd σ d (4 * p + 2) = b (pixelAt buf p)) by (rewrite <- Ecol; reflexivity).
  rewrite Er, Eg, Eb, Hfound.
  eexists. split; [reflexivity|].
  rewrite !Z.sub_diag.
  match goal with |- deref ?s d = _ =>
    match s with
    | context [distributeError _ _ _ 0 0 0 _ _ 7 ?s0] =>
        change s with (diffuse d width height 0 0 0 y x s0)
    end
  end.
  apply diffuse_zero.
  assert (H1 : deref (wr σ d (4 * p) (toUint8Clamp (r (pixelAt buf p)))) d = buf).
  { rewrite deref_wr_same; [exact H|]. rewrite <- Er. apply toUint8Clamp_id, rd_byte, H. }
  set (σ1 := wr σ d (4 * p) _) in *.
  assert (H2 : deref (wr σ1 d (4 * p + 1) (toUint8Clamp (g (pixelAt buf p)))) d = buf).
  { rewrite deref_wr_same; [exact H1|]. rewrite (rd_deref σ σ1) by congruence.
    rewrite <- Eg. apply toUint8Clamp_id, rd_byte, H. }
  set (σ2 := wr σ1 d (4 * p + 1) _) in *.
  rewrite deref_wr_same; [exact H2|]. rewrite (rd_deref σ σ2) by congruence.
  rewrite <- Eb. apply toUint8Clamp_id, rd_byte, H.
Qed.

Lemma ditherLoop_fixed σ :
  deref σ d = buf ->
  exists σ', ditherLoop d width height colorArray (findClosestColor colorArray) σ
             = Normal σ' /\ deref σ' d = buf.
Proof.
  intros H. unfold ditherLoop.
  apply (forM_seq_inv (fun _ σ => deref σ d = buf)); [|exact H].
  intros y σ1 Hy H1.
  apply (forM_seq_inv (fun _ σ => deref σ d = buf)); [|exact H1].
  intros x σ2 Hx H2. apply ditherPixel_fixed; assumption.
Qed.

End NoError.

(** The disperser leaves a buffer whose opaque pixels have palette colours
    as it is. *)
Lemma ditherData_fixed buf w h colorArray :
  Forall (fun v => 0 <= v <= 255) buf ->
  Forall rgbOk colorArray ->
  (forall x y, (x < w)%nat -> (y < h)%nat ->
     128 <= readByte buf (4 * (y * w + x) + 3) -> pixelAt buf (y * w + x) ∈ colorArray) ->
  ditherData buf w h colorArray (findClosestColor colorArray) = Normal buf.
Proof.
  intros Hbuf Hbytes Hpal. unfold ditherData, applyFloydSteinbergDithering, alloc.
  change (deref [buf] 0) with buf. simpl length.
  destruct (ditherLoop_fixed 1 w h colorArray buf Hbuf Hbytes Hpal ([buf] ++ [buf]))
    as (σ' & -> & Hd); [reflexivity|].
  simpl. rewrite Hd. reflexivity.
Qed.



(** ** Images whose colours are all in the palette *)

Lemma indexOf_exact buf colorArray q :
  Forall rgbOk colorArray -> (length colorArray <= 256)%nat ->
  128 <= readByte buf (q * 4 + 3) -> pixelAt buf q ∈ colorArray ->
  decodedEntry buf colorArray (findClosestColor colorArray) q = Some (pixelAt buf q) /\
  quantizedRGB buf colorArray (findClosestColor colorArray) q = pixelAt buf q.
Proof.
  intros Hbytes Hlen Hop Hin.
  destruct (findClosestColor_first_occurrence colorArray (pixelAt buf q) Hbytes Hin)
    as [Hfound _].
  unfold pixelAt in *. cbn [r g b] in Hfound.
  replace (4 * q)%nat with (q * 4)%nat in * by lia.
  pose proof (lookup_lt_Some _ _ _ Hfound) as Hidx.
  unfold decodedEntry, quantizedRGB, indexOf. cbv zeta.
  destruct (Z.ltb_spec (readByte buf (q * 4 + 3)) 128); [lia|].
  rewrite Z.mod_small by lia. rewrite Nat2Z.id, Hfound. auto.
Qed.

Section PaletteComplete.
Variable imageData : ImageData.
Variable colorArray : list RGB.
Hypothesis Hwf : wfImage imageData.
Hypothesis Hbytes : Forall rgbOk colorArray.
Hypothesis Hcomplete : forall x y,
  (x < width imageData)%nat -> (y < height imageData)%nat ->
  128 <= pixelAlpha imageData x y -> pixelRGB imageData x y ∈ colorArray.

Lemma complete_ditherData :
  ditherData (data imageData) (width imageData) (height imageData) colorArray
    (findClosestColor colorArray) = Normal (data imageData).
Proof.
  destruct Hwf as (_ & _ & _ & Hbuf).
  apply ditherData_fixed; [exact Hbuf|exact Hbytes|].
  intros x y Hx Hy Hop.
  specialize (Hcomplete x y Hx Hy). unfold pixelAlpha in Hcomplete.
  replace ((y * width imageData + x) * 4 + 3)%nat
    with (4 * (y * width imageData + x) + 3)%nat in Hcomplete by lia.
  specialize (Hcomplete Hop). destruct imageData as [w h buf]. cbn [data width height] in *.
  rewrite pixelRGB_pixelAt in Hcomplete. exact Hcomplete.
Qed.

Lemma complete_indexSource flag :
  indexSource imageData colorArray flag = Normal (data imageData).
Proof.
  unfold indexSource. destruct flag; [|reflexivity].
  rewrite complete_ditherData. simpl cbind.
  apply typedArraySet_full. destruct Hwf as (_ & _ & Hlen & _). exact Hlen.
Qed.

Lemma complete_indexSource4Bit flag :
  indexSource4Bit imageData colorArray flag
  = Normal (mkImageData (width imageData) (height imageData) (data imageData)).
Proof.
  unfold indexSource4Bit. destruct flag; [|destruct imageData; reflexivity].
  rewrite complete_ditherData. simpl cbind.
  rewrite typedArraySet_full; [reflexivity|]. destruct Hwf as (_ & _ & Hlen & _). exact Hlen.
Qed.

Lemma complete_pixel x y :
  (length colorArray <= 256)%nat ->
  (x < width imageData)%nat -> (y < height imageData)%nat ->
  128 <= pixelAlpha imageData x y ->
  decodedEntry (data imageData) colorArray (findClosestColor colorArray)
    (y * width imageData + x) = Some (pixelRGB imageData x y) /\
  quantizedRGB (data imageData) colorArray (findClosestColor colorArray)
    (y * width imageData + x) = pixelRGB imageData x y.
Proof.
  intros Hlen Hx Hy Hop.
  pose proof (Hcomplete x y Hx Hy Hop) as Hin.
  assert (E : pixelRGB imageData x y = pixelAt (data imageData) (y * width imageData + x)).
  { destruct imageData as [w h buf]. apply pixelRGB_pixelAt. }
  rewrite E in *. apply indexOf_exact; assumption.
Qed.

End PaletteComplete.

(** Both palette encoders and both previews on an image whose opaque
    colours are all in the palette. *)
Lemma complete_8bit imageData flag colorArray :
  wfImage imageData ->
  build8BitPalette (data imageData) = Normal colorArray ->
  (forall x y, (x < width imageData)%nat -> (y < height imageData)%nat ->
     128 <= pixelAlpha imageData x y -> pixelRGB imageData x y ∈ colorArray) ->
  exists preview file bmpColors,
    generatePreview8Bit imageData flag = Normal preview /\
    encodeBMP8Bit imageData flag = Normal file /\
    extractBMP8BitColors file (width imageData) (height imageData) = Normal bmpColors /\
    forall x y, (x < width imageData)%nat -> (y < height imageData)%nat ->
      128 <= pixelAlpha imageData x y ->
      pixelRGB preview x y = pixelRGB imageData x y /\
      bmpColors !! (y * width imageData + x)%nat = Some (Some (pixelRGB imageData x y)).
Proof.
  intros Hwf Hpal Hcomplete. pose proof Hwf as (_ & _ & _ & Hbuf).
  pose proof (palette_nonempty _ 256 _ ltac:(lia) Hpal) as Hne.
  pose proof (medianCutQuantize_length _ _ _ Hpal) as Hlen.
  pose proof (medianCutQuantize_bytes _ _ _ Hbuf Hpal) as Hok.
  pose proof (complete_indexSource imageData colorArray Hwf Hok Hcomplete flag) as Hsrc.
  destruct (quantized_pixel_agreement imageData colorArray (data imageData) Hne ltac:(lia)
              Hok (preserved_refl _)) as (out & Hq & Hpix).
  destruct (encodeBMP8Bit_file imageData flag colorArray (data imageData) Hpal Hsrc)
    as (hdr & Hhdr & Hfile).
  eexists _, _, _.
  split; [rewrite (generatePreview8Bit_eq _ _ _ _ Hpal Hsrc); exact Hq|].
  split; [exact Hfile|].
  split.
  { apply extractBMP8BitColors_file; [exact Hhdr|exact Hlen|exact Hok|].
    intros q. pose proof (assignIndices_range (data imageData) (width imageData)
                            (height imageData) colorArray Hne ltac:(lia) q). lia. }
  intros x y Hx Hy Hop.
  assert (Hlen' : (length colorArray <= 256)%nat) by lia.
  destruct (complete_pixel imageData colorArray Hwf Hok Hcomplete x y Hlen' Hx Hy Hop)
    as [Hdec _].
  pose proof (Hpix x y Hx Hy Hop) as Hprev. rewrite Hdec in Hprev.
  split; [congruence|].
  rewrite lookup_map_seq by nia. rewrite assignIndices_readByte by nia.
  f_equal. exact Hdec.
Qed.

Lemma complete_4bit imageData flag colorArray :
  wfImage imageData ->
  build4BitPalette (data imageData) = Normal colorArray ->
  (forall x y, (x < width imageData)%nat -> (y < height imageData)%nat ->
     128 <= pixelAlpha imageData x y -> pixelRGB imageData x y ∈ colorArray) ->
  exists preview file bmpColors,
    generatePreview4Bit imageData flag = Normal preview /\
    encodeBMP4Bit imageData flag = Normal file /\
    extractBMP4BitColors file (width imageData) (height imageData) = Normal bmpColors /\
    forall x y, (x < width imageData)%nat -> (y < height imageData)%nat ->
      128 <= pixelAlpha imageData x y ->
      pixelRGB preview x y = pixelRGB imageData x y /\
      bmpColors !! (y * width imageData + x)%nat = Some (Some (pixelRGB imageData x y)).
Proof.
  intros Hwf Hpal Hcomplete. pose proof Hwf as (_ & _ & _ & Hbuf).
  pose proof (palette_nonempty _ 16 _ ltac:(lia) Hpal) as Hne.
  pose proof (medianCutQuantize_length _ _ _ Hpal) as Hlen.
  pose proof (medianCutQuantize_bytes _ _ _ Hbuf Hpal) as Hok.
  pose proof (complete_indexSource4Bit imageData colorArray Hwf Hok Hcomplete flag) as Hsrc.
  destruct (quantized_pixel_agreement imageData colorArray (data imageData) Hne ltac:(lia)
              Hok (preserved_refl _)) as (out & Hq & Hpix).
  destruct (encodeBMP4Bit_file imageData flag colorArray (data imageData) Hpal Hsrc)
    as (hdr & Hhdr & Hfile).
  eexists _, _, _.
  split; [rewrite (generatePreview4Bit_eq _ _ _ _ Hwf Hpal Hsrc); exact Hq|].
  split; [exact Hfile|].
  split.
  { apply extractBMP4BitColors_file; [exact Hhdr|exact Hlen|exact Hok|].
    intros q. pose proof (assignIndices_range (data imageData) (width imageData)
                            (height imageData) colorArray Hne ltac:(lia) q). lia. }
  intros x y Hx Hy Hop.
  assert (Hlen' : (length colorArray <= 256)%nat) by lia.
  destruct (complete_pixel imageData colorArray Hwf Hok Hcomplete x y Hlen' Hx Hy Hop)
    as [Hdec _].
  pose proof (Hpix x y Hx Hy Hop) as Hprev. rewrite Hdec in Hprev.
  split; [congruence|].
  rewrite lookup_map_seq by nia. rewrite assignIndices_readByte by nia.
  f_equal. exact Hdec.
Qed.

(** X20. When the palette that the builder returns holds the colour of
    every opaque pixel, both palette encoders are lossless on the opaque
    pixels, with or without dithering: the file decodes to the image's own
    colours, and so does the preview. *)
Theorem lossless_when_palette_complete (imageData : ImageData) (flag : bool) :
  wfImage imageData ->
  (forall colorArray,
     build8BitPalette (data imageData) = Normal colorArray ->
     (forall x y, (x < width imageData)%nat -> (y < height imageData)%nat ->
        128 <= pixelAlpha imageData x y -> pixelRGB imageData x y ∈ colorArray) ->
     exists preview file bmpColors,
       generatePreview8Bit imageData flag = Normal preview /\
       encodeBMP8Bit imageData flag = Normal file /\
       extractBMP8BitColors file (width imageData) (height imageData) = Normal bmpColors /\
       forall x y, (x < width imageData)%nat -> (y < height imageData)%nat ->
         128 <= pixelAlpha imageData x y ->
         pixelRGB preview x y = pixelRGB imageData x y /\
         bmpColors !! (y * width imageData + x)%nat
         = Some (Some (pixelRGB imageData x y))) /\
  (forall colorArray,
     build4BitPalette (data imageData) = Normal colorArray ->
     (forall x y, (x < width imageData)%nat -> (y < height imageData)%nat ->
        128 <= pixelAlpha imageData x y -> pixelRGB imageData x y ∈ colorArray) ->
     exists preview file bmpColors,
       generatePreview4Bit imageData flag = Normal preview /\
       encodeBMP4Bit imageData flag = Normal file /\
       extractBMP4BitColors file (width imageData) (height imageData) = Normal bmpColors /\
       forall x y, (x < width imageData)%nat -> (y < height imageData)%nat ->
         128 <= pixelAlpha imageData x y ->
         pixelRGB preview x y = pixelRGB imageData x y /\
         bmpColors !! (y * width imageData + x)%nat
         = Some (Some (pixelRGB imageData x y))).
Proof.
  intros Hwf. split; intros colorArray Hpal Hcomplete.
  - apply (complete_8bit imageData flag colorArray Hwf Hpal Hcomplete).
  - apply (complete_4bit imageData flag colorArray Hwf Hpal Hcomplete).
Qed.

Lemma wfImage_gray2x2 : wfImage gray2x2.
Proof.
  repeat split; simpl; try lia.
  repeat (constructor; [lia|]). constructor.
Qed.

Lemma lossless_when_palette_complete_witness :
  exists preview file bmpColors,
    generatePreview8Bit gray2x2 true = Normal preview /\
    encodeBMP8Bit gray2x2 true = Normal file /\
    extractBMP8BitColors file 2 2 = Normal bmpColors /\
    pixelRGB preview 1 1 = mkRGB 128 128 128 /\
    bmpColors !! 3%nat = Some (Some (mkRGB 128 128 128)).
Proof.
  destruct (lossless_when_palette_complete gray2x2 true wfImage_gray2x2) as [H8 _].
  assert (E : build8BitPalette (data gray2x2)
              = Normal (take 256 (black :: replicate 255 (mkRGB 128 128 128))))
    by (vm_compute; reflexivity).
  destruct (H8 _ E) as (preview & file & bmpColors & Hp & Hf & Hd & Hpix).
  - intros [|[|x]] [|[|y]] Hx Hy _; simpl in Hx, Hy; try lia;
      apply (list_elem_of_lookup_2 _ 1); reflexivity.
  - exists preview, file, bmpColors. split; [exact Hp|]. split; [exact Hf|].
    split; [exact Hd|].
    apply (Hpix 1%nat 1%nat); [simpl; lia|simpl; lia|vm_compute; discriminate].
Defined.

(** *** Uniform images *)

Lemma opaquePixels_elem_2 : forall n buf q,
  (length buf <= n)%nat -> (4 * q + 3 < length buf)%nat ->
  128 <= readByte buf (4 * q + 3) -> pixelAt buf q ∈ opaquePixels buf.
Proof.
  induction n as [|n IH]; intros buf q Hlen Hq Hop; [lia|].
  destruct buf as [|r0 [|g0 [|b0 [|a0 rest]]]]; try (simpl in Hq; lia).
  simpl in Hlen. cbn [opaquePixels].
  destruct q as [|q].
  - change (readByte (r0 :: g0 :: b0 :: a0 :: rest) (4 * 0 + 3)) with a0 in Hop.
    destruct (Z.ltb_spec a0 128); [lia|]. left.
  - assert (Hrest : pixelAt rest q ∈ opaquePixels rest).
    { apply IH; [lia|simpl in Hq; lia|].
      replace (4 * S q + 3)%nat with (S (S (S (S (4 * q + 3))))) in Hop by lia. exact Hop. }
    assert (E : pixelAt (r0 :: g0 :: b0 :: a0 :: rest) (S q) = pixelAt rest q).
    { unfold pixelAt. replace (4 * S q)%nat with (S (S (S (S (4 * q))))) by lia. reflexivity. }
    rewrite E. destruct (a0 <? 128); [exact Hrest|right; exact Hrest].
Qed.

(** The opaque pixels of a well-formed image whose opaque pixels all have
    the colour [c]. *)
Lemma uniform_opaquePixels imageData c :
  wfImage imageData ->
  (exists x y, (x < width imageData)%nat /\ (y < height imageData)%nat /\
               128 <= pixelAlpha imageData x y) ->
  (forall x y, (x < width imageData)%nat -> (y < height imageData)%nat ->
     128 <= pixelAlpha imageData x y -> pixelRGB imageData x y = c) ->
  opaquePixels (data imageData) <> [] /\
  forall c', c' ∈ opaquePixels (data imageData) -> c' = c.
Proof.
  intros (_ & _ & Hlen & _) (x0 & y0 & Hx0 & Hy0 & Hop0) Hall.
  destruct imageData as [w h buf]. cbn [data width height] in *.
  unfold pixelAlpha in *. cbn [data width] in *.
  split.
  - assert (Hin : pixelAt buf (y0 * w + x0) ∈ opaquePixels buf).
    { apply (opaquePixels_elem_2 _ _ _ (Nat.le_refl _)); [nia|].
      replace (4 * (y0 * w + x0) + 3)%nat with ((y0 * w + x0) * 4 + 3)%nat by lia.
      exact Hop0. }
    intros E. rewrite E in Hin. apply elem_of_nil in Hin. contradiction.
  - intros c' Hc'.
    destruct (opaquePixels_elem _ _ _ (Nat.le_refl _) Hc') as (q & Hq & Ha & ->).
    destruct (pixel_of_index w h q ltac:(lia)) as (x & y & Hx & Hy & ->).
    rewrite <- (Hall x y Hx Hy).
    + rewrite pixelRGB_pixelAt. reflexivity.
    + replace ((y * w + x) * 4 + 3)%nat with (4 * (y * w + x) + 3)%nat by lia. exact Ha.
Qed.

(** X21. A uniform image is encoded without loss at 8 and at 4 bits, with
    or without dithering: when all opaque pixels have the colour c, the
    palette is black followed by copies of c, and at every opaque pixel
    both the decoded file and the preview give back c exactly. *)
Theorem uniform_image_lossless (imageData : ImageData) (c : RGB) (flag : bool) :
  wfImage imageData ->
  (exists x y, (x < width imageData)%nat /\ (y < height imageData)%nat /\
               128 <= pixelAlpha imageData x y) ->
  (forall x y, (x < width imageData)%nat -> (y < height imageData)%nat ->
     128 <= pixelAlpha imageData x y -> pixelRGB imageData x y = c) ->
  (build8BitPalette (data imageData) = Normal (black :: replicate 255 c) /\
   exists preview file bmpColors,
     generatePreview8Bit imageData flag = Normal preview /\
     encodeBMP8Bit imageData flag = Normal file /\
     extractBMP8BitColors file (width imageData) (height imageData) = Normal bmpColors /\
     forall x y, (x < width imageData)%nat -> (y < height imageData)%nat ->
       128 <= pixelAlpha imageData x y ->
       pixelRGB preview x y = c /\
       bmpColors !! (y * width imageData + x)%nat = Some (Some c)) /\
  (build4BitPalette (data imageData) = Normal (black :: replicate 15 c) /\
   exists preview file bmpColors,
     generatePreview4Bit imageData flag = Normal preview /\
     encodeBMP4Bit imageData flag = Normal file /\
     extractBMP4BitColors file (width imageData) (height imageData) = Normal bmpColors /\
     forall x y, (x < width imageData)%nat -> (y < height imageData)%nat ->
       128 <= pixelAlpha imageData x y ->
       pixelRGB preview x y = c /\
       bmpColors !! (y * width imageData + x)%nat = Some (Some c)).
Proof.
  intros Hwf Hsome Hall. pose proof Hwf as (_ & _ & _ & Hbuf).
  destruct (uniform_opaquePixels imageData c Hwf Hsome Hall) as [Hne Hc].
  pose proof (medianCutQuantize_one (data imageData) 256 c Hbuf Hne Hc) as H8.
  pose proof (medianCutQuantize_one (data imageData) 16 c Hbuf Hne Hc) as H4.
  change (take 256 (black :: replicate (256 - 1) c)) with (black :: replicate 255 c) in H8.
  change (take 16 (black :: replicate (16 - 1) c)) with (black :: replicate 15 c) in H4.
  split.
  - split; [exact H8|].
    destruct (complete_8bit imageData flag _ Hwf H8)
      as (preview & file & bmpColors & Hp & Hf & Hd & Hpix).
    { intros x y Hx Hy Hop. rewrite (Hall x y Hx Hy Hop). right. left. }
    exists preview, file, bmpColors. split; [exact Hp|]. split; [exact Hf|].
    split; [exact Hd|]. intros x y Hx Hy Hop.
    rewrite <- (Hall x y Hx Hy Hop). apply Hpix; assumption.
  - split; [exact H4|].
    destruct (complete_4bit imageData flag _ Hwf H4)
      as (preview & file & bmpColors & Hp & Hf & Hd & Hpix).
    { intros x y Hx Hy Hop. rewrite (Hall x y Hx Hy Hop). right. left. }
    exists preview, file, bmpColors. split; [exact Hp|]. split; [exact Hf|].
    split; [exact Hd|]. intros x y Hx Hy Hop.
    rewrite <- (Hall x y Hx Hy Hop). apply Hpix; assumption.
Qed.

Lemma uniform_image_lossless_witness :
  build4BitPalette (data gray2x2) = Normal (black :: replicate 15 (mkRGB 128 128 128)) /\
  exists preview file bmpColors,
    generatePreview4Bit gray2x2 true = Normal preview /\
    encodeBMP4Bit gray2x2 true = Normal file /\
    extractBMP4BitColors file 2 2 = Normal bmpColors /\
    pixelRGB preview 0 1 = mkRGB 128 128 128 /\
    bmpColors !! 2%nat = Some (Some (mkRGB 128 128 128)).
Proof.
  destruct (uniform_image_lossless gray2x2 (mkRGB 128 128 128) true wfImage_gray2x2)
    as [_ [Hpal (preview & file & bmpColors & Hp & Hf & Hd & Hpix)]].
  - exists 0%nat, 0%nat. simpl. split; [lia|]. split; [lia|]. vm_compute. discriminate.
  - intros [|[|x]] [|[|y]] Hx Hy _; simpl in Hx, Hy; try lia; reflexivity.
  - split; [exact Hpal|]. exists preview, file, bmpColors.
    split; [exact Hp|]. split; [exact Hf|]. split; [exact Hd|].
    apply (Hpix 0%nat 1%nat); [simpl; lia|simpl; lia|vm_compute; discriminate].
Defined.

(** *** What the previews keep *)

(** The requantiser on a buffer that agrees with the image on its frozen
    bytes: alpha is the image's, a transparent pixel is black, an opaque
    pixel has a colour of the palette. *)
Lemma quantized_preview imageData colorArray src :
  wfImage imageData -> colorArray <> [] -> Forall rgbOk colorArray ->
  preserved (data imageData) src ->
  exists preview,
    quantizeImageData (mkImageData (width imageData) (height imageData) src)
      colorArray (findClosestColor colorArray) = Normal preview /\
    width preview = width imageData /\ height preview = height imageData /\
    length (data preview) = (4 * width imageData * height imageData)%nat /\
    forall x y, (x < width imageData)%nat -> (y < height imageData)%nat ->
      pixelAlpha preview x y = pixelAlpha imageData x y /\
      (pixelAlpha imageData x y < 128 -> pixelRGB preview x y = black) /\
      (128 <= pixelAlpha imageData x y -> pixelRGB preview x y ∈ colorArray).
Proof.
  intros (_ & _ & _ & Hbuf) Hne Hok Hp.
  destruct (quantizeImageData_spec src (width imageData) (height imageData) colorArray
              (findClosestColor colorArray)) as (out & Hq & Hl & Hpix).
  { intros. apply findClosestColor_valid, Hne. }
  { exact Hok. }
  exists (mkImageData (width imageData) (height imageData) out).
  split; [exact Hq|]. cbn [width height data].
  split; [reflexivity|]. split; [reflexivity|]. split; [exact Hl|].
  intros x y Hx Hy.
  destruct (Hpix (y * width imageData + x)%nat ltac:(nia)) as (H0 & H1 & H2 & H3).
  assert (Ha : readByte src ((y * width imageData + x) * 4 + 3)
               = pixelAlpha imageData x y) by apply (preserved_alpha _ _ _ Hp).
  assert (Hrgb : pixelRGB (mkImageData (width imageData) (height imageData) out) x y
                 = quantizedRGB src colorArray (findClosestColor colorArray)
                     (y * width imageData + x)).
  { unfold pixelRGB, readByte. cbn [data width]. rewrite H0, H1, H2. simpl.
    destruct (quantizedRGB _ _ _ _); reflexivity. }
  split.
  - unfold pixelAlpha at 1, readByte. cbn [data width]. rewrite H3. simpl.
    rewrite Ha. apply toUint8Clamp_byte. apply readByte_byte, Hbuf.
  - rewrite Hrgb. unfold quantizedRGB. cbv zeta. rewrite Ha. split; intros Hop.
    + destruct (Z.ltb_spec (pixelAlpha imageData x y) 128); [reflexivity|lia].
    + destruct (Z.ltb_spec (pixelAlpha imageData x y) 128); [lia|].
      destruct (findClosestColor_valid
                  (readByte src ((y * width imageData + x) * 4))
                  (readByte src ((y * width imageData + x) * 4 + 1))
                  (readByte src ((y * width imageData + x) * 4 + 2)) colorArray Hne)
        as [c Hc].
      rewrite Hc. simpl. apply list_elem_of_lookup_2 in Hc. exact Hc.
Qed.

(** X22. The previews keep the shape and the alpha channel of the image:
    once the palette is built, the 8-bit and the 4-bit preview return an
    image of the same width and height whose alpha equals the image's at
    every pixel, whose transparent pixels are black and whose opaque pixels
    all carry a colour of the palette; the 24-bit preview has the image's
    own bytes. *)
Theorem previews_keep_alpha (imageData : ImageData) (flag : bool) :
  wfImage imageData ->
  generatePreview24Bit imageData = imageData /\
  (forall colorArray, build8BitPalette (data imageData) = Normal colorArray ->
     exists preview,
       generatePreview8Bit imageData flag = Normal preview /\
       width preview = width imageData /\ height preview = height imageData /\
       length (data preview) = (4 * width imageData * height imageData)%nat /\
       forall x y, (x < width imageData)%nat -> (y < height imageData)%nat ->
         pixelAlpha preview x y = pixelAlpha imageData x y /\
         (pixelAlpha imageData x y < 128 -> pixelRGB preview x y = black) /\
         (128 <= pixelAlpha imageData x y -> pixelRGB preview x y ∈ colorArray)) /\
  (forall colorArray, build4BitPalette (data imageData) = Normal colorArray ->
     exists preview,
       generatePreview4Bit imageData flag = Normal preview /\
       width preview = width imageData /\ height preview = height imageData /\
       length (data preview) = (4 * width imageData * height imageData)%nat /\
       forall x y, (x < width imageData)%nat -> (y < height imageData)%nat ->
         pixelAlpha preview x y = pixelAlpha imageData x y /\
         (pixelAlpha imageData x y < 128 -> pixelRGB preview x y = black) /\
         (128 <= pixelAlpha imageData x y -> pixelRGB preview x y ∈ colorArray)).
Proof.
  intros Hwf. pose proof Hwf as (_ & _ & _ & Hbuf).
  split; [destruct imageData; reflexivity|]. split.
  - intros colorArray Hpal.
    pose proof (palette_nonempty _ 256 _ ltac:(lia) Hpal) as Hne.
    pose proof (medianCutQuantize_bytes _ _ _ Hbuf Hpal) as Hok.
    destruct (indexSource_spec imageData colorArray flag Hwf Hne) as (src & Hsrc & Hp).
    rewrite (generatePreview8Bit_eq _ _ _ _ Hpal Hsrc).
    apply quantized_preview; assumption.
  - intros colorArray Hpal.
    pose proof (palette_nonempty _ 16 _ ltac:(lia) Hpal) as Hne.
    pose proof (medianCutQuantize_bytes _ _ _ Hbuf Hpal) as Hok.
    destruct (indexSource4Bit_spec imageData colorArray flag Hwf Hne) as (src & Hsrc & Hp).
    rewrite (generatePreview4Bit_eq _ _ _ _ Hwf Hpal Hsrc).
    apply quantized_preview; assumption.
Qed.

Lemma previews_keep_alpha_witness :
  exists preview,
    generatePreview8Bit mixed3x2 true = Normal preview /\
    width preview = 3%nat /\ height preview = 2%nat /\
    length (data preview) = 24%nat.
Proof.
  destruct (previews_keep_alpha mixed3x2 true wfImage_mixed3x2) as (_ & H8 & _).
  destruct (build8BitPalette (data mixed3x2)) as [colorArray| |] eqn:E;
    [|vm_compute in E; discriminate E..].
  destruct (H8 colorArray eq_refl) as (preview & Hp & Hw & Hh & Hl & _).
  exists preview. split; [exact Hp|]. split; [exact Hw|]. split; [exact Hh|]. exact Hl.
Defined.

(** ** The fixed-level disperser *)

(** The thresholds of [quantize] on the bytes. *)
Lemma quantize_table :
  forallb (fun v => quantize v =? (if v <=? 42 then 0 else if v <=? 127 then 85
                                   else if v <=? 212 then 170 else 255))
          (map Z.of_nat (seq 0 256)) = true.
Proof. vm_compute. reflexivity. Qed.

Lemma quantize_byte v :
  0 <= v <= 255 ->
  quantize v = if v <=? 42 then 0 else if v <=? 127 then 85
               else if v <=? 212 then 170 else 255.
Proof.
  intros Hv. pose proof quantize_table as H. rewrite forallb_forall in H.
  specialize (H v). apply Z.eqb_eq, H.
  apply in_map_iff. exists (Z.to_nat v). split; [lia|]. apply in_seq. lia.
Qed.

Lemma levelOf_cases v : levelOf v = 0 \/ levelOf v = 85 \/ levelOf v = 170 \/ levelOf v = 255.
Proof.
  unfold levelOf, quantize. set (k := mathRound _). clearbody k. lia.
Qed.

Lemma levelCube_lookup r0 g0 b0 :
  levelCube !! cubeIndex r0 g0 b0 = Some (mkRGB (levelOf r0) (levelOf g0) (levelOf b0)).
Proof.
  unfold cubeIndex.
  destruct (levelOf_cases r0) as [-> | [-> | [-> | ->]]];
    destruct (levelOf_cases g0) as [-> | [-> | [-> | ->]]];
    destruct (levelOf_cases b0) as [-> | [-> | [-> | ->]]]; reflexivity.
Qed.

Lemma levelCube_ok : Forall rgbOk levelCube.
Proof. unfold levelCube, levels. simpl. repeat constructor; simpl; lia. Qed.

Lemma levelCube_levels c :
  c ∈ levelCube -> r c ∈ levels /\ g c ∈ levels /\ b c ∈ levels.
Proof.
  assert (H : Forall (fun c => r c ∈ levels /\ g c ∈ levels /\ b c ∈ levels) levelCube).
  { unfold levelCube, levels. simpl.
    repeat (constructor; [simpl; repeat split;
      repeat first [apply list_elem_of_here | apply list_elem_of_further]|]).
    constructor. }
  rewrite Forall_forall in H. apply H.
Qed.

(** The pixel step of the fixed-level disperser is the Floyd-Steinberg step
    on the cube of levels. *)
Lemma ditherPixel4Bit_cube d w h y x σ :
  ditherPixel4Bit d w h y x σ = ditherPixel d w h levelCube cubeIndex y x σ.
Proof.
  unfold ditherPixel4Bit, ditherPixel. cbv zeta.
  destruct (_ <? 128); [reflexivity|].
  rewrite levelCube_lookup. reflexivity.
Qed.

Lemma dither4BitLoop_cube d w h σ :
  dither4BitLoop d w h σ = ditherLoop d w h levelCube cubeIndex σ.
Proof.
  unfold dither4BitLoop, ditherLoop.
  revert σ. induction (seq 0 h) as [|y ys IH]; intros σ; [reflexivity|].
  cbn [forM].
  assert (E : forall xs σ1,
             forM xs (fun x σ2 => ditherPixel4Bit d w h y x σ2) σ1
             = forM xs (fun x σ2 => ditherPixel d w h levelCube cubeIndex y x σ2) σ1).
  { induction xs as [|x xs IHx]; intros σ1; [reflexivity|].
    cbn [forM]. rewrite ditherPixel4Bit_cube.
    destruct (ditherPixel _ _ _ _ _ _ _ _) as [σ2| |]; simpl; auto. }
  rewrite E. destruct (forM (seq 0 w) _ σ) as [σ1| |]; simpl; auto.
Qed.

(** X23. The fixed-level disperser never throws and works on a copy: it
    returns a reference that did not exist before and leaves every array of
    the store it was called in unchanged.  In the new array every pixel
    keeps its alpha, a transparent pixel keeps its colour as well, and every
    opaque pixel ends with each channel at one of the levels 0, 85, 170 and
    255, whatever error the pixels after it diffuse. *)
Theorem applyDithering4Bit_levels (σ : store) (data : ref) (buf : list Z)
    (width height : nat) :
  σ !! data = Some buf ->
  length buf = (4 * width * height)%nat ->
  exists σ' ditheredData buf',
    applyDithering4Bit σ data width height = Normal (σ', ditheredData) /\
    σ !! ditheredData = None /\
    (forall l, (l < length σ)%nat -> σ' !! l = σ !! l) /\
    σ' !! ditheredData = Some buf' /\
    length buf' = length buf /\
    forall x y, (x < width)%nat -> (y < height)%nat ->
      let i := ((y * width + x) * 4)%nat in
      buf' !! (i + 3)%nat = buf !! (i + 3)%nat /\
      (readByte buf (i + 3) < 128 ->
         buf' !! i = buf !! i /\ buf' !! (i + 1)%nat = buf !! (i + 1)%nat /\
         buf' !! (i + 2)%nat = buf !! (i + 2)%nat) /\
      (128 <= readByte buf (i + 3) ->
         readByte buf' i ∈ levels /\ readByte buf' (i + 1) ∈ levels /\
         readByte buf' (i + 2) ∈ levels).
Proof.
  intros Hdata Hlen. unfold applyDithering4Bit, alloc.
  assert (Hd : deref σ data = buf) by (unfold deref; rewrite Hdata; reflexivity).
  rewrite Hd. rewrite dither4BitLoop_cube.
  assert (Hnew : deref (σ ++ [buf]) (length σ) = buf).
  { unfold deref. rewrite lookup_app_r by lia. rewrite Nat.sub_diag. reflexivity. }
  destruct (ditherLoop_settled (length σ) width height levelCube cubeIndex (σ ++ [buf])
              ltac:(rewrite Hnew; exact Hlen) levelCube_ok
              ltac:(intros; rewrite levelCube_lookup; eauto)
              (σ ++ [buf]) (frame_refl _ _))
    as (σ' & -> & (Hl & Hother & Hbl & Hfrozen) & Hset).
  rewrite Hnew in Hbl, Hfrozen.
  assert (Hsome : exists buf', σ' !! length σ = Some buf').
  { apply lookup_lt_is_Some. rewrite Hl, length_app. simpl. lia. }
  destruct Hsome as [buf' Hbuf'].
  assert (Hd' : deref σ' (length σ) = buf') by (unfold deref; rewrite Hbuf'; reflexivity).
  rewrite Hd' in Hbl, Hfrozen.
  exists σ', (length σ), buf'. simpl.
  split; [reflexivity|]. split; [apply lookup_ge_None; lia|].
  split. { intros l Hlt. rewrite Hother by lia. apply lookup_app_l, Hlt. }
  split; [exact Hbuf'|]. split; [exact Hbl|].
  intros x y Hx Hy.
  replace ((y * width + x) * 4)%nat with (4 * (y * width + x))%nat in * by lia.
  set (p := (y * width + x)%nat) in *.
  assert (Ha : buf' !! (4 * p + 3)%nat = buf !! (4 * p + 3)%nat).
  { apply Hfrozen. left. apply pixel_byte_mod. lia. }
  split; [exact Ha|]. split.
  - intros Halpha.
    assert (Hf : forall c, (c < 4)%nat -> frozen buf (4 * p + c)).
    { intros c Hc. right. rewrite pixel_byte_div by exact Hc. exact Halpha. }
    replace (4 * p)%nat with (4 * p + 0)%nat at 1 2 by lia.
    repeat split; apply Hfrozen, Hf; lia.
  - intros Hop.
    assert (Hin : pixelAt buf' p ∈ levelCube).
    { rewrite <- Hd'. apply Hset; [unfold p; nia|].
      unfold rd, readByte. rewrite Hd', Ha. exact Hop. }
    apply levelCube_levels in Hin. exact Hin.
Qed.

Lemma applyDithering4Bit_levels_witness :
  exists σ' ditheredData buf',
    applyDithering4Bit [halfTransparent2x1] 0%nat 2 1 = Normal (σ', ditheredData) /\
    σ' !! 0%nat = Some halfTransparent2x1 /\
    σ' !! ditheredData = Some buf' /\
    readByte buf' 4 ∈ levels /\ buf' !! 0%nat = Some 10.
Proof.
  destruct (applyDithering4Bit_levels [halfTransparent2x1] 0%nat halfTransparent2x1 2 1
              eq_refl eq_refl)
    as (σ' & d & buf' & E & _ & Hold & Hbuf' & _ & Hpix).
  exists σ', d, buf'. split; [exact E|]. split; [apply (Hold 0%nat); simpl; lia|].
  split; [exact Hbuf'|]. split.
  - destruct (Hpix 1%nat 0%nat) as (_ & _ & Hop); [lia|lia|].
    apply Hop. vm_compute. discriminate.
  - destruct (Hpix 0%nat 0%nat) as (_ & Htr & _); [lia|lia|].
    apply Htr. reflexivity.
Defined.

(** X24. The levels of the fixed-level quantiser on the bytes: the double
    computation [Math.round((val / 255) * 3) * 85] sends 0..42 to 0,
    43..127 to 85, 128..212 to 170 and 213..255 to 255; it fixes the four
    levels and never moves a byte by more than 42. *)
Theorem quantize_thresholds (val : Z) :
  0 <= val <= 255 ->
  quantize val = (if val <=? 42 then 0 else if val <=? 127 then 85
                  else if val <=? 212 then 170 else 255) /\
  (val ∈ levels -> quantize val = val) /\
  Z.abs (val - quantize val) <= 42.
Proof.
  intros Hv. rewrite (quantize_byte val Hv). split; [reflexivity|]. split.
  - unfold levels. intros Hin.
    repeat (apply elem_of_cons in Hin as [->|Hin]; [reflexivity|]).
    apply elem_of_nil in Hin. contradiction.
  - destruct (Z.leb_spec val 42); [lia|]. destruct (Z.leb_spec val 127); [lia|].
    destruct (Z.leb_spec val 212); lia.
Qed.

Lemma quantize_thresholds_witness : quantize 127 = 85 /\ quantize 128 = 170.
Proof.
  split.
  - apply (quantize_thresholds 127). lia.
  - apply (quantize_thresholds 128). lia.
Defined.

(** ** The image helpers of the tests *)

Lemma createTestImageData_spec w h gen :
  let buf := data (createTestImageData w h gen) in
  length buf = (w * h * 4)%nat /\
  forall q, (q < h * w)%nat ->
    buf !! (q * 4)%nat = Some (toUint8Clamp (default 0 (Pixel.r (gen (q mod w)%nat (q / w)%nat)))) /\
    buf !! (q * 4 + 1)%nat
      = Some (toUint8Clamp (default 0 (Pixel.g (gen (q mod w)%nat (q / w)%nat)))) /\
    buf !! (q * 4 + 2)%nat
      = Some (toUint8Clamp (default 0 (Pixel.b (gen (q mod w)%nat (q / w)%nat)))) /\
    buf !! (q * 4 + 3)%nat
      = Some (toUint8Clamp (default 255 (Pixel.a (gen (q mod w)%nat (q / w)%nat)))).
Proof.
  unfold createTestImageData. cbn [data]. cbv zeta.
  set (P := fun (n : nat) (buf : list Z) =>
    length buf = (w * h * 4)%nat /\
    forall q, (q < n)%nat ->
      buf !! (q * 4)%nat = Some (toUint8Clamp (default 0 (Pixel.r (gen (q mod w)%nat (q / w)%nat)))) /\
      buf !! (q * 4 + 1)%nat
        = Some (toUint8Clamp (default 0 (Pixel.g (gen (q mod w)%nat (q / w)%nat)))) /\
      buf !! (q * 4 + 2)%nat
        = Some (toUint8Clamp (default 0 (Pixel.b (gen (q mod w)%nat (q / w)%nat)))) /\
      buf !! (q * 4 + 3)%nat
        = Some (toUint8Clamp (default 255 (Pixel.a (gen (q mod w)%nat (q / w)%nat))))).
  apply (fold_left_seq_inv (fun y buf => P (y * w)%nat buf)).
  - intros y buf Hy HP.
    replace (S y * w)%nat with (y * w + w)%nat by lia.
    apply (fold_left_seq_inv (fun x buf => P (y * w + x)%nat buf));
      [|rewrite Nat.add_0_r; exact HP].
    intros x buf' Hx [Hlen Hq]. unfold setClamped.
    replace (y * w + S x)%nat with (S (y * w + x)) by lia.
    set (p := (y * w + x)%nat).
    assert (Hin : (p * 4 + 3 < length buf')%nat) by (rewrite Hlen; unfold p; nia).
    destruct (set4_spec buf' (p * 4)
                (toUint8Clamp (default 0 (Pixel.r (gen x y))))
                (toUint8Clamp (default 0 (Pixel.g (gen x y))))
                (toUint8Clamp (default 0 (Pixel.b (gen x y))))
                (toUint8Clamp (default 255 (Pixel.a (gen x y)))) Hin)
      as (Hl & H0 & H1 & H2 & H3 & Hother).
    cbv zeta in Hl, H0, H1, H2, H3, Hother.
    split; [rewrite Hl; exact Hlen|].
    intros q Hlt. destruct (decide (q = p)) as [->|Hne].
    + assert (Ex : (p mod w = x)%nat).
      { unfold p. rewrite Nat.add_comm, Nat.Div0.mod_add. apply Nat.mod_small, Hx. }
      assert (Ey : (p / w = y)%nat).
      { unfold p. rewrite Nat.add_comm, Nat.div_add by lia.
        rewrite Nat.div_small by exact Hx. reflexivity. }
      rewrite Ex, Ey. auto.
    + rewrite !Hother by lia. apply Hq. fold p. lia.
  - split; [rewrite length_replicate; reflexivity|]. intros q Hq. lia.
Qed.

(** X25. The image helpers of the tests: [createTestImageData] builds an
    image of 4·width·height bytes, well formed when both dimensions are
    positive, and [extractImageDataColors] reads back from it, at index
    y·width + x, what the generator returned for (x, y), each channel
    clamped to a byte, an absent colour channel as 0 and an absent alpha
    as 255. *)
Theorem createTestImageData_roundtrip (w h : nat) (gen : nat -> nat -> Pixel.t) :
  length (extractImageDataColors (createTestImageData w h gen)) = (w * h)%nat /\
  ((0 < w)%nat -> (0 < h)%nat -> wfImage (createTestImageData w h gen)) /\
  forall x y, (x < w)%nat -> (y < h)%nat ->
    extractImageDataColors (createTestImageData w h gen) !! (y * w + x)%nat
    = Some (Pixel.mk (Some (toUint8Clamp (default 0 (Pixel.r (gen x y)))))
                     (Some (toUint8Clamp (default 0 (Pixel.g (gen x y)))))
                     (Some (toUint8Clamp (default 0 (Pixel.b (gen x y)))))
                     (Some (toUint8Clamp (default 255 (Pixel.a (gen x y)))))).
Proof.
  destruct (createTestImageData_spec w h gen) as [Hlen Hpix]. cbv zeta in Hlen, Hpix.
  assert (Hn : ((length (data (createTestImageData w h gen)) + 3) / 4 = w * h)%nat).
  { rewrite Hlen. replace (w * h * 4 + 3)%nat with (3 + (w * h) * 4)%nat by lia.
    rewrite Nat.div_add by lia. reflexivity. }
  split; [|split].
  - unfold extractImageDataColors. cbv zeta. rewrite length_map, length_seq. exact Hn.
  - intros Hw Hh. split; [exact Hw|]. split; [exact Hh|].
    change (width (createTestImageData w h gen)) with w.
    change (height (createTestImageData w h gen)) with h.
    split; [rewrite Hlen; lia|].
    apply Forall_lookup_2. intros j v Hj.
    assert (Hjl : (j < w * h * 4)%nat) by (rewrite <- Hlen; eapply lookup_lt_Some, Hj).
    destruct (Hpix (j / 4)%nat) as (H0 & H1 & H2 & H3).
    { pose proof (Nat.div_mod_eq j 4). nia. }
    pose proof (Nat.div_mod_eq j 4) as Hdm.
    pose proof (Nat.mod_upper_bound j 4 ltac:(lia)) as Hm.
    assert (Hc : exists u, v = toUint8Clamp u).
    { destruct (j mod 4)%nat as [|[|[|[|?]]]] eqn:Em; [| | | |lia].
      - replace (j / 4 * 4)%nat with j in H0 by lia. rewrite Hj in H0.
        injection H0 as ->. eexists. reflexivity.
      - replace (j / 4 * 4 + 1)%nat with j in H1 by lia. rewrite Hj in H1.
        injection H1 as ->. eexists. reflexivity.
      - replace (j / 4 * 4 + 2)%nat with j in H2 by lia. rewrite Hj in H2.
        injection H2 as ->. eexists. reflexivity.
      - replace (j / 4 * 4 + 3)%nat with j in H3 by lia. rewrite Hj in H3.
        injection H3 as ->. eexists. reflexivity. }
    destruct Hc as [u ->]. unfold toUint8Clamp. lia.
  - intros x y Hx Hy. unfold extractImageDataColors. cbv zeta. rewrite Hn.
    rewrite lookup_map_seq by nia.
    destruct (Hpix (y * w + x)%nat ltac:(nia)) as (H0 & H1 & H2 & H3).
    assert (Ex : ((y * w + x) mod w = x)%nat).
    { rewrite Nat.add_comm, Nat.Div0.mod_add. apply Nat.mod_small, Hx. }
    assert (Ey : ((y * w + x) / w = y)%nat).
    { rewrite Nat.add_comm, Nat.div_add by lia. rewrite Nat.div_small by exact Hx. reflexivity. }
    rewrite Ex, Ey in *.
    replace (4 * (y * w + x))%nat with ((y * w + x) * 4)%nat by lia.
    rewrite H0, H1, H2, H3. reflexivity.
Qed.

Lemma createTestImageData_roundtrip_witness :
  wfImage (createTestImageData 2 1 (fun x _ => Pixel.mk (Some (300 * Z.of_nat x)) None (Some 7) None)) /\
  extractImageDataColors
    (createTestImageData 2 1 (fun x _ => Pixel.mk (Some (300 * Z.of_nat x)) None (Some 7) None))
    !! 1%nat
  = Some (Pixel.mk (Some 255) (Some 0) (Some 7) (Some 255)).
Proof.
  destruct (createTestImageData_roundtrip 2 1
              (fun x _ => Pixel.mk (Some (300 * Z.of_nat x)) None (Some 7) None))
    as (_ & Hwf & Hpix).
  split; [apply Hwf; lia|].
  apply (Hpix 1%nat 0%nat); lia.
Defined.
